(** * OTPW: one-time password login library (otpw.c)

    A shallow embedding of [otpw_prepare] and [otpw_verify] with the
    stdio and file-system calls they make, and the properties of the
    challenge selection, the response normalisation and the consumption
    of used passwords. *)

From Stdlib Require Import ZArith Ascii String List Bool Arith Lia.
From Equations Require Import Equations.
Import ListNotations.

(** ** Bytes and C strings *)

Definition bytes := list ascii.

Definition B (s : string) : bytes := list_ascii_of_string s.

Definition NUL : ascii := "000"%char.
Definition NL : ascii := "010"%char.
Definition HYPHEN : ascii := "-"%char.

(** Numeric value of a [char].  The code only compares characters with
    7-bit constants, so the sign of [char] does not matter: a byte above
    127 fails every test below whether it is read as signed or unsigned. *)
Definition code (c : ascii) : N := N_of_ascii c.

Definition bytes_eqb (a b : bytes) : bool :=
  if list_eq_dec ascii_dec a b then true else false.

(** The string a [char *] denotes: the bytes before the first NUL. *)
Fixpoint cstr (s : bytes) : bytes :=
  match s with
  | [] => []
  | c :: s' => if Ascii.eqb c NUL then [] else c :: cstr s'
  end.

Definition strlen (s : bytes) : nat := length (cstr s).

(** [strcmp(a, b) == 0]. *)
Definition strcmp0 (a b : bytes) : bool := bytes_eqb (cstr a) (cstr b).

(** [strncmp(s1, s2, n) == 0].  The end of a list reads as NUL: that is
    the terminator for a string, and for a window into [hbuf] that runs
    past the allocation (the C code reads whatever follows it there). *)
Fixpoint strncmp0 (s1 s2 : bytes) (n : nat) : bool :=
  match n with
  | O => true
  | S n' =>
      let c1 := hd NUL s1 in
      let c2 := hd NUL s2 in
      if Ascii.eqb c1 c2
      then (if Ascii.eqb c1 NUL then true else strncmp0 (tl s1) (tl s2) n')
      else false
  end.

(** [strncpy(dst, src, n)] into a zeroed buffer of [n+1] bytes, read back
    as a string. *)
Definition strncpy (src : bytes) (n : nat) : bytes := cstr (firstn n src).

(** ** conv_base64 *)

Definition tab : bytes :=
  B "ABCDEFGHIJKLMNOPQRSTUVWXYZabcdefghijk%mnopqrstuvwxyz:=23456789+/".

Definition byte_at (v : bytes) (k : nat) : Z := Z.of_N (code (nth k v NUL)).

Definition base64_index (v : bytes) (i : nat) : Z :=
  let j := ((i / 4) * 3)%nat in
  match (i mod 4)%nat with
  | O => Z.shiftr (byte_at v j) 2
  | 1%nat =>
      Z.lor (Z.land (Z.shiftl (byte_at v j) 4) 48)
            (Z.shiftr (byte_at v (j + 1)) 4)
  | 2%nat =>
      Z.lor (Z.land (Z.shiftl (byte_at v (j + 1)) 2) 60)
            (Z.shiftr (byte_at v (j + 2)) 6)
  | _ => Z.land (byte_at v (j + 2)) 63
  end.

Definition conv_base64 (v : bytes) (chars : nat) : bytes :=
  map (fun i => nth (Z.to_nat (base64_index v i)) tab NUL) (seq 0 chars).

(** ** Response normalisation (otpw_verify, the scan of [password])

    The scan walks [password] from its last byte to its first with the
    cursor [l].  The cursor is kept as the reversed unread part [rs] of
    the string: its head is [password[l]], its length is [l+1], and
    [l < 0] is [rs = []]. *)

Definition is_bs_del (c : ascii) : bool :=
  (code c =? 8)%N || (code c =? 127)%N.

Definition in_range (lo hi c : ascii) : bool :=
  (code lo <=? code c)%N && (code c <=? code hi)%N.

(** What the scan stores for [password[l]]; [None] when it stores
    nothing and the slot stays 0. *)
Definition canon (c : ascii) : option ascii :=
  if Ascii.eqb c "l" || Ascii.eqb c "1" || Ascii.eqb c "|" then Some "I"%char
  else if Ascii.eqb c "0" then Some "O"%char
  else if Ascii.eqb c "\" then Some "/"%char
  else if in_range "A" "Z" c || in_range "a" "z" c || in_range "2" "9" c
          || Ascii.eqb c ":" || Ascii.eqb c "%" || Ascii.eqb c "="
          || Ascii.eqb c "+" || Ascii.eqb c "/"
       then Some c
       else None.

(** The loop that removes DEL/BS characters, entered with [deleted]. *)
Fixpoint skip_deleted (deleted : nat) (rs : bytes) : bytes :=
  match rs with
  | [] => []
  | c :: rs' =>
      if is_bs_del c then skip_deleted (S deleted) rs'
      else match deleted with
           | S d => skip_deleted d rs'
           | O => rs
           end
  end.

Definition inspect {A} (a : A) : {b | a = b} := exist _ a eq_refl.

(** [while (!otpw[i*pwlen + j] && l >= 0)]: fills one slot.  Returns the
    character stored ([None]: the input ran out, the slot is still 0)
    and the cursor. *)
Equations? fill_slot (rs : bytes) : option ascii * bytes by wf (length rs) lt :=
fill_slot rs with inspect (skip_deleted 0 rs) := {
  | exist _ [] _ => (None, []);
  | exist _ (c :: rs') e with canon c := {
      | Some x => (Some x, rs');
      | None => fill_slot rs' } }.
Proof.
  assert (L : forall d s, length (skip_deleted d s) <= length s).
  { intros d s; revert d; induction s as [|a s IH]; intros d; simpl; [lia|].
    destruct (is_bs_del a); [specialize (IH (S d)); lia|].
    destruct d; simpl; [lia|]. specialize (IH d); lia. }
  specialize (L 0 rs). rewrite e in L. simpl in L. lia.
Qed.

(** [for (j = pwlen-1; j >= 0 && l >= 0; j--)]: one password, right to
    left.  [n] is [j+1]; [acc] holds the slots already filled, those to
    the right of [j].  Returns [j+1] at exit, the cursor and [acc]. *)
Definition slot (o : option ascii) : ascii :=
  match o with Some x => x | None => NUL end.

Fixpoint scan_row (n : nat) (rs : bytes) (acc : bytes) : nat * bytes * bytes :=
  match n, rs with
  | S n', _ :: _ =>
      let (o, rs') := fill_slot rs in scan_row n' rs' (slot o :: acc)
  | _, _ => (n, rs, acc)
  end.

(** [for (i = passwords-1; i >= 0 && l >= 0; i--)].  [m] is [i+1], [j1]
    is [j+1] as the last inner loop left it, [rows] are the passwords
    [i+1 ..] of the zeroed buffer [otpw], each [pwlen] bytes. *)
Fixpoint scan_passwords (pwlen m j1 : nat) (rs : bytes) (rows : list bytes)
  : nat * nat * bytes * list bytes :=
  match m, rs with
  | S m', _ :: _ =>
      let '(n, rs', acc) := scan_row pwlen rs [] in
      scan_passwords pwlen m' n rs' ((repeat NUL n ++ acc) :: rows)
  | _, _ => (m, j1, rs, rows)
  end.

(** The outcome of the scan: [None] when [i >= 0 || j >= 0] (entered
    password too short), else the prefix password (the first [l] bytes
    of [password] after [l++]) and the one-time passwords. *)
Definition scan_response (passwords pwlen : nat) (password : bytes)
  : option (bytes * list bytes) :=
  let '(m, j1, rs, rows) :=
    scan_passwords pwlen passwords 1 (rev (cstr password)) [] in
  if (0 <? m) || (0 <? j1) then None else Some (rev rs, rows).

(** ** Configuration, handle and file system *)

Record passwd := {
  pw_name : bytes;
  pw_dir : bytes;
  pw_uid : Z;
  pw_gid : Z
}.

(** The global configuration variables of otpw.c.  [otpw_locktimeout]
    is a [double] holding a whole number of seconds; times are whole
    seconds as well, so the comparison with [difftime] is the one on
    integers. *)
Record config := {
  otpw_file : bytes;
  otpw_locksuffix : bytes;
  otpw_multi : Z;
  otpw_locktimeout : Z;
  otpw_hlen : Z;
  otpw_magic : bytes;
  otpw_pseudouser : option passwd
}.

Definition default_config : config := {|
  otpw_file := B ".otpw";
  otpw_locksuffix := B ".lock";
  otpw_multi := 3;
  otpw_locktimeout := 24 * 60 * 60;
  otpw_hlen := 12;
  otpw_magic := B "OTPW1" ++ [NL];
  otpw_pseudouser := None
|}.

(** What the headers otpw.h and md.h supply; neither is among the
    sources, so the code is read for any value of them:
    [md_digest s] is the [MD_LEN] bytes that [md_init], [md_add] of the
    pieces of [s] in order and [md_close] leave in the output buffer;
    [sizeof_challenge] is [sizeof(ch->challenge)];
    [OTPW_NOLOCK] is the flag bit of that name. *)
Class Headers := {
  md_digest : bytes -> bytes;
  sizeof_challenge : Z;
  OTPW_NOLOCK : Z
}.

Inductive otpw_result := OTPW_OK | OTPW_WRONG | OTPW_ERROR.

(** What the pointers [selection], [hash], [hash[i]], [filename] and
    [lockfilename] of a handle point to: all are null; those that are
    not null point to blocks that malloc or calloc returned; or those
    blocks have been freed and the pointers left as they were. *)
Inductive heap_state := Unallocated | Allocated | Freed.

(** [struct challenge].  [selection] and [hash] are the arrays of
    [otpw_multi] elements that otpw_prepare allocates with calloc; an
    unset [hash] pointer is the empty string.  [heap] is no field of the
    struct: it is the state of the blocks that the pointers of the
    struct point to. *)
Record struct_challenge := {
  challenge : bytes;
  passwords : Z;
  locked : bool;
  entries : Z;
  pwlen : Z;
  challen : Z;
  hlen : Z;
  remaining : Z;
  uid : Z;
  gid : Z;
  selection : list nat;
  hash : list bytes;
  flags : Z;
  filename : bytes;
  lockfilename : bytes;
  heap : heap_state
}.

Inductive errno_t := E_NONE | EEXIST | ENOENT | EINVAL | EACCES.

Definition errno_eqb (a b : errno_t) : bool :=
  match a, b with
  | E_NONE, E_NONE | EEXIST, EEXIST | ENOENT, ENOENT
  | EINVAL, EINVAL | EACCES, EACCES => true
  | _, _ => false
  end.

(** What is found at [ch->lockfilename]. *)
Inductive lock_node :=
| NoLock
| Symlink (target : bytes) (mtime : Z)
| NotSymlink (mtime : Z).

(** The part of the system one call touches: the file at [ch->filename]
    ([None]: it cannot be opened; [pwfile_rw]: it can be opened "r+"),
    what is at [ch->lockfilename], whether its directory can be written,
    the clock, the effective ids and [errno].  The calls run one after
    the other with nobody else changing the file system in between. *)
Record world := {
  pwfile : option bytes;
  pwfile_rw : bool;
  lock : lock_node;
  dir_rw : bool;
  now : Z;
  euid : Z;
  egid : Z;
  errno : errno_t
}.

Definition set_pwfile (d : bytes) (w : world) : world :=
  {| pwfile := Some d; pwfile_rw := pwfile_rw w; lock := lock w;
     dir_rw := dir_rw w; now := now w; euid := euid w; egid := egid w;
     errno := errno w |}.

Definition set_lock (n : lock_node) (w : world) : world :=
  {| pwfile := pwfile w; pwfile_rw := pwfile_rw w; lock := n;
     dir_rw := dir_rw w; now := now w; euid := euid w; egid := egid w;
     errno := errno w |}.

Definition set_errno (e : errno_t) (w : world) : world :=
  {| pwfile := pwfile w; pwfile_rw := pwfile_rw w; lock := lock w;
     dir_rw := dir_rw w; now := now w; euid := euid w; egid := egid w;
     errno := e |}.

Definition seteuid (u : Z) (w : world) : world :=
  {| pwfile := pwfile w; pwfile_rw := pwfile_rw w; lock := lock w;
     dir_rw := dir_rw w; now := now w; euid := u; egid := egid w;
     errno := errno w |}.

Definition setegid (g : Z) (w : world) : world :=
  {| pwfile := pwfile w; pwfile_rw := pwfile_rw w; lock := lock w;
     dir_rw := dir_rw w; now := now w; euid := euid w; egid := g;
     errno := errno w |}.

(** [symlink(target, ch->lockfilename) == 0]. *)
Definition sys_symlink (target : bytes) (w : world) : bool * world :=
  match lock w with
  | NoLock =>
      if dir_rw w then (true, set_lock (Symlink target (now w)) w)
      else (false, set_errno EACCES w)
  | _ => (false, set_errno EEXIST w)
  end.

(** [lstat(ch->lockfilename, &lbuf)]: [st_mtime] when it returns 0. *)
Definition sys_lstat (w : world) : option Z * world :=
  match lock w with
  | NoLock => (None, set_errno ENOENT w)
  | Symlink _ t => (Some t, w)
  | NotSymlink t => (Some t, w)
  end.

(** [unlink(ch->lockfilename) == 0]. *)
Definition sys_unlink (w : world) : bool * world :=
  match lock w with
  | NoLock => (false, set_errno ENOENT w)
  | _ => if dir_rw w then (true, set_lock NoLock w)
         else (false, set_errno EACCES w)
  end.

(** [readlink(ch->lockfilename, buf, bufsiz)]: the return value and the
    bytes placed in [buf]. *)
Definition sys_readlink (bufsiz : nat) (w : world) : Z * bytes * world :=
  match lock w with
  | NoLock => (-1, [], set_errno ENOENT w)%Z
  | NotSymlink _ => (-1, [], set_errno EINVAL w)%Z
  | Symlink t _ => (Z.of_nat (length (firstn bufsiz t)), firstn bufsiz t, w)
  end.

(** ** stdio *)

Record stream := { data : bytes; pos : nat }.

(** At most [n] characters, up to and including the first newline. *)
Fixpoint read_line (n : nat) (s : bytes) : bytes :=
  match n, s with
  | S n', c :: s' => if Ascii.eqb c NL then [c] else c :: read_line n' s'
  | _, _ => []
  end.

(** [fgets(line, size, f)]: the characters stored, [None] at end of
    file. *)
Definition fgets (size : nat) (f : stream) : option (bytes * stream) :=
  match skipn (pos f) (data f) with
  | [] => None
  | rest =>
      let line := read_line (size - 1) rest in
      Some (line, {| data := data f; pos := pos f + length line |})
  end.

(** [fputc(c, f)] on a stream opened "r+": overwrites the byte at the
    position, or appends at the end of the file. *)
Definition fputc (c : ascii) (f : stream) : stream :=
  {| data := firstn (pos f) (data f) ++ c :: skipn (S (pos f)) (data f);
     pos := S (pos f) |}.

Definition isspace (c : ascii) : bool :=
  (code c =? 32)%N || ((9 <=? code c)%N && (code c <=? 13)%N).

Definition isdigit (c : ascii) : bool := in_range "0" "9" c.

Fixpoint skip_space (s : bytes) : bytes :=
  match s with
  | c :: s' => if isspace c then skip_space s' else s
  | [] => []
  end.

Fixpoint scan_digits (acc : Z) (s : bytes) : Z * bytes :=
  match s with
  | c :: s' =>
      if isdigit c
      then scan_digits (10 * acc + (Z.of_N (code c) - 48)) s'
      else (acc, s)
  | [] => (acc, [])
  end.

(** The [int] that holds the low 32 bits of [z]. *)
Definition to_int (z : Z) : Z := ((z + 2 ^ 31) mod 2 ^ 32 - 2 ^ 31)%Z.

(** The [long] that strtol returns for the number [z] it has read: a
    long has 64 bits, and a number outside its range gives the nearest
    end of the range. *)
Definition strtol (z : Z) : Z := Z.max (- 2 ^ 63) (Z.min (2 ^ 63 - 1) z).

(** One [%d] conversion: white space, an optional sign, digits.  The
    C library converts the digits as strtol does and stores the long
    in the [int], which keeps its low 32 bits: 4294967306 is stored
    as 10. *)
Definition scan_d (s : bytes) : option (Z * bytes) :=
  let s1 := skip_space s in
  let '(neg, s2) :=
    match s1 with
    | c :: t => if Ascii.eqb c "-" then (true, t)
                else if Ascii.eqb c "+" then (false, t) else (false, s1)
    | [] => (false, s1)
    end in
  match s2 with
  | c :: _ =>
      if isdigit c
      then let (v, rest) := scan_digits 0 s2 in
           Some (to_int (strtol (if neg then (- v)%Z else v)), rest)
      else None
  | [] => None
  end.

(** [sscanf(line, "%d%d%d%d\n", ...)]: the values converted, in order;
    their number is the return value. *)
Fixpoint sscanf_d (n : nat) (s : bytes) : list Z :=
  match n with
  | O => []
  | S n' =>
      match scan_d s with
      | Some (v, rest) => v :: sscanf_d n' rest
      | None => []
      end
  end.

Definition with_passwords (n : Z) (ch : struct_challenge) : struct_challenge :=
  {| challenge := challenge ch; passwords := n; locked := locked ch;
     entries := entries ch; pwlen := pwlen ch; challen := challen ch;
     hlen := hlen ch; remaining := remaining ch; uid := uid ch; gid := gid ch;
     selection := selection ch; hash := hash ch; flags := flags ch;
     filename := filename ch; lockfilename := lockfilename ch;
     heap := heap ch |}.

Definition with_locked (b : bool) (ch : struct_challenge) : struct_challenge :=
  {| challenge := challenge ch; passwords := passwords ch; locked := b;
     entries := entries ch; pwlen := pwlen ch; challen := challen ch;
     hlen := hlen ch; remaining := remaining ch; uid := uid ch; gid := gid ch;
     selection := selection ch; hash := hash ch; flags := flags ch;
     filename := filename ch; lockfilename := lockfilename ch;
     heap := heap ch |}.

Definition with_remaining (n : Z) (ch : struct_challenge) : struct_challenge :=
  {| challenge := challenge ch; passwords := passwords ch; locked := locked ch;
     entries := entries ch; pwlen := pwlen ch; challen := challen ch;
     hlen := hlen ch; remaining := n; uid := uid ch; gid := gid ch;
     selection := selection ch; hash := hash ch; flags := flags ch;
     filename := filename ch; lockfilename := lockfilename ch;
     heap := heap ch |}.

Definition with_challenge (s : bytes) (ch : struct_challenge) : struct_challenge :=
  {| challenge := s; passwords := passwords ch; locked := locked ch;
     entries := entries ch; pwlen := pwlen ch; challen := challen ch;
     hlen := hlen ch; remaining := remaining ch; uid := uid ch; gid := gid ch;
     selection := selection ch; hash := hash ch; flags := flags ch;
     filename := filename ch; lockfilename := lockfilename ch;
     heap := heap ch |}.

Definition with_heap (h : heap_state) (ch : struct_challenge)
  : struct_challenge :=
  {| challenge := challenge ch; passwords := passwords ch; locked := locked ch;
     entries := entries ch; pwlen := pwlen ch; challen := challen ch;
     hlen := hlen ch; remaining := remaining ch; uid := uid ch; gid := gid ch;
     selection := selection ch; hash := hash ch; flags := flags ch;
     filename := filename ch; lockfilename := lockfilename ch; heap := h |}.

(** [otpw_free(ch)]: every block whose pointer is not null is freed, the
    pointers stay as they are.  [None] is undefined behaviour: the blocks
    have been freed before. *)
Definition otpw_free (ch : struct_challenge) : option struct_challenge :=
  match heap ch with
  | Unallocated => Some ch
  | Allocated => Some (with_heap Freed ch)
  | Freed => None
  end.

(** [a[i] = v] on an array kept as a list. *)
Fixpoint store {A} (a : list A) (i : nat) (v : A) : list A :=
  match a, i with
  | [], _ => []
  | _ :: a', O => v :: a'
  | x :: a', S i' => x :: store a' i' v
  end.

Section Otpw.

Context {hdrs : Headers}.
Variable cfg : config.

(** The lines both functions read before the table: the magic line, a
    line that is skipped when it starts with '#', and the line handed
    to sscanf. *)
Definition header_line (f : stream) : option (bytes * stream) :=
  match fgets 81 f with
  | None => None
  | Some (l1, f1) =>
      if negb (strcmp0 l1 (otpw_magic cfg)) then None
      else match fgets 81 f1 with
           | None => None
           | Some (l2, f2) =>
               if Ascii.eqb (hd NUL l2) "#" then fgets 81 f2 else Some (l2, f2)
           end
  end.

(** ** otpw_verify *)

(** The loop that compares all entered passwords. *)
Definition compare_passwords (ch : struct_challenge) (prefix : bytes)
  (otpw : list bytes) : bool :=
  forallb
    (fun i =>
       strcmp0 (conv_base64 (md_digest (prefix ++ nth i otpw []))
                            (Z.to_nat (hlen ch)))
               (nth i (hash ch) []))
    (seq 0 (Z.to_nat (passwords ch))).

(** The header check before the overwrite.  The product is the
    number; the code computes it in [int], which is the number unless
    the computation overflows. *)
Definition check_header (ch : struct_challenge) (f : stream) : option stream :=
  match header_line f with
  | None => None
  | Some (line, f') =>
      match sscanf_d 4 (cstr line) with
      | [e; c; h; p] =>
          if ((e =? entries ch) && (p =? pwlen ch) && (h =? hlen ch)
              && (c =? challen ch)
              && negb (sizeof_challenge <? (c + 1) * otpw_multi cfg))%Z
          then Some f' else None
      | _ => None
      end
  end.

Fixpoint fputc_n (n : nat) (c : ascii) (f : stream) : stream :=
  match n with
  | O => f
  | S n' => fputc_n n' c (fputc c f)
  end.

(** [clear]: does [i] occur among the first [passwords] selections. *)
Definition selected (ch : struct_challenge) (i : nat) : bool :=
  existsb (Nat.eqb i) (firstn (Z.to_nat (passwords ch)) (selection ch)).

(** [for (i = 0; i < entries; i++)] of the overwrite, from entry [i]
    with [n] entries to go.  [false]: unexpected end of file. *)
Fixpoint overwrite (n i : nat) (ch : struct_challenge) (f : stream)
  : bool * struct_challenge * stream :=
  match n with
  | O => (true, ch, f)
  | S n' =>
      if selected ch i
      then overwrite n' (S i)
             (with_remaining (remaining ch - 1) ch)
             (fputc NL (fputc_n (Z.to_nat (challen ch + hlen ch)) HYPHEN f))
      else match fgets 81 f with
           | None => (false, ch, f)
           | Some (_, f') => overwrite n' (S i) ch f'
           end
  end.

(** The code from the label [cleanup] on.  [f] is the open stream if
    any, [old] the saved ids ([None]: [olduid] and [oldgid] are -1).
    [cleanup_world] is what it does to the system; it ends with
    [otpw_free(ch)], and [None] is undefined behaviour. *)
Definition cleanup_world (ch : struct_challenge) (f : option stream)
  (old : option (Z * Z)) (w : world) : world :=
  let w1 := match f with Some s => set_pwfile (data s) w | None => w end in
  let w2 := if locked ch then snd (sys_unlink w1) else w1 in
  match old with
  | Some (olduid, oldgid) => setegid oldgid (seteuid olduid w2)
  | None => w2
  end.

Definition verify_cleanup (result : otpw_result) (ch : struct_challenge)
  (f : option stream) (old : option (Z * Z)) (w : world)
  : option (otpw_result * struct_challenge * world) :=
  match otpw_free (with_passwords 0 ch) with
  | Some ch' => Some (result, ch', cleanup_world ch f old w)
  | None => None
  end.

(** The code from the label [writefail] on. *)
Definition verify_writefail (ch : struct_challenge)
  (f : option stream) (old : option (Z * Z)) (w : world)
  : option (otpw_result * struct_challenge * world) :=
  let ch' := if (passwords ch =? 1)%Z then with_locked false ch else ch in
  verify_cleanup OTPW_OK ch' f old w.

Definition fopen_rw (w : world) : option stream :=
  match pwfile w with
  | Some d => if pwfile_rw w then Some {| data := d; pos := 0 |} else None
  | None => None
  end.

(** [otpw_verify(ch, password)] for a non-null [ch]; [password = None]
    is the null pointer.  Allocation succeeds, except that calloc of a
    negative [pwlen] does not.  [None] is undefined behaviour: the
    comparisons read [ch->hash[i]], and every path ends in the cleanup,
    which frees the blocks of the handle. *)
Definition otpw_verify (ch : struct_challenge) (password : option bytes)
  (w : world) : option (otpw_result * struct_challenge * world) :=
  match password with
  | None => verify_cleanup OTPW_ERROR ch None None w
  | Some pw =>
      if ((passwords ch <? 1) || (otpw_multi cfg <? passwords ch))%Z
      then verify_cleanup OTPW_ERROR ch None None w
      else if (pwlen ch <? 0)%Z
      then verify_cleanup OTPW_ERROR ch None None w
      else
        let old := Some (euid w, egid w) in
        let w1 := seteuid (uid ch) (setegid (gid ch) w) in
        match scan_response (Z.to_nat (passwords ch)) (Z.to_nat (pwlen ch)) pw with
        | None => verify_cleanup OTPW_WRONG ch None old w1
        | Some (prefix, otpw) =>
            match heap ch with
            | Unallocated | Freed => None
            | Allocated =>
                if negb (compare_passwords ch prefix otpw)
                then verify_cleanup OTPW_WRONG ch None old w1
                else
                  match fopen_rw w1 with
                  | None => verify_writefail ch None old w1
                  | Some f =>
                      match check_header ch f with
                      | None => verify_writefail ch (Some f) old w1
                      | Some f1 =>
                          let '(ok, ch', f2) :=
                            overwrite (Z.to_nat (entries ch)) 0 ch f1 in
                          if ok
                          then verify_cleanup OTPW_OK ch' (Some f2) old w1
                          else verify_writefail ch' (Some f2) old w1
                      end
                  end
            end
        end
  end.

(** ** otpw_prepare *)

(** The test of both scans for a remaining password:
    [hbuf[j*hbuflen] == '-' ||
     !strncmp(hbuf + j*hbuflen + ch->challen, lock, ch->challen)]. *)
Definition rejected (hbuf lock : bytes) (hbuflen challen j : nat) : bool :=
  Ascii.eqb (nth (j * hbuflen) hbuf NUL) HYPHEN
  || strncmp0 (skipn (j * hbuflen + challen) hbuf) lock challen.

(** The random scan.  [rbg k] is the unsigned int read from [r] after
    the [k]-th call of rbg_iter; [more] is how often the loop may still
    repeat ([2 * entries] less [count]).  Returns [j] and the number of
    draws made so far. *)
Fixpoint random_scan (rbg : nat -> nat) (hbuf lock : bytes)
  (hbuflen challen entries more k : nat) : nat * nat :=
  let j := rbg k mod entries in
  match more with
  | S more' =>
      if rejected hbuf lock hbuflen challen j
      then random_scan rbg hbuf lock hbuflen challen entries more' (S k)
      else (j, S k)
  | O => (j, S k)
  end.

(** The fallback scan; it has no bound of its own, [None] is a scan
    still running after [fuel] steps. *)
Fixpoint fallback_scan (fuel : nat) (hbuf lock : bytes)
  (hbuflen challen entries j : nat) : option nat :=
  if rejected hbuf lock hbuflen challen j
  then match fuel with
       | O => None
       | S fuel' =>
           fallback_scan fuel' hbuf lock hbuflen challen entries
                         ((j + 1) mod entries)
       end
  else Some j.

(** Adds password [j] to the multi challenge. *)
Definition add_password (ch : struct_challenge) (hbuf : bytes) (j : nat)
  : struct_challenge * bytes :=
  let hbuflen := Z.to_nat (challen ch + hlen ch) in
  let p := Z.to_nat (passwords ch) in
  ({| challenge :=
        challenge ch ++ (if (passwords ch =? 0)%Z then [] else B "/")
        ++ strncpy (skipn (j * hbuflen) hbuf) (Z.to_nat (challen ch));
      passwords := passwords ch + 1;
      locked := locked ch; entries := entries ch; pwlen := pwlen ch;
      challen := challen ch; hlen := hlen ch; remaining := remaining ch;
      uid := uid ch; gid := gid ch;
      selection := store (selection ch) p j;
      hash := store (hash ch) p
                (strncpy (skipn (j * hbuflen + Z.to_nat (challen ch)) hbuf)
                         (Z.to_nat (hlen ch)));
      flags := flags ch; filename := filename ch;
      lockfilename := lockfilename ch; heap := heap ch |},
   store hbuf (j * hbuflen) HYPHEN).

(** [sizeof(ch->challenge) - ch->challen - 2], computed in [size_t]. *)
Definition challenge_room (ch : struct_challenge) : Z :=
  ((sizeof_challenge - challen ch - 2) mod 2 ^ 64)%Z.

(** The loop that generates [otpw_multi] challenges; [n] bounds the
    passwords still to add, [k] counts the random draws. *)
Fixpoint multi_challenge (n fuel : nat) (rbg : nat -> nat) (lock : bytes)
  (ch : struct_challenge) (hbuf : bytes) (k : nat)
  : option (struct_challenge * bytes * nat) :=
  match n with
  | O => Some (ch, hbuf, k)
  | S n' =>
      if ((passwords ch <? otpw_multi cfg)
          && (Z.of_nat (strlen (challenge ch)) <? challenge_room ch))%Z
      then
        let hbuflen := Z.to_nat (challen ch + hlen ch) in
        let c := Z.to_nat (challen ch) in
        let e := Z.to_nat (entries ch) in
        let '(j, k') := random_scan rbg hbuf lock hbuflen c e (2 * e) k in
        match fallback_scan fuel hbuf lock hbuflen c e j with
        | None => None
        | Some j' =>
            let '(ch', hbuf') := add_password ch hbuf j' in
            multi_challenge n' fuel rbg lock ch' hbuf' k'
        end
      else Some (ch, hbuf, k)
  end.

Inductive lock_outcome := Locked | LockFailed | Contended.

(** The loop that tries to get the lock, with [rounds] rounds left of
    its five. *)
Fixpoint lock_loop (rounds : nat) (target : bytes) (w : world)
  : lock_outcome * world :=
  match rounds with
  | O => (Contended, w)
  | S rounds' =>
      let (ok, w1) := sys_symlink target w in
      if ok then (Locked, w1)
      else if negb (errno_eqb (errno w1) EEXIST) then (LockFailed, w1)
      else
        let (st, w2) := sys_lstat w1 in
        match st with
        | Some mtime =>
            if ((0 <? otpw_locktimeout cfg)
                && (otpw_locktimeout cfg <? now w2 - mtime))%Z
            then lock_loop rounds' target (snd (sys_unlink w2))
            else (Contended, w2)
        | None =>
            if errno_eqb (errno w2) ENOENT then lock_loop rounds' target w2
            else (LockFailed, w2)
        end
  end.

(** The loop that reads the [entries] lines into [hbuf]: [n] lines to
    go from line [i]; [j] is the first unused hash found so far, [None]
    for -1 (it is set as soon as [remaining] is counted up).  [None] is
    returned when a line is missing or has the wrong length; the count
    of [remaining] made so far is kept in both cases. *)
Fixpoint read_entries (n i hbuflen : nat) (f : stream) (hbuf : bytes)
  (rem : Z) (j : option nat) : Z * option (bytes * option nat) :=
  match n with
  | O => (rem, Some (hbuf, j))
  | S n' =>
      match fgets 81 f with
      | None => (rem, None)
      | Some (line, f') =>
          if negb (strlen line =? hbuflen + 1) then (rem, None)
          else
            let live := negb (Ascii.eqb (hd NUL line) HYPHEN) in
            read_entries n' (S i) hbuflen f' (hbuf ++ firstn hbuflen line)
              (if live then rem + 1 else rem)%Z
              (if live then match j with None => Some i | _ => j end else j)
      end
  end.

Definition init_challenge (flags0 : Z) (ch : struct_challenge) : struct_challenge :=
  {| challenge := []; passwords := 0; locked := false; entries := -1;
     pwlen := 0; challen := challen ch; hlen := hlen ch; remaining := -1;
     uid := uid ch; gid := gid ch;
     selection := repeat 0 (Z.to_nat (otpw_multi cfg));
     hash := repeat [] (Z.to_nat (otpw_multi cfg));
     flags := flags0; filename := []; lockfilename := [];
     heap := Allocated |}.

(** The file names and the ids used to access the file: those of the
    pseudouser if there is one. *)
Definition with_names (user : passwd) (ch : struct_challenge) : struct_challenge :=
  let fname :=
    match otpw_pseudouser cfg with
    | Some pu => pw_dir pu ++ B "/" ++ pw_name user
    | None => pw_dir user ++ B "/" ++ otpw_file cfg
    end in
  let owner :=
    match otpw_pseudouser cfg with
    | Some pu => pu
    | None => user
    end in
  {| challenge := challenge ch; passwords := passwords ch; locked := locked ch;
     entries := entries ch; pwlen := pwlen ch; challen := challen ch;
     hlen := hlen ch; remaining := remaining ch;
     uid := pw_uid owner; gid := pw_gid owner;
     selection := selection ch; hash := hash ch; flags := flags ch;
     filename := fname; lockfilename := fname ++ otpw_locksuffix cfg;
     heap := heap ch |}.

(** The fields sscanf assigns: as many as it converted. *)
Definition with_header (vals : list Z) (ch : struct_challenge) : struct_challenge :=
  {| challenge := challenge ch; passwords := passwords ch; locked := locked ch;
     entries := nth 0 vals (entries ch); pwlen := nth 3 vals (pwlen ch);
     challen := nth 1 vals (challen ch); hlen := nth 2 vals (hlen ch);
     remaining := remaining ch; uid := uid ch; gid := gid ch;
     selection := selection ch; hash := hash ch; flags := flags ch;
     filename := filename ch; lockfilename := lockfilename ch;
     heap := heap ch |}.

(** The first unused password [j] as the challenge. *)
Definition with_primary (hbuf : bytes) (j : nat) (ch : struct_challenge)
  : struct_challenge :=
  let hbuflen := Z.to_nat (challen ch + hlen ch) in
  {| challenge := strncpy (skipn (j * hbuflen) hbuf) (Z.to_nat (challen ch));
     passwords := passwords ch; locked := locked ch;
     entries := entries ch; pwlen := pwlen ch; challen := challen ch;
     hlen := hlen ch; remaining := remaining ch; uid := uid ch; gid := gid ch;
     selection := store (selection ch) 0 j;
     hash := store (hash ch) 0
               (strncpy (skipn (j * hbuflen + Z.to_nat (challen ch)) hbuf)
                        (Z.to_nat (hlen ch)));
     flags := flags ch; filename := filename ch;
     lockfilename := lockfilename ch;
     heap := heap ch |}.

(** The code from the label [cleanup] on: the ids are restored; the
    stream was only read, closing it changes nothing.  With an empty
    challenge the blocks of the handle, which this call has allocated,
    are freed. *)
Definition prepare_cleanup (ch : struct_challenge) (old : option (Z * Z))
  (w : world) : struct_challenge * world :=
  (with_heap (match challenge ch with [] => Freed | _ => heap ch end) ch,
   match old with
   | Some (olduid, oldgid) => setegid oldgid (seteuid olduid w)
   | None => w
   end).

(** The range test of the header values.  The product is the number;
    the code computes it in [int], which is the number unless the
    computation overflows. *)
Definition header_in_range (ch : struct_challenge) : bool :=
  negb ((entries ch <? 1) || (9999 <? entries ch) || (challen ch <? 1)
        || (sizeof_challenge <? (challen ch + 1) * otpw_multi cfg)
        || (pwlen ch <? 4) || (999 <? pwlen ch)
        || negb (hlen ch =? otpw_hlen cfg))%Z.

(** The part of otpw_prepare that runs once another login holds the
    lock, from the readlink on. *)
Definition prepare_contended (fuel : nat) (rbg : nat -> nat) (lock0 : bytes)
  (ch : struct_challenge) (hbuf : bytes) (w : world)
  : option (struct_challenge * world) :=
  let '(i, buf, w1) := sys_readlink 80 w in
  let after_readlink :=
    if (0 <? i)%Z
    then Some (buf,
               if negb (Z.of_nat (strlen buf) =? challen ch)%Z
               then snd (sys_unlink w1) else w1)
    else if negb (errno_eqb (errno w1) ENOENT) then None
    else Some (lock0, w1) in
  match after_readlink with
  | None => Some (ch, w1)
  | Some (lock, w2) =>
      if ((remaining ch <? otpw_multi cfg + 1) || (remaining ch <? 10))%Z
      then Some (ch, w2)
      else
        match multi_challenge (Z.to_nat (otpw_multi cfg)) fuel rbg lock ch hbuf 0 with
        | None => None
        | Some (ch', _, _) => Some (ch', w2)
        end
  end.

(** otpw_prepare once the table is in [hbuf] and some password is
    unused: from the choice of the first unused password [j] on. *)
Definition prepare_locking (fuel : nat) (rbg : nat -> nat) (lock0 : bytes)
  (ch : struct_challenge) (hbuf : bytes) (j : nat) (old : option (Z * Z))
  (w : world) : option (struct_challenge * world) :=
  let ch := with_primary hbuf j ch in
  if negb (Z.land (flags ch) OTPW_NOLOCK =? 0)%Z
  then Some (prepare_cleanup (with_passwords 1 ch) old w)
  else
    match lock_loop 5 (challenge ch) w with
    | (Locked, w') =>
        Some (prepare_cleanup (with_locked true (with_passwords 1 ch)) old w')
    | (LockFailed, w') =>
        Some (prepare_cleanup (with_challenge [] ch) old w')
    | (Contended, w') =>
        match prepare_contended fuel rbg lock0 (with_challenge [] ch) hbuf w' with
        | None => None
        | Some (ch', w'') => Some (prepare_cleanup ch' old w'')
        end
    end.

(** [otpw_prepare(ch, user, flags)] for a non-null [ch], whose fields on
    entry are [ch0]; [user = None] is the null pointer.  [lock0] is what
    the local array [lock] holds on entry; [None] is returned when the
    fallback scan is still running after [fuel] steps.  Allocation
    succeeds. *)
Definition otpw_prepare (fuel : nat) (rbg : nat -> nat) (lock0 : bytes)
  (ch0 : struct_challenge) (user : option passwd) (flags0 : Z) (w : world)
  : option (struct_challenge * world) :=
  let ch := init_challenge flags0 ch0 in
  match user with
  | None => Some (prepare_cleanup ch None w)
  | Some u =>
      let ch := with_names u ch in
      let old := Some (euid w, egid w) in
      let w := seteuid (uid ch) (setegid (gid ch) w) in
      match pwfile w with
      | None => Some (prepare_cleanup ch old w)
      | Some d =>
          match header_line {| data := d; pos := 0 |} with
          | None => Some (prepare_cleanup ch old w)
          | Some (line, f) =>
              let vals := sscanf_d 4 (cstr line) in
              let ch := with_header vals ch in
              if negb (length vals =? 4) then Some (prepare_cleanup ch old w)
              else if negb (header_in_range ch) then Some (prepare_cleanup ch old w)
              else
                let hbuflen := Z.to_nat (challen ch + hlen ch) in
                let '(rem, tbl) :=
                  read_entries (Z.to_nat (entries ch)) 0 hbuflen f [] 0 None in
                let ch := with_remaining rem ch in
                match tbl with
                | None => Some (prepare_cleanup ch old w)
                | Some (hbuf, jo) =>
                    if (rem <? 1)%Z then Some (prepare_cleanup ch old w)
                    else
                      match jo with
                      | None => Some (prepare_cleanup ch old w)
                      | Some j => prepare_locking fuel rbg lock0 ch hbuf j old w
                      end
                end
          end
      end
  end.

End Otpw.

Arguments otpw_verify {hdrs} cfg ch password w.
Arguments otpw_prepare {hdrs} cfg fuel rbg lock0 ch0 user flags0 w.

Definition verdict (r : otpw_result * struct_challenge * world) : otpw_result :=
  fst (fst r).
Definition handle_after (r : otpw_result * struct_challenge * world)
  : struct_challenge := snd (fst r).
Definition world_after (r : otpw_result * struct_challenge * world) : world :=
  snd r.

(** ** The user database and the pseudouser *)

(** The global variables [otpw_autopseudouser] and
    [otpw_autopseudouser_maxuid]. *)
Record pseudouser_config := {
  otpw_autopseudouser : bytes;
  otpw_autopseudouser_maxuid : Z
}.

Definition default_pseudouser_config : pseudouser_config :=
  {| otpw_autopseudouser := B "otpw"; otpw_autopseudouser_maxuid := 999 |}.

Section UserDatabase.

(** The values of [ENOMEM] and [EINVAL] in errno.h. *)
Variables (ENOMEM_code EINVAL_code : Z).

(** Whether malloc has memory for a [struct otpw_pwdbuf]. *)
Variable malloc_ok : bool.

(** [getpwnam_r] and [getpwuid_r]: the value returned and the entry
    found ([None]: the result pointer is set to null). *)
Variable getpwnam_r : bytes -> Z * option passwd.
Variable getpwuid_r : Z -> Z * option passwd.

(** [otpw_getpwnam(name, result)]: the value returned and what
    [*result] is afterwards; [result0] is what it was before, which
    stays when no buffer could be allocated. *)
Definition otpw_getpwnam (name : bytes) (result0 : option passwd)
  : Z * option passwd :=
  if malloc_ok then getpwnam_r name else (ENOMEM_code, result0).

Definition otpw_getpwuid (uid0 : Z) (result0 : option passwd)
  : Z * option passwd :=
  if malloc_ok then getpwuid_r uid0 else (ENOMEM_code, result0).

(** [otpw_set_pseudouser(&otpw_pseudouser)]: the value returned and
    the global [otpw_pseudouser] afterwards; [pseudouser0] is the
    global before the call. *)
Definition otpw_set_pseudouser (pc : pseudouser_config)
  (pseudouser0 : option passwd) : Z * option passwd :=
  let (err, pseudouser) :=
    otpw_getpwnam (otpw_autopseudouser pc) pseudouser0 in
  match pseudouser with
  | Some pu =>
      if ((0 <=? otpw_autopseudouser_maxuid pc)
          && (otpw_autopseudouser_maxuid pc <? pw_uid pu))%Z
      then (EINVAL_code, None)
      else (err, pseudouser)
  | None => (err, pseudouser)
  end.

End UserDatabase.

(** * The vocabulary of the statements *)

Section Vocabulary.

Context {hdrs : Headers}.
Variable cfg : config.

(** ** Verification *)

(** Every entered password hash-matches: the scan fills all slots and
    the loop of comparisons runs to its end. *)
Definition entered_passwords_match (ch : struct_challenge) (pw : bytes) : bool :=
  match scan_response (Z.to_nat (passwords ch)) (Z.to_nat (pwlen ch)) pw with
  | Some (prefix, otpw) => compare_passwords ch prefix otpw
  | None => false
  end.

(** The handle is one otpw_verify accepts and can allocate for, and
    its blocks are in place. *)
Definition usable (ch : struct_challenge) : Prop :=
  (1 <= passwords ch <= otpw_multi cfg)%Z /\ (0 <= pwlen ch)%Z
  /\ heap ch = Allocated.

(** A password line as the file format has it: [challen + hlen]
    characters other than newline, then a newline, and short enough for
    the line buffer. *)
Definition table_line (hbuflen : nat) (l : bytes) : bool :=
  (length l =? hbuflen + 1)
  && (length l <=? 80)
  && Ascii.eqb (last l NUL) NL
  && forallb (fun c => negb (Ascii.eqb c NL)) (removelast l).

Definition line_ok (ch : struct_challenge) (l : bytes) : bool :=
  table_line (Z.to_nat (challen ch + hlen ch)) l.

(** The line that replaces a used password. *)
Definition hyphen_line (ch : struct_challenge) : bytes :=
  repeat HYPHEN (Z.to_nat (challen ch + hlen ch)) ++ [NL].

(** The password lines after the overwrite, from entry [i] on. *)
Fixpoint consumed (ch : struct_challenge) (i : nat) (lines : list bytes)
  : list bytes :=
  match lines with
  | [] => []
  | l :: ls => (if selected ch i then hyphen_line ch else l) :: consumed ch (S i) ls
  end.

(** How many of the [n] entries from [i] on are selected. *)
Fixpoint hits (ch : struct_challenge) (i n : nat) : nat :=
  match n with
  | O => 0
  | S n' => (if selected ch i then 1 else 0) + hits ch (S i) n'
  end.

(** ** Typing noise and confusable characters *)

Definition nonnul (c : ascii) : bool := negb (Ascii.eqb c NUL).

(** A typo in the order typed: characters that are each cancelled by a
    later BS or DEL. *)
Inductive typo : bytes -> Prop :=
| typo_nil : typo []
| typo_cancel c d t1 t2 :
    nonnul c = true -> is_bs_del c = false -> is_bs_del d = true ->
    typo t1 -> typo t2 -> typo (c :: t1 ++ d :: t2).

(** What may be inserted: typos, and characters the scan neither
    stores nor counts as BS or DEL (white space, control characters,
    punctuation outside the alphabet). *)
Inductive noise : bytes -> Prop :=
| noise_nil : noise []
| noise_typo t n : typo t -> noise n -> noise (t ++ n)
| noise_ignored c n :
    nonnul c = true -> is_bs_del c = false -> canon c = None ->
    noise n -> noise (c :: n).

(** [typed_with_noise b b']: [b] is made of characters the scan stores,
    and [b'] is [b] with noise inserted after any of its characters. *)
Inductive typed_with_noise : bytes -> bytes -> Prop :=
| twn_nil : typed_with_noise [] []
| twn_char c n b b' :
    canon c <> None -> noise n -> typed_with_noise b b' ->
    typed_with_noise (c :: b) (c :: n ++ b').

(** [noisy k rs rs']: the cursors of a scan of the clean and of the
    noisy response, with [k] stored characters to go before the part
    the two responses share. *)
Inductive noisy : nat -> bytes -> bytes -> Prop :=
| noisy_shared t : noisy 0 t t
| noisy_char k c n rs rs' :
    canon c <> None -> noise n -> noisy k rs rs' ->
    noisy (S k) (c :: rs) (rev n ++ c :: rs').

Definition in_class (cls : bytes) (c : ascii) : bool :=
  existsb (Ascii.eqb c) cls.

(** [c'] may be typed for [c]: the same character, or both among
    l 1 | I, both among 0 O, or both among \ /. *)
Definition confusable (c c' : ascii) : bool :=
  Ascii.eqb c c'
  || (in_class (B "l1|I") c && in_class (B "l1|I") c')
  || (in_class (B "0O") c && in_class (B "0O") c')
  || (in_class (B "\/") c && in_class (B "\/") c').

(** Two characters the scan treats alike. *)
Definition alike (c c' : ascii) : Prop :=
  canon c = canon c' /\ is_bs_del c = is_bs_del c'.

(** The prefix password the scan finds in a response: the first [l]
    bytes of [password] once the scan is done (empty when the response
    is too short). *)
Definition prefix_password (ch : struct_challenge) (r : bytes) : bytes :=
  match scan_response (Z.to_nat (passwords ch)) (Z.to_nat (pwlen ch)) r with
  | Some (prefix, _) => prefix
  | None => []
  end.

(** ** Password files and locks *)

(** An entry is unused when its line does not start with a hyphen. *)
Definition unused (l : bytes) : bool := negb (Ascii.eqb (hd NUL l) HYPHEN).

Definition unused_count (lines : list bytes) : Z :=
  Z.of_nat (length (filter unused lines)).

(** A password line otpw_prepare accepts for [hbuflen]. *)
Definition entry_line (hbuflen : nat) (l : bytes) : bool :=
  table_line hbuflen l && forallb nonnul l.

(** The first unused entry among [lines], which start at entry [i],
    unless [j] already names one. *)
Fixpoint first_unused (i : nat) (lines : list bytes) (j : option nat)
  : option nat :=
  match lines with
  | [] => j
  | l :: ls =>
      first_unused (S i) ls
        (if unused l then match j with None => Some i | _ => j end else j)
  end.

(** The header values of a file and what follows the header line. *)
Definition table_of (d : bytes) : option (Z * Z * Z * Z * bytes) :=
  match header_line cfg {| data := d; pos := 0 |} with
  | Some (line, f) =>
      match sscanf_d 4 (cstr line) with
      | [e; c; h; p] => Some (e, c, h, p, skipn (pos f) d)
      | _ => None
      end
  | None => None
  end.

(** The ranges otpw_prepare allows for the header values. *)
Definition header_values_ok (e c h p : Z) : Prop :=
  (1 <= e <= 9999 /\ 1 <= c /\ (c + 1) * otpw_multi cfg <= sizeof_challenge
   /\ 4 <= p <= 999 /\ h = otpw_hlen cfg)%Z.

(** The header test computes [(challen + 1) * otpw_multi] in [int];
    for the header value [c] neither the sum nor the product
    overflows. *)
Definition product_in_int (c : Z) : Prop :=
  (c + 1 < 2 ^ 31 /\ - 2 ^ 31 <= (c + 1) * otpw_multi cfg < 2 ^ 31)%Z.

(** A password file in the format of the library: the header with
    values in range, then [entries] password lines. *)
Definition password_file (d : bytes) (e c h p : Z) (lines : list bytes)
  (post : bytes) : Prop :=
  table_of d = Some (e, c, h, p, concat lines ++ post)
  /\ header_values_ok e c h p
  /\ length lines = Z.to_nat e
  /\ forallb (entry_line (Z.to_nat (c + h))) lines = true.

(** The handle otpw_prepare has built when the table is read. *)
Definition table_handle (ch0 : struct_challenge) (u : passwd) (flags0 : Z)
  (e c h p : Z) (lines : list bytes) : struct_challenge :=
  with_remaining (unused_count lines)
    (with_header [e; c; h; p] (with_names cfg u (init_challenge cfg flags0 ch0))).

Definition table_hbuf (c h : Z) (lines : list bytes) : bytes :=
  concat (map (firstn (Z.to_nat (c + h))) lines).

(** The lock with modification time [mt] is older than the time out. *)
Definition stale (w : world) (mt : Z) : bool :=
  ((0 <? otpw_locktimeout cfg) && (otpw_locktimeout cfg <? now w - mt))%Z.

Definition lock_mtime (w : world) : option Z :=
  match lock w with
  | NoLock => None
  | Symlink _ mt => Some mt
  | NotSymlink mt => Some mt
  end.

(** ** The alphabet *)

(** A character the scan stores as it is. *)
Definition canonical (c : ascii) : Prop := canon c = Some c.

Definition all_bytes : list ascii := map ascii_of_nat (seq 0 256).

(** The four table indices conv_base64 forms from two adjacent bytes. *)
Definition base64_indices (x y : ascii) : list Z :=
  let a := Z.of_N (code x) in
  let b := Z.of_N (code y) in
  [ Z.shiftr a 2;
    Z.lor (Z.land (Z.shiftl a 4) 48) (Z.shiftr b 4);
    Z.lor (Z.land (Z.shiftl a 2) 60) (Z.shiftr b 6);
    Z.land b 63 ].

Definition canonicalb (c : ascii) : bool :=
  match canon c with
  | Some c' => Ascii.eqb c' c
  | None => false
  end.

Definition emits_canonical (x y : ascii) : bool :=
  forallb (fun idx => canonicalb (nth (Z.to_nat idx) tab NUL))
          (base64_indices x y).

(** ** The multi challenge *)

(** What the loop keeps true of the passwords selected so far, with
    [hbuf0] the table as read from the file and [hbuf] the table with
    the selected entries marked: they are distinct entries that the test
    accepted in the table as read, they are marked, and the test of
    the other entries is as in the table as read. *)
Definition multi_inv (lock hbuf0 : bytes) (ch : struct_challenge)
  (hbuf : bytes) : Prop :=
  let n := Z.to_nat (challen ch + hlen ch) in
  let c := Z.to_nat (challen ch) in
  let e := Z.to_nat (entries ch) in
  let sel := firstn (Z.to_nat (passwords ch)) (selection ch) in
  (0 <= passwords ch)%Z
  /\ length (selection ch) = Z.to_nat (otpw_multi cfg)
  /\ length hbuf = e * n
  /\ length sel = Z.to_nat (passwords ch)
  /\ NoDup sel
  /\ (forall j, In j sel ->
        j < e /\ rejected hbuf0 lock n c j = false
        /\ rejected hbuf lock n c j = true)
  /\ (forall i, i < e -> ~ In i sel ->
        rejected hbuf lock n c i = rejected hbuf0 lock n c i).

End Vocabulary.

Section SelectionVocabulary.

Variables (lock : bytes) (hbuflen challen entries : nat).

(** The entries the test accepts. *)
Definition accepted (hbuf : bytes) (j : nat) : bool :=
  negb (rejected hbuf lock hbuflen challen j).

Definition accepted_count (hbuf : bytes) : nat :=
  length (filter (accepted hbuf) (seq 0 entries)).

End SelectionVocabulary.

(** ** Data for concrete runs

    A stand-in for the digest of md.h, used only to run the functions
    on concrete inputs: the 160 low bits of a polynomial in the input
    bytes, least significant byte first. *)
Definition demo_md (s : bytes) : bytes :=
  let n := fold_left (fun acc c => (acc * 257 + code c + 1) mod 2 ^ 160)%N s 0%N in
  map (fun k => ascii_of_N ((n / 2 ^ (8 * N.of_nat k)) mod 256)%N) (seq 0 20).

(** The buffer for the challenge holds 80 characters and the NUL. *)
Definition demo_headers : Headers :=
  {| md_digest := demo_md; sizeof_challenge := 81; OTPW_NOLOCK := 2 |}.

Definition demo_hash (prefix otp : string) : bytes :=
  conv_base64 (demo_md (B prefix ++ B otp)) 12.

(** A password line for the prefix password ["foo"]. *)
Definition demo_entry (label otp : string) : bytes :=
  B label ++ demo_hash "foo" otp ++ [NL].

Definition demo_lines : list bytes :=
  [ demo_entry "ABC" "aaaaaaaa"; demo_entry "ABD" "aaaaaaab";
    demo_entry "ABE" "aaaaaaac"; demo_entry "ABF" "aaaaaaad";
    demo_entry "ABG" "aaaaaaae"; demo_entry "ABH" "aaaaaaaf";
    demo_entry "ABI" "aaaaaaag"; demo_entry "ABJ" "aaaaaaah";
    demo_entry "ABK" "aaaaaaai"; demo_entry "ABL" "aaaaaaaj" ].

Definition demo_header : bytes := B "OTPW1" ++ [NL] ++ B "10 3 12 8" ++ [NL].

(** Ten unused passwords: entries=10, challen=3, hlen=12, pwlen=8. *)
Definition demo_file : bytes := demo_header ++ concat demo_lines.

Definition demo_user : passwd :=
  {| pw_name := B "u"; pw_dir := B "/home/u"; pw_uid := 1000; pw_gid := 100 |}.

(** The handle a caller passes to otpw_prepare: all zero. *)
Definition blank_challenge : struct_challenge :=
  {| challenge := []; passwords := 0; locked := false; entries := 0;
     pwlen := 0; challen := 0; hlen := 0; remaining := 0; uid := 0; gid := 0;
     selection := []; hash := []; flags := 0; filename := [];
     lockfilename := []; heap := Unallocated |}.

(** The file is in place, nobody holds the lock. *)
Definition demo_world : world :=
  {| pwfile := Some demo_file; pwfile_rw := true; lock := NoLock;
     dir_rw := true; now := 100000; euid := 0; egid := 0; errno := E_NONE |}.

(** Another login took the lock on the first password a minute ago. *)
Definition contended_world : world :=
  set_lock (Symlink (B "ABC") (100000 - 60)) demo_world.

(** The handle of a login that holds the lock on the first password. *)
Definition locked_handle : struct_challenge :=
  {| challenge := B "ABC"; passwords := 1; locked := true; entries := 10;
     pwlen := 8; challen := 3; hlen := 12; remaining := 10;
     uid := 1000; gid := 100; selection := [0; 0; 0];
     hash := [demo_hash "foo" "aaaaaaaa"; []; []]; flags := 0;
     filename := B "/home/u/.otpw"; lockfilename := B "/home/u/.otpw.lock";
     heap := Allocated |}.

Definition locked_world : world :=
  set_lock (Symlink (B "ABC") 100000) demo_world.

Definition demo_prepare (fuel : nat) (rbg : nat -> nat) (w : world)
  : option (struct_challenge * world) :=
  otpw_prepare (hdrs := demo_headers) default_config fuel rbg []
    blank_challenge (Some demo_user) 0 w.

Definition demo_verify (ch : struct_challenge) (response : string) (w : world)
  : option (otpw_result * struct_challenge * world) :=
  otpw_verify (hdrs := demo_headers) default_config ch (Some (B response)) w.

(** The password file cannot be written. *)
Definition readonly_world : world :=
  {| pwfile := Some demo_file; pwfile_rw := false;
     lock := Symlink (B "ABC") 100000; dir_rw := true; now := 100000;
     euid := 0; egid := 0; errno := E_NONE |}.



Definition used_line : bytes := repeat HYPHEN 15 ++ [NL].

(** Six used passwords, four unused ones. *)
Definition half_used_lines : list bytes :=
  repeat used_line 6 ++ skipn 6 demo_lines.

Definition half_used_world : world :=
  {| pwfile := Some (demo_header ++ concat half_used_lines); pwfile_rw := true;
     lock := Symlink (B "ABI") (100000 - 60); dir_rw := true; now := 100000;
     euid := 0; egid := 0; errno := E_NONE |}.


(** Ten unused passwords whose stored hashes all start with AAA. *)
Definition collision_lines : list bytes :=
  map (fun label => B label ++ B "AAAbbbbbbbbb" ++ [NL])
      ["ABC"; "ABD"; "ABE"; "ABF"; "ABG"; "ABH"; "ABI"; "ABJ"; "ABK"; "ABL"]%string.

(** That file, with a fresh lock by somebody else that points to AAA. *)
Definition collision_world : world :=
  {| pwfile := Some (demo_header ++ concat collision_lines); pwfile_rw := true;
     lock := Symlink (B "AAA") (100000 - 60); dir_rw := true; now := 100000;
     euid := 0; egid := 0; errno := E_NONE |}.

(** A handle for one password of four characters whose stored hash is
    that of a NUL followed by "bcd" and no prefix. *)
Definition short_handle {hdrs : Headers} : struct_challenge :=
  {| challenge := B "ABC"; passwords := 1; locked := false; entries := 10;
     pwlen := 4; challen := 3; hlen := 12; remaining := 10;
     uid := 1000; gid := 100; selection := [0; 0; 0];
     hash := [conv_base64 (md_digest (NUL :: B "bcd")) 12; []; []];
     flags := 0; filename := B "/home/u/.otpw";
     lockfilename := B "/home/u/.otpw.lock";
     heap := Allocated |}.

(** A handle for the password "aaaaaaaa" after the prefix "Ilo". *)
Definition confusable_prefix_handle : struct_challenge :=
  {| challenge := B "ABC"; passwords := 1; locked := false; entries := 10;
     pwlen := 8; challen := 3; hlen := 12; remaining := 10;
     uid := 1000; gid := 100; selection := [0; 0; 0];
     hash := [demo_hash "Ilo" "aaaaaaaa"; []; []];
     flags := 0; filename := B "/home/u/.otpw";
     lockfilename := B "/home/u/.otpw.lock";
     heap := Allocated |}.

(** A handle for the password "IO/test2" after the prefix "p". *)
Definition confusable_otp_handle : struct_challenge :=
  {| challenge := B "ABC"; passwords := 1; locked := false; entries := 10;
     pwlen := 8; challen := 3; hlen := 12; remaining := 10;
     uid := 1000; gid := 100; selection := [0; 0; 0];
     hash := [demo_hash "p" "IO/test2"; []; []];
     flags := 0; filename := B "/home/u/.otpw";
     lockfilename := B "/home/u/.otpw.lock";
     heap := Allocated |}.

Definition BS : ascii := "008"%char.

(** The handle and the table at the start of the multi challenge on
    the demo file. *)
Definition multi_start_handle : struct_challenge :=
  {| challenge := []; passwords := 0; locked := false; entries := 10;
     pwlen := 8; challen := 3; hlen := 12; remaining := 10;
     uid := 1000; gid := 100; selection := [0; 0; 0];
     hash := [demo_hash "foo" "aaaaaaaa"; []; []]; flags := 0;
     filename := B "/home/u/.otpw"; lockfilename := B "/home/u/.otpw.lock";
     heap := Allocated |}.

Definition demo_multi : option (struct_challenge * bytes * nat) :=
  multi_challenge (hdrs := demo_headers) default_config 3 10
    (fun k => 7 * k + 4) (B "ABC")
    multi_start_handle (table_hbuf 3 12 demo_lines) 0.

Definition demo_multi_handle : struct_challenge :=
  match demo_multi with
  | Some (ch, _, _) => ch
  | None => blank_challenge
  end.

(** ** What otpw_prepare leaves of the system and of the handle *)

(** The files, the access rights and the clock of [w'] are those of
    [w]: the two differ at most in the lock, the effective ids and
    [errno]. *)
Definition same_files (w w' : world) : Prop :=
  pwfile w' = pwfile w /\ pwfile_rw w' = pwfile_rw w
  /\ dir_rw w' = dir_rw w /\ now w' = now w.

Section PrepareVocabulary.
Context {hdrs : Headers}.
Variable cfg : config.

(** The challenge is empty and no password is asked for, or the
    passwords asked for are at most [otpw_multi] and the challenge is
    shorter than as many labels with their separators. *)
Definition challenge_shape (ch : struct_challenge) : Prop :=
  (passwords ch = 0%Z /\ challenge ch = [])
  \/ ((1 <= passwords ch <= otpw_multi cfg)%Z
      /\ challenge ch <> []
      /\ (Z.of_nat (length (challenge ch))
          < passwords ch * (challen ch + 1))%Z).

(** The header values in the handle are in the ranges otpw_prepare
    allows. *)
Definition header_fields_ok (ch : struct_challenge) : Prop :=
  (1 <= entries ch <= 9999 /\ 1 <= challen ch
   /\ (challen ch + 1) * otpw_multi cfg <= sizeof_challenge
   /\ 4 <= pwlen ch <= 999 /\ hlen ch = otpw_hlen cfg)%Z.
End PrepareVocabulary.

(** otpw_prepare has failed: the challenge is empty, no password is
    asked for, no lock is held, and the blocks of the handle are freed. *)
Definition failed_handle (ch : struct_challenge) : Prop :=
  challenge ch = [] /\ passwords ch = 0%Z /\ locked ch = false
  /\ heap ch = Freed.


Section PrepareResultVocabulary.
Context {hdrs : Headers}.
Variable cfg : config.

(** What the handle and the lock are like when otpw_prepare returns. *)
Definition prepare_result (w : world) (ch' : struct_challenge) (w' : world)
  : Prop :=
  failed_handle ch'
  \/ (challenge ch' <> []
      /\ usable cfg ch'
      /\ header_fields_ok cfg ch'
      /\ (Z.of_nat (length (challenge ch')) < sizeof_challenge)%Z
      /\ (locked ch' = true ->
          passwords ch' = 1%Z /\ lock w' = Symlink (challenge ch') (now w))).

End PrepareResultVocabulary.

(** ** The entries of the file *)

(** The label and the stored hash of a password line. *)
Definition entry_label (c : Z) (l : bytes) : bytes := firstn (Z.to_nat c) l.

Definition entry_hash (c h : Z) (l : bytes) : bytes :=
  firstn (Z.to_nat h) (skipn (Z.to_nat c) l).

(** The password lines with entry [j] overwritten by [n] hyphens. *)
Definition mark_used (n j : nat) (lines : list bytes) : list bytes :=
  firstn j lines ++ (repeat HYPHEN n ++ [NL]) :: skipn (S j) lines.

(** ** Decoding *)

(** The byte pair check behind the decoding of four characters: the
    three bytes are recovered from the four table indices. *)
Definition decodes_pair (x y : ascii) : bool :=
  let a := Z.of_N (code x) in
  let b := Z.of_N (code y) in
  match base64_indices x y with
  | [i0; i1; i2; i3] =>
      (Z.lor (Z.shiftl i0 2) (Z.shiftr i1 4) =? a)%Z
      && (Z.land i1 15 =? Z.shiftr b 4)%Z
      && (Z.shiftr i2 2 =? Z.land a 15)%Z
      && (Z.land i2 3 =? Z.shiftr b 6)%Z
      && (i3 =? Z.land b 63)%Z
      && (Z.lor (Z.shiftl (Z.shiftr b 4) 4) (Z.land b 15) =? b)%Z
      && (Z.lor (Z.shiftl (Z.shiftr b 6) 6) (Z.land b 63) =? b)%Z
      && forallb (fun i => (0 <=? i)%Z && (i <? 64)%Z) [i0; i1; i2; i3]
  | _ => false
  end.

(** ** The handle and the file *)

(** The labels of a challenge for several passwords, with the
    separator that otpw_prepare puts between them. *)
Definition joined (ls : list bytes) : bytes :=
  match ls with
  | [] => []
  | l :: ls' => l ++ concat (map (fun x => B "/" ++ x) ls')
  end.

(** The handle agrees with the password lines of the file: the
    entries selected for the passwords asked for are distinct unused
    lines; the challenge is their labels in that order, and the hashes
    in the handle are the hashes these lines store. *)
Definition handle_coherent (c h : Z) (lines : list bytes)
  (ch : struct_challenge) : Prop :=
  let sel := firstn (Z.to_nat (passwords ch)) (selection ch) in
  length sel = Z.to_nat (passwords ch)
  /\ NoDup sel
  /\ Forall (fun j => j < length lines /\ unused (nth j lines []) = true) sel
  /\ challenge ch = joined (map (fun j => entry_label c (nth j lines [])) sel)
  /\ firstn (Z.to_nat (passwords ch)) (hash ch)
     = map (fun j => entry_hash c h (nth j lines [])) sel.

Section CoherenceVocabulary.
Context {hdrs : Headers}.
Variable cfg : config.

(** What the loop of the multi challenge keeps true of the handle, with
    [hbuf0] the table as read from the file and [hbuf] the table with
    the selected entries marked: the challenge is the labels of the
    selected rows of [hbuf0], in the order of the selection, and the
    hashes are the hashes of those rows; the selected rows are distinct,
    unmarked in [hbuf0] and marked in [hbuf]; the other rows of [hbuf]
    are those of [hbuf0]. *)
Definition multi_coherent (hbuf0 : bytes) (ch : struct_challenge)
  (hbuf : bytes) : Prop :=
  let n := Z.to_nat (challen ch + hlen ch) in
  let c := Z.to_nat (challen ch) in
  let h := Z.to_nat (hlen ch) in
  let e := Z.to_nat (entries ch) in
  let p := Z.to_nat (passwords ch) in
  let sel := firstn p (selection ch) in
  (0 <= passwords ch <= otpw_multi cfg)%Z
  /\ length (selection ch) = Z.to_nat (otpw_multi cfg)
  /\ length (hash ch) = Z.to_nat (otpw_multi cfg)
  /\ length hbuf = e * n
  /\ NoDup sel
  /\ (forall j, In j sel ->
        j < e /\ nth (j * n) hbuf NUL = HYPHEN
        /\ nth (j * n) hbuf0 NUL <> HYPHEN)
  /\ (forall i, i < e -> ~ In i sel ->
        firstn n (skipn (i * n) hbuf) = firstn n (skipn (i * n) hbuf0))
  /\ challenge ch = joined (map (fun j => strncpy (skipn (j * n) hbuf0) c) sel)
  /\ firstn p (hash ch)
     = map (fun j => strncpy (skipn (j * n + c) hbuf0) h) sel.
End CoherenceVocabulary.

(** ** Data for further runs *)

(** A password file whose header asks for passwords of three
    characters. *)
Definition bad_header_world : world :=
  {| pwfile := Some (B "OTPW1" ++ [NL] ++ B "10 3 12 3" ++ [NL]
                     ++ concat demo_lines);
     pwfile_rw := true; lock := NoLock; dir_rw := true; now := 100000;
     euid := 0; egid := 0; errno := E_NONE |}.

(** The demo file with 4294967306 written for its ten entries. *)
Definition wrapped_header_world : world :=
  {| pwfile := Some (B "OTPW1" ++ [NL] ++ B "4294967306 3 12 8" ++ [NL]
                     ++ concat demo_lines);
     pwfile_rw := true; lock := NoLock; dir_rw := true; now := 100000;
     euid := 0; egid := 0; errno := E_NONE |}.

(** A password file with all its ten passwords used. *)
Definition used_up_lines : list bytes := repeat used_line 10.

Definition used_up_world : world :=
  {| pwfile := Some (demo_header ++ concat used_up_lines); pwfile_rw := true;
     lock := NoLock; dir_rw := true; now := 100000;
     euid := 0; egid := 0; errno := E_NONE |}.

(** The demo file after the login with its first password. *)
Definition after_first_use_world : world :=
  {| pwfile := Some (demo_header ++ concat (mark_used 15 0 demo_lines));
     pwfile_rw := true; lock := NoLock; dir_rw := true; now := 100060;
     euid := 0; egid := 0; errno := E_NONE |}.

(** * Properties *)

(** ** The model on small inputs *)

Example scan_response_ex1 :
  scan_response 1 4 (B "fool0X" ++ ["008"%char] ++ B "\ b") = Some (B "foo", [B "IO/b"]).
Proof. reflexivity. Qed.

Example scan_response_short : scan_response 1 4 (B "bcd") = None.
Proof. reflexivity. Qed.

Example scan_response_short_junk :
  scan_response 1 4 (B " bcd") = Some ([], [NUL :: B "bcd"]).
Proof. reflexivity. Qed.

Example sscanf_ex : sscanf_d 4 (B "10 3 12  8" ++ [NL]) = [10; 3; 12; 8]%Z.
Proof. reflexivity. Qed.

Example sscanf_stores_int :
  sscanf_d 4 (B "4294967306 -3 99999999999999999999 8" ++ [NL])
  = [10; -3; -1; 8]%Z.
Proof. vm_compute. reflexivity. Qed.

(** A header whose first number is 4294967306 is read as ten entries,
    by otpw_prepare and by the header check of otpw_verify. *)
Example prepare_reads_header_as_int :
  option_map (fun r => (challenge (fst r), entries (fst r), lock (snd r)))
    (demo_prepare 0 (fun k => k) wrapped_header_world)
  = Some (B "ABC", 10%Z, Symlink (B "ABC") 100000).
Proof. vm_compute. reflexivity. Qed.

Example verify_reads_header_as_int :
  option_map (fun r => (verdict r, remaining (handle_after r),
                        lock (world_after r)))
    (demo_verify locked_handle "fooaaaaaaaa"
       (set_lock (Symlink (B "ABC") 100000) wrapped_header_world))
  = Some (OTPW_OK, 9%Z, NoLock).
Proof. vm_compute. reflexivity. Qed.

Example prepare_takes_lock :
  otpw_prepare (hdrs := demo_headers) default_config 0 (fun k => k) []
    blank_challenge (Some demo_user) 0 demo_world
  = Some (locked_handle, locked_world).
Proof. vm_compute. reflexivity. Qed.

Example verify_basic_success :
  option_map verdict
    (otpw_verify (hdrs := demo_headers) default_config locked_handle
       (Some (B "fooaaaaaaaa")) locked_world) = Some OTPW_OK.
Proof. vm_compute. reflexivity. Qed.

Example verify_wrong_otp :
  option_map verdict
    (otpw_verify (hdrs := demo_headers) default_config locked_handle
       (Some (B "fooaaaaaaab")) locked_world) = Some OTPW_WRONG.
Proof. vm_compute. reflexivity. Qed.

(** ** Effects of the system calls *)

Lemma sys_unlink_pwfile (w : world) : pwfile (snd (sys_unlink w)) = pwfile w.
Proof. unfold sys_unlink; destruct (lock w), (dir_rw w); reflexivity. Qed.

Lemma sys_unlink_ids (w : world) :
  euid (snd (sys_unlink w)) = euid w /\ egid (snd (sys_unlink w)) = egid w.
Proof. unfold sys_unlink; destruct (lock w), (dir_rw w); split; reflexivity. Qed.

Section VerifyProperties.

Context {hdrs : Headers}.
Variable cfg : config.

(** The cleanup of otpw_verify leaves the password file as the stream
    it closes has it, or untouched when there is no stream. *)
Lemma cleanup_world_pwfile ch f old w :
  pwfile (cleanup_world ch f old w)
  = match f with Some s => Some (data s) | None => pwfile w end.
Proof.
  unfold cleanup_world.
  destruct old as [[ou og]|], (locked ch), f; simpl;
    rewrite ?sys_unlink_pwfile; reflexivity.
Qed.

(** The cleanup on a handle whose blocks are in place. *)
Lemma verify_cleanup_allocated r ch f old w :
  heap ch = Allocated ->
  verify_cleanup r ch f old w
  = Some (r, with_heap Freed (with_passwords 0 ch), cleanup_world ch f old w).
Proof.
  intros H. unfold verify_cleanup, otpw_free. simpl. rewrite H. reflexivity.
Qed.

(** The cleanup on a handle whose blocks are freed frees them again. *)
Lemma verify_cleanup_freed r ch f old w :
  heap ch = Freed -> verify_cleanup r ch f old w = None.
Proof.
  intros H. unfold verify_cleanup, otpw_free. simpl. rewrite H. reflexivity.
Qed.

(** What the cleanup returns, when it returns. *)
Lemma verify_cleanup_some r0 ch f old w r :
  verify_cleanup r0 ch f old w = Some r ->
  verdict r = r0
  /\ passwords (handle_after r) = 0%Z
  /\ remaining (handle_after r) = remaining ch
  /\ heap (handle_after r)
     = match heap ch with Unallocated => Unallocated | _ => Freed end
  /\ world_after r = cleanup_world ch f old w.
Proof.
  unfold verify_cleanup, otpw_free. simpl.
  destruct (heap ch) eqn:H; intros E; inversion E; subst; simpl;
    rewrite ?H; auto.
Qed.

Lemma overwrite_heap n : forall i ch f,
  heap (snd (fst (overwrite n i ch f))) = heap ch.
Proof.
  induction n as [|n IH]; intros i ch f; simpl; [reflexivity|].
  destruct (selected ch i).
  - rewrite IH. reflexivity.
  - destruct (fgets 81 f) as [[l f']|]; [apply IH | reflexivity].
Qed.

(** Every path of otpw_verify that returns has gone through the
    cleanup, which clears [passwords] and frees the blocks. *)
Lemma otpw_verify_clears_passwords ch pw w r :
  otpw_verify cfg ch pw w = Some r ->
  passwords (handle_after r) = 0%Z
  /\ (heap ch = Allocated -> heap (handle_after r) = Freed).
Proof.
  unfold otpw_verify, verify_writefail.
  pose proof (overwrite_heap (Z.to_nat (entries ch)) 0 ch) as O.
  repeat match goal with
         | |- context [match ?x with _ => _ end] => destruct x eqn:?
         end;
    try discriminate;
    intros E; apply verify_cleanup_some in E;
    destruct E as [_ [E1 [_ [E2 _]]]]; (split; [exact E1|]);
    intros A; rewrite E2;
    repeat match goal with
           | Q : overwrite _ _ _ ?f = _ |- _ =>
               specialize (O f); rewrite Q in O; simpl in O
           end;
    simpl;
    repeat match goal with
           | Q : heap _ = _ |- _ => rewrite Q
           end;
    reflexivity.
Qed.

(** On a handle whose blocks are in place the call returns. *)
Lemma otpw_verify_returns ch pw w :
  heap ch = Allocated -> exists r, otpw_verify cfg ch pw w = Some r.
Proof.
  intros A. unfold otpw_verify, verify_writefail.
  pose proof (overwrite_heap (Z.to_nat (entries ch)) 0 ch) as O.
  rewrite A.
  repeat match goal with
         | |- context [match ?x with _ => _ end] => destruct x eqn:?
         end;
    repeat match goal with
           | Q : overwrite _ _ _ ?f = _ |- _ =>
               specialize (O f); rewrite Q in O; simpl in O
           end;
    rewrite verify_cleanup_allocated by (simpl; congruence);
    eexists; reflexivity.
Qed.

(** On a handle whose blocks are freed no call returns: a response
    long enough is compared with the freed [hash[i]], and the cleanup
    frees the blocks once more. *)
Lemma otpw_verify_freed ch pw w :
  heap ch = Freed -> otpw_verify cfg ch pw w = None.
Proof.
  intros F. unfold otpw_verify. rewrite F.
  repeat match goal with
         | |- context [match ?x with _ => _ end] => destruct x eqn:?
         end;
    try reflexivity; apply verify_cleanup_freed; exact F.
Qed.

(** A handle without passwords is refused before anything is opened. *)
Lemma otpw_verify_spent ch pw w :
  passwords ch = 0%Z ->
  otpw_verify cfg ch pw w = verify_cleanup OTPW_ERROR ch None None w.
Proof.
  intros E; unfold otpw_verify; rewrite E; simpl.
  destruct pw; reflexivity.
Qed.

(** A handle without passwords whose blocks have not been freed is
    refused with OTPW_ERROR; the password file is left as it is. *)
Lemma verify_spent_handle_refused ch pw w :
  passwords ch = 0%Z ->
  heap ch <> Freed ->
  exists r,
    otpw_verify cfg ch pw w = Some r
    /\ verdict r = OTPW_ERROR
    /\ pwfile (world_after r) = pwfile w
    /\ passwords (handle_after r) = 0%Z.
Proof.
  intros E H. rewrite (otpw_verify_spent ch pw w E).
  unfold verify_cleanup, otpw_free.
  change (heap (with_passwords 0 ch)) with (heap ch).
  destruct (heap ch); [| |congruence];
    (eexists; split; [reflexivity|]; split; [reflexivity|];
     split; [|reflexivity];
     exact (cleanup_world_pwfile ch None None w)).
Qed.

(** C9: on a handle that otpw_prepare has filled, otpw_verify returns
    with [passwords] at 0, as the claim says, and with the blocks of
    the handle freed; every later call on the handle, which would take
    the branch that returns OTPW_ERROR, frees them a second time, so
    that what it does is undefined. *)
Theorem verify_second_call_frees_again (ch : struct_challenge)
  (pw : option bytes) (w : world) :
  heap ch = Allocated ->
  exists r,
    otpw_verify cfg ch pw w = Some r
    /\ passwords (handle_after r) = 0%Z
    /\ forall (pw2 : option bytes) (w2 : world),
         otpw_verify cfg (handle_after r) pw2 w2
         = verify_cleanup OTPW_ERROR (handle_after r) None None w2
         /\ otpw_verify cfg (handle_after r) pw2 w2 = None.
Proof.
  intros A. destruct (otpw_verify_returns ch pw w A) as [r E].
  destruct (otpw_verify_clears_passwords ch pw w r E) as [P F].
  exists r. split; [exact E|]. split; [exact P|].
  intros pw2 w2. split.
  - apply otpw_verify_spent; exact P.
  - apply otpw_verify_freed. exact (F A).
Qed.

(** C3: when otpw_verify returns OTPW_WRONG or OTPW_ERROR, the password
    file holds what it held before the call. *)
Theorem verify_failure_keeps_file (ch : struct_challenge) (pw : option bytes)
  (w : world) (r : otpw_result * struct_challenge * world) :
  otpw_verify cfg ch pw w = Some r ->
  verdict r <> OTPW_OK ->
  pwfile (world_after r) = pwfile w.
Proof.
  unfold otpw_verify, verify_writefail.
  repeat match goal with
         | |- context [match ?x with _ => _ end] => destruct x
         end;
    try discriminate;
    intros E Hv; apply verify_cleanup_some in E;
    destruct E as [E1 [_ [_ [_ E2]]]]; try congruence;
    rewrite E2, cleanup_world_pwfile; reflexivity.
Qed.

Lemma usable_tests ch :
  usable cfg ch ->
  ((passwords ch <? 1) || (otpw_multi cfg <? passwords ch))%Z = false
  /\ (pwlen ch <? 0)%Z = false.
Proof.
  intros [[H1 H2] [H3 _]]; split.
  - apply orb_false_iff; split; apply Z.ltb_ge; lia.
  - apply Z.ltb_ge; lia.
Qed.

Lemma fopen_rw_ids u g w : fopen_rw (seteuid u (setegid g w)) = fopen_rw w.
Proof. reflexivity. Qed.

(** With the passwords matching, otpw_verify is what follows the
    comparisons. *)
Lemma otpw_verify_matching ch pw w prefix otpw :
  usable cfg ch ->
  scan_response (Z.to_nat (passwords ch)) (Z.to_nat (pwlen ch)) pw
    = Some (prefix, otpw) ->
  compare_passwords ch prefix otpw = true ->
  otpw_verify cfg ch (Some pw) w =
  let old := Some (euid w, egid w) in
  let w1 := seteuid (uid ch) (setegid (gid ch) w) in
  match fopen_rw w with
  | None => verify_writefail ch None old w1
  | Some f =>
      match check_header cfg ch f with
      | None => verify_writefail ch (Some f) old w1
      | Some f1 =>
          let '(ok, ch', f2) := overwrite (Z.to_nat (entries ch)) 0 ch f1 in
          if ok then verify_cleanup OTPW_OK ch' (Some f2) old w1
          else verify_writefail ch' (Some f2) old w1
      end
  end.
Proof.
  intros U Hs Hc. destruct (usable_tests ch U) as [T1 T2].
  destruct U as [_ [_ A]].
  unfold otpw_verify. rewrite T1, T2, Hs, A, Hc, fopen_rw_ids. reflexivity.
Qed.

Lemma fopen_rw_data w f : fopen_rw w = Some f -> pwfile w = Some (data f).
Proof.
  unfold fopen_rw. destruct (pwfile w); [|discriminate].
  destruct (pwfile_rw w); [|discriminate].
  intros E; inversion E; reflexivity.
Qed.

(** What follows the label [writefail] on a handle whose blocks are in
    place: OTPW_OK is returned, with [passwords = 1] the lock is left as
    it was, and the ids are those saved. *)
Lemma verify_writefail_world ch f old0 old1 w :
  heap ch = Allocated ->
  let w1 := seteuid (uid ch) (setegid (gid ch) w) in
  exists r,
    verify_writefail ch f (Some (old0, old1)) w1 = Some r
    /\ verdict r = OTPW_OK
    /\ (passwords ch = 1%Z -> lock (world_after r) = lock w)
    /\ euid (world_after r) = old0 /\ egid (world_after r) = old1
    /\ pwfile (world_after r)
       = match f with Some s => Some (data s) | None => pwfile w end.
Proof.
  intros A. cbv zeta. unfold verify_writefail.
  rewrite verify_cleanup_allocated
    by (destruct (passwords ch =? 1)%Z; exact A).
  eexists. split; [reflexivity|]. split; [reflexivity|].
  split; [|split; [|split]];
    [|reflexivity|reflexivity|
     unfold world_after; cbn [snd]; rewrite cleanup_world_pwfile;
     destruct f; reflexivity].
  intros E; rewrite E; simpl. destruct f; reflexivity.
Qed.

(** C8: if every entered password hash-matches but the password file
    cannot be reopened read-write, or its header no longer matches the
    handle (the product in the header test not overflowing),
    otpw_verify still returns OTPW_OK; with [passwords = 1] the lock is
    left as it was; the effective uid and gid are those from before the
    call; and the file is unchanged. *)
Theorem verify_ok_when_overwrite_impossible (ch : struct_challenge)
  (pw : bytes) (w : world) :
  usable cfg ch ->
  entered_passwords_match ch pw = true ->
  (fopen_rw w = None
   \/ exists f, fopen_rw w = Some f /\ check_header cfg ch f = None
                /\ product_in_int cfg (challen ch)) ->
  exists r,
    otpw_verify cfg ch (Some pw) w = Some r
    /\ verdict r = OTPW_OK
    /\ (passwords ch = 1%Z -> lock (world_after r) = lock w)
    /\ euid (world_after r) = euid w
    /\ egid (world_after r) = egid w
    /\ pwfile (world_after r) = pwfile w.
Proof.
  intros U M F. unfold entered_passwords_match in M.
  destruct (scan_response _ _ pw) as [[prefix otpw]|] eqn:Hs; [|discriminate].
  rewrite (otpw_verify_matching ch pw w prefix otpw U Hs M). cbv zeta.
  destruct U as [_ [_ A]].
  destruct F as [F | [f [F [H _]]]]; rewrite F; [|rewrite H].
  - destruct (verify_writefail_world ch None (euid w) (egid w) w A)
      as [r [E [V [W1 [W2 [W3 W4]]]]]].
    exists r. repeat split; auto.
  - destruct (verify_writefail_world ch (Some f) (euid w) (egid w) w A)
      as [r [E [V [W1 [W2 [W3 W4]]]]]].
    exists r. repeat split; auto.
    rewrite W4. symmetry; apply fopen_rw_data; exact F.
Qed.

(** With every entered password matching, the verdict is OTPW_OK
    whatever becomes of the overwrite. *)
Lemma verify_matching_ok ch pw w :
  usable cfg ch ->
  entered_passwords_match ch pw = true ->
  exists r, otpw_verify cfg ch (Some pw) w = Some r /\ verdict r = OTPW_OK.
Proof.
  intros U M.
  destruct (otpw_verify_returns ch (Some pw) w (proj2 (proj2 U))) as [r E].
  exists r. split; [exact E|].
  unfold entered_passwords_match in M.
  destruct (scan_response _ _ pw) as [[prefix otpw]|] eqn:Hs; [|discriminate].
  rewrite (otpw_verify_matching ch pw w prefix otpw U Hs M) in E.
  cbv zeta in E. unfold verify_writefail in E.
  repeat match type of E with
         | context [match ?x with _ => _ end] => destruct x
         end;
    apply verify_cleanup_some in E; apply E.
Qed.

(** *** The overwrite of the used passwords *)

Lemma skipn_app_length {A} (a b : list A) : skipn (length a) (a ++ b) = b.
Proof. induction a; simpl; auto. Qed.

Lemma firstn_app_length {A} (a b : list A) : firstn (length a) (a ++ b) = a.
Proof. induction a; simpl; congruence. Qed.

Lemma skipn_S_app_length {A} (a : list A) x b :
  skipn (S (length a)) (a ++ x :: b) = b.
Proof. induction a; simpl; auto. Qed.

Lemma table_line_shape n l :
  table_line n l = true ->
  exists body,
    l = body ++ [NL]
    /\ forallb (fun c => negb (Ascii.eqb c NL)) body = true
    /\ length body = n
    /\ length body < 80.
Proof.
  unfold table_line. rewrite !andb_true_iff.
  intros [[[L1 L2] L3] L4].
  apply Nat.eqb_eq in L1. apply Nat.leb_le in L2. apply Ascii.eqb_eq in L3.
  assert (N : l <> []) by (intros ->; simpl in L1; lia).
  exists (removelast l).
  pose proof (app_removelast_last NUL N) as E. rewrite L3 in E.
  assert (length l = length (removelast l) + 1) as Len.
  { rewrite E at 1. rewrite length_app. reflexivity. }
  repeat split; auto; lia.
Qed.

Lemma read_line_line body n rest :
  forallb (fun c => negb (Ascii.eqb c NL)) body = true ->
  length body < n ->
  read_line n (body ++ NL :: rest) = body ++ [NL].
Proof.
  revert n; induction body as [|c body IH]; intros n F L.
  - destruct n; [simpl in L; lia|]. simpl. reflexivity.
  - destruct n; [simpl in L; lia|].
    simpl in F. apply andb_true_iff in F. destruct F as [F1 F2].
    simpl. apply negb_true_iff in F1. rewrite F1.
    rewrite IH; auto. simpl in L; lia.
Qed.

Lemma line_ok_shape ch l :
  line_ok ch l = true ->
  exists body,
    l = body ++ [NL]
    /\ forallb (fun c => negb (Ascii.eqb c NL)) body = true
    /\ length body = Z.to_nat (challen ch + hlen ch)
    /\ length body < 80.
Proof. apply table_line_shape. Qed.

Lemma fgets_line n pre l rest :
  table_line n l = true ->
  fgets 81 {| data := pre ++ l ++ rest; pos := length pre |}
  = Some (l, {| data := pre ++ l ++ rest; pos := length pre + length l |}).
Proof.
  intros LO. destruct (table_line_shape n l LO) as [body [E [F [_ L]]]].
  unfold fgets. simpl data; simpl pos. rewrite skipn_app_length.
  assert (R : read_line (81 - 1) (l ++ rest) = l).
  { subst l. rewrite <- app_assoc. simpl app.
    apply read_line_line; auto. }
  destruct (l ++ rest) eqn:EL.
  - subst l. destruct body; discriminate.
  - rewrite R. reflexivity.
Qed.

Lemma fputc_at pre x rest c :
  fputc c {| data := pre ++ x :: rest; pos := length pre |}
  = {| data := (pre ++ [c]) ++ rest; pos := length (pre ++ [c]) |}.
Proof.
  unfold fputc. simpl data; simpl pos.
  rewrite firstn_app_length, skipn_S_app_length, length_app, <- app_assoc.
  simpl. f_equal. lia.
Qed.

Lemma fputc_n_at n : forall pre X rest c,
  length X = n ->
  fputc_n n c {| data := pre ++ X ++ rest; pos := length pre |}
  = {| data := (pre ++ repeat c n) ++ rest; pos := length (pre ++ repeat c n) |}.
Proof.
  induction n as [|n IH]; intros pre X rest c L.
  - destruct X; [|discriminate]. simpl. rewrite app_nil_r. reflexivity.
  - destruct X as [|x X]; [discriminate|]. simpl in L.
    simpl fputc_n. simpl app. rewrite fputc_at.
    rewrite IH by lia. rewrite <- !app_assoc. reflexivity.
Qed.

Lemma overwrite_line ch pre l rest :
  line_ok ch l = true ->
  fputc NL (fputc_n (Z.to_nat (challen ch + hlen ch)) HYPHEN
              {| data := pre ++ l ++ rest; pos := length pre |})
  = {| data := (pre ++ hyphen_line ch) ++ rest;
       pos := length (pre ++ hyphen_line ch) |}.
Proof.
  intros LO. destruct (line_ok_shape ch l LO) as [body [E [_ [Lb _]]]].
  subst l. rewrite <- app_assoc. simpl app.
  rewrite fputc_n_at by exact Lb.
  rewrite fputc_at. unfold hyphen_line. rewrite <- !app_assoc. reflexivity.
Qed.

Lemma hyphen_line_length ch l :
  line_ok ch l = true -> length (hyphen_line ch) = length l.
Proof.
  intros LO. destruct (line_ok_shape ch l LO) as [body [E [_ [Lb _]]]].
  subst l. unfold hyphen_line. rewrite !length_app, repeat_length. simpl. lia.
Qed.

Lemma hits_with_remaining m ch n : forall i,
  hits (with_remaining m ch) i n = hits ch i n.
Proof. induction n; intros i; simpl; [reflexivity | rewrite IHn; reflexivity]. Qed.

Lemma consumed_with_remaining m ch lines : forall i,
  consumed (with_remaining m ch) i lines = consumed ch i lines.
Proof.
  induction lines; intros i; simpl; [reflexivity | rewrite IHlines; reflexivity].
Qed.

(** The loop over a table of well-formed lines: it reaches the end,
    replaces the selected lines, leaves the others and what surrounds
    the table, and counts [remaining] down once per selected entry. *)
Lemma overwrite_table lines : forall i ch pre post,
  forallb (line_ok ch) lines = true ->
  overwrite (length lines) i ch
    {| data := pre ++ concat lines ++ post; pos := length pre |}
  = (true,
     with_remaining (remaining ch - Z.of_nat (hits ch i (length lines))) ch,
     {| data := pre ++ concat (consumed ch i lines) ++ post;
        pos := length pre + length (concat lines) |}).
Proof.
  induction lines as [|l ls IH]; intros i ch pre post F.
  - simpl. rewrite Z.sub_0_r, Nat.add_0_r. destruct ch; reflexivity.
  - simpl in F. apply andb_true_iff in F. destruct F as [Fl Fls].
    simpl length. simpl overwrite. simpl concat. rewrite <- !app_assoc.
    destruct (selected ch i) eqn:Sel.
    + rewrite (overwrite_line ch pre l (concat ls ++ post) Fl).
      rewrite (IH (S i) (with_remaining (remaining ch - 1) ch)
                  (pre ++ hyphen_line ch) post Fls).
      simpl hits. change (selected (with_remaining (remaining ch - 1) ch))
        with (selected ch). rewrite Sel.
      rewrite hits_with_remaining, consumed_with_remaining.
      f_equal; [f_equal|].
      * unfold with_remaining; simpl. f_equal. lia.
      * f_equal.
        -- rewrite <- !app_assoc. reflexivity.
        -- rewrite !length_app, (hyphen_line_length ch l Fl). lia.
    + rewrite (fgets_line _ pre l (concat ls ++ post) Fl).
      replace (length pre + length l) with (length (pre ++ l))
        by (rewrite length_app; reflexivity).
      replace (pre ++ l ++ concat ls ++ post)
        with ((pre ++ l) ++ concat ls ++ post)
        by (rewrite <- app_assoc; reflexivity).
      rewrite (IH (S i) ch (pre ++ l) post Fls).
      simpl hits. rewrite Sel. simpl.
      f_equal. f_equal.
      * rewrite <- !app_assoc. reflexivity.
      * rewrite !length_app. lia.
Qed.

Lemma read_line_length n : forall s, length (read_line n s) <= length s.
Proof.
  induction n as [|n IH]; intros [|c s]; simpl; try lia.
  destruct (Ascii.eqb c NL); simpl; [lia|]. specialize (IH s). lia.
Qed.

(** Reading moves the position within the data and changes nothing. *)
Lemma fgets_stream n f l f' :
  fgets n f = Some (l, f') ->
  data f' = data f /\ pos f' <= length (data f).
Proof.
  unfold fgets. destruct (skipn (pos f) (data f)) as [|c rest] eqn:E;
    [discriminate|].
  intros H; inversion H; subst; clear H. simpl. split; [reflexivity|].
  pose proof (read_line_length (n - 1) (c :: rest)) as L.
  rewrite <- E in L. rewrite length_skipn in L.
  assert (pos f < length (data f)).
  { destruct (Nat.lt_ge_cases (pos f) (length (data f))); auto.
    rewrite skipn_all2 in E by lia. discriminate. }
  rewrite E in *. lia.
Qed.

Lemma header_line_stream f l f' :
  header_line cfg f = Some (l, f') ->
  data f' = data f /\ pos f' <= length (data f).
Proof.
  unfold header_line.
  destruct (fgets 81 f) as [[l1 f1]|] eqn:E1; [|discriminate].
  destruct (negb (strcmp0 l1 (otpw_magic cfg))); [discriminate|].
  destruct (fgets 81 f1) as [[l2 f2]|] eqn:E2; [|discriminate].
  apply fgets_stream in E1. apply fgets_stream in E2.
  destruct E1 as [D1 P1], E2 as [D2 P2].
  destruct (Ascii.eqb (hd NUL l2) "#").
  - intros E3. apply fgets_stream in E3. destruct E3 as [D3 P3].
    split; congruence.
  - intros H; inversion H; subst. split; congruence.
Qed.

Lemma check_header_stream ch f f' :
  check_header cfg ch f = Some f' ->
  data f' = data f /\ pos f' <= length (data f).
Proof.
  unfold check_header.
  destruct (header_line cfg f) as [[l f1]|] eqn:E; [|discriminate].
  apply header_line_stream in E.
  destruct (sscanf_d 4 (cstr l)) as [|e [|c [|h [|p [|? ?]]]]]; try discriminate.
  destruct (_ && _)%bool; [|discriminate].
  intros H; inversion H; subst. exact E.
Qed.

(** What a verdict of OTPW_OK says about the call. *)
Lemma verify_ok_inv ch pw w r :
  otpw_verify cfg ch pw w = Some r ->
  verdict r = OTPW_OK ->
  exists p, pw = Some p /\ usable cfg ch /\ entered_passwords_match ch p = true.
Proof.
  assert (X : forall r0 f old w',
             r0 <> OTPW_OK ->
             verify_cleanup r0 ch f old w' = Some r -> verdict r <> OTPW_OK).
  { intros r0 f old w' N E. apply verify_cleanup_some in E.
    destruct E as [E _]. congruence. }
  unfold otpw_verify, entered_passwords_match, usable.
  destruct pw as [p|];
    [|intros E V; exfalso; revert V; eapply X; [|exact E]; discriminate].
  destruct ((passwords ch <? 1) || (otpw_multi cfg <? passwords ch))%Z eqn:T1;
    [intros E V; exfalso; revert V; eapply X; [|exact E]; discriminate|].
  destruct (pwlen ch <? 0)%Z eqn:T2;
    [intros E V; exfalso; revert V; eapply X; [|exact E]; discriminate|].
  apply orb_false_iff in T1. destruct T1 as [T1a T1b].
  apply Z.ltb_ge in T1a, T1b, T2.
  destruct (scan_response (Z.to_nat (passwords ch)) (Z.to_nat (pwlen ch)) p)
    as [[prefix otpw]|] eqn:Hs;
    [|intros E V; exfalso; revert V; eapply X; [|exact E]; discriminate].
  destruct (heap ch) eqn:A; try discriminate.
  destruct (compare_passwords ch prefix otpw) eqn:Hc;
    [|intros E V; exfalso; revert V; eapply X; [|exact E]; discriminate].
  intros _ _. exists p. repeat split; auto. rewrite Hs. exact Hc.
Qed.

Lemma selected_In ch i :
  selected ch i = true
  <-> In i (firstn (Z.to_nat (passwords ch)) (selection ch)).
Proof.
  unfold selected. rewrite existsb_exists. split.
  - intros [x [I E]]. apply Nat.eqb_eq in E. subst. exact I.
  - intros I. exists i. split; [exact I | apply Nat.eqb_refl].
Qed.

Lemma hits_filter ch n : forall i,
  hits ch i n = length (filter (selected ch) (seq i n)).
Proof.
  induction n as [|n IH]; intros i; simpl; [reflexivity|].
  rewrite IH. destruct (selected ch i); reflexivity.
Qed.

(** Distinct selections within the table are counted once each. *)
Lemma hits_selection ch n :
  let sel := firstn (Z.to_nat (passwords ch)) (selection ch) in
  NoDup sel -> Forall (fun i => i < n) sel ->
  hits ch 0 n = length sel.
Proof.
  cbv zeta. intros ND B. rewrite hits_filter. apply Nat.le_antisymm.
  - apply NoDup_incl_length.
    + apply NoDup_filter, seq_NoDup.
    + intros x I. apply filter_In in I. apply selected_In. tauto.
  - apply NoDup_incl_length; [exact ND|].
    intros x I. apply filter_In. split.
    + apply in_seq. rewrite Forall_forall in B. specialize (B x I). lia.
    + apply selected_In. exact I.
Qed.

Lemma nth_consumed ch lines : forall k i,
  nth i (consumed ch k lines) [] =
  if selected ch (k + i)
  then (if i <? length lines then hyphen_line ch else [])
  else nth i lines [].
Proof.
  induction lines as [|l ls IH]; intros k i.
  - simpl. destruct i; destruct (selected ch _); reflexivity.
  - destruct i as [|i].
    + simpl. rewrite Nat.add_0_r. destruct (selected ch k); reflexivity.
    + simpl consumed. simpl nth. rewrite IH.
      replace (S k + i) with (k + S i) by lia. reflexivity.
Qed.

Lemma consumed_length ch lines : forall k,
  length (consumed ch k lines) = length lines.
Proof. induction lines; intros k; simpl; auto. Qed.

(** C2, as amended: when otpw_verify returns OTPW_OK and the password
    file could be reopened, its header still matches the handle and the
    table that follows consists of [entries] well-formed lines, then
    afterwards every selected entry is the line of [challen + hlen]
    hyphens and a newline, every other line and everything around the
    table is unchanged, and [remaining] is lower by [passwords]; the
    selections of the handle being distinct entries of the table. *)
Theorem verify_ok_consumes_selection (ch : struct_challenge)
  (pw : option bytes) (w : world) (f f1 : stream) (lines : list bytes)
  (post : bytes) (r : otpw_result * struct_challenge * world) :
  otpw_verify cfg ch pw w = Some r ->
  verdict r = OTPW_OK ->
  fopen_rw w = Some f ->
  check_header cfg ch f = Some f1 ->
  skipn (pos f1) (data f) = concat lines ++ post ->
  length lines = Z.to_nat (entries ch) ->
  forallb (line_ok ch) lines = true ->
  let sel := firstn (Z.to_nat (passwords ch)) (selection ch) in
  length sel = Z.to_nat (passwords ch) ->
  NoDup sel ->
  Forall (fun i => i < length lines) sel ->
  let lines' := consumed ch 0 lines in
  pwfile (world_after r)
    = Some (firstn (pos f1) (data f) ++ concat lines' ++ post)
  /\ length lines' = length lines
  /\ (forall i, In i sel -> nth i lines' [] = hyphen_line ch)
  /\ (forall i, ~ In i sel -> nth i lines' [] = nth i lines [])
  /\ remaining (handle_after r) = (remaining ch - passwords ch)%Z.
Proof.
  intros Er V Fo Hd Sk Len LO sel Ls ND Bd lines'.
  destruct (verify_ok_inv ch pw w r Er V) as [p [-> [U M]]].
  unfold entered_passwords_match in M.
  destruct (scan_response _ _ p) as [[prefix otpw]|] eqn:Hs; [|discriminate].
  destruct (check_header_stream ch f f1 Hd) as [D P].
  set (pre := firstn (pos f1) (data f)).
  assert (Lp : length pre = pos f1) by (apply firstn_length_le; exact P).
  assert (Ef : f1 = {| data := pre ++ concat lines ++ post; pos := length pre |}).
  { destruct f1 as [d1 p1]. simpl in *. subst d1. rewrite Lp. f_equal.
    rewrite <- Sk. unfold pre. symmetry. apply firstn_skipn. }
  assert (R : verify_cleanup OTPW_OK
                (with_remaining
                   (remaining ch - Z.of_nat (hits ch 0 (length lines))) ch)
                (Some {| data := pre ++ concat lines' ++ post;
                         pos := length pre + length (concat lines) |})
                (Some (euid w, egid w))
                (seteuid (uid ch) (setegid (gid ch) w)) = Some r).
  { rewrite <- Er. rewrite (otpw_verify_matching ch p w prefix otpw U Hs M).
    cbv zeta. rewrite Fo, Hd, <- Len, Ef.
    rewrite (overwrite_table lines 0 ch pre post LO). reflexivity. }
  apply verify_cleanup_some in R. destruct R as [_ [_ [Rr [_ Rw]]]].
  rewrite Rw, Rr. rewrite cleanup_world_pwfile. simpl data.
  split; [reflexivity|].
  split; [apply consumed_length|].
  split; [|split].
  - intros i I. unfold lines'. rewrite nth_consumed. simpl.
    rewrite (proj2 (selected_In ch i) I).
    rewrite Forall_forall in Bd. specialize (Bd i I).
    apply Nat.ltb_lt in Bd. rewrite Bd. reflexivity.
  - intros i NI. unfold lines'. rewrite nth_consumed. simpl.
    destruct (selected ch i) eqn:S; [|reflexivity].
    apply selected_In in S. contradiction.
  - simpl. rewrite (hits_selection ch (length lines) ND Bd).
    fold sel. rewrite Ls. destruct U as [[U1 _] _]. rewrite Z2Nat.id by lia.
    reflexivity.
Qed.

End VerifyProperties.

(** ** The scan of the response *)

Lemma fill_slot_step rs :
  fill_slot rs =
  match skip_deleted 0 rs with
  | [] => (None, [])
  | c :: rs' =>
      match canon c with
      | Some x => (Some x, rs')
      | None => fill_slot rs'
      end
  end.
Proof. funelim (fill_slot rs); rewrite e; try rewrite Heq; reflexivity. Qed.

(** otpw_verify looks at [password] through the scan only. *)
Lemma otpw_verify_scan_ext {hdrs : Headers} cfg ch R R' w :
  scan_response (Z.to_nat (passwords ch)) (Z.to_nat (pwlen ch)) R'
  = scan_response (Z.to_nat (passwords ch)) (Z.to_nat (pwlen ch)) R ->
  otpw_verify cfg ch (Some R') w = otpw_verify cfg ch (Some R) w.
Proof. intros E. unfold otpw_verify. rewrite E. reflexivity. Qed.

Lemma cstr_nonnul s : forallb nonnul s = true -> cstr s = s.
Proof.
  induction s as [|c s IH]; simpl; [reflexivity|].
  unfold nonnul at 1. intros H. apply andb_true_iff in H. destruct H as [H1 H2].
  apply negb_true_iff in H1. rewrite H1, IH; auto.
Qed.

Lemma cstr_app p s :
  cstr (p ++ s) = if forallb nonnul p then p ++ cstr s else cstr p.
Proof.
  induction p as [|c p IH]; simpl; [reflexivity|].
  unfold nonnul at 1. destruct (Ascii.eqb c NUL); simpl; [reflexivity|].
  rewrite IH. destruct (forallb nonnul p); reflexivity.
Qed.

(** *** Backspaces, typos and ignored characters *)

Lemma canon_not_bs_del c : canon c <> None -> is_bs_del c = false.
Proof.
  destruct c as [[] [] [] [] [] [] [] []]; vm_compute; congruence.
Qed.

Lemma canon_nonnul c : canon c <> None -> nonnul c = true.
Proof.
  destruct c as [[] [] [] [] [] [] [] []]; vm_compute; congruence.
Qed.

Lemma bs_del_nonnul c : is_bs_del c = true -> nonnul c = true.
Proof.
  destruct c as [[] [] [] [] [] [] [] []]; vm_compute; congruence.
Qed.

Lemma typo_nonnul t : typo t -> forallb nonnul t = true.
Proof.
  induction 1 as [|c d t1 t2 Hc _ Hd _ IH1 _ IH2]; simpl; [reflexivity|].
  rewrite Hc, forallb_app, IH1. simpl. rewrite (bs_del_nonnul d Hd), IH2.
  reflexivity.
Qed.

Lemma noise_nonnul n : noise n -> forallb nonnul n = true.
Proof.
  induction 1 as [|t n Ht _ IH|c n Hc _ _ _ IH]; simpl.
  - reflexivity.
  - rewrite forallb_app, (typo_nonnul t Ht), IH. reflexivity.
  - rewrite Hc, IH. reflexivity.
Qed.

Lemma typed_with_noise_nonnul b b' :
  typed_with_noise b b' -> forallb nonnul b = true /\ forallb nonnul b' = true.
Proof.
  induction 1 as [|c n b b' Hc Hn _ [IH1 IH2]]; simpl; [auto|].
  rewrite (canon_nonnul c Hc), IH1, forallb_app, (noise_nonnul n Hn), IH2. auto.
Qed.

(** The loop over DEL/BS characters steps over a typo whatever the
    count it is entered with. *)
Lemma skip_deleted_typo t :
  typo t -> forall d rest, skip_deleted d (rev t ++ rest) = skip_deleted d rest.
Proof.
  induction 1 as [|c d0 t1 t2 _ Hc Hd _ IH1 _ IH2]; intros d rest.
  - reflexivity.
  - simpl rev. rewrite rev_app_distr. simpl rev. rewrite <- !app_assoc.
    rewrite IH2. simpl app. simpl skip_deleted. rewrite Hd.
    rewrite IH1. simpl. rewrite Hc. reflexivity.
Qed.

(** Filling a slot steps over noise. *)
Lemma fill_slot_noise n :
  noise n -> forall rest, fill_slot (rev n ++ rest) = fill_slot rest.
Proof.
  induction 1 as [|t n Ht _ IH|c n _ Hd Hc _ IH]; intros rest.
  - reflexivity.
  - rewrite rev_app_distr, <- app_assoc, IH.
    rewrite (fill_slot_step (rev t ++ rest)), (fill_slot_step rest).
    rewrite (skip_deleted_typo t Ht). reflexivity.
  - simpl rev. rewrite <- app_assoc, IH. simpl app.
    rewrite (fill_slot_step (c :: rest)). simpl. rewrite Hd, Hc. reflexivity.
Qed.

Lemma typed_with_noise_noisy b b' :
  typed_with_noise b b' ->
  forall k rs rs', noisy k rs rs' ->
  noisy (length b + k) (rev b ++ rs) (rev b' ++ rs').
Proof.
  induction 1 as [|c n b b' Hc Hn _ IH]; intros k rs rs' N.
  - exact N.
  - simpl rev. rewrite rev_app_distr, <- !app_assoc. simpl app.
    replace (length (c :: b) + k) with (length b + S k) by (simpl; lia).
    apply IH. constructor; assumption.
Qed.

Lemma fill_slot_noisy k rs rs' :
  noisy (S k) rs rs' ->
  exists x r r',
    fill_slot rs = (Some x, r) /\ fill_slot rs' = (Some x, r') /\ noisy k r r'.
Proof.
  inversion 1 as [|k0 c n r r' Hc Hn N]; subst.
  pose proof (canon_not_bs_del c Hc) as Hd.
  destruct (canon c) as [x|] eqn:E; [|congruence].
  exists x, r, r'. repeat split; auto.
  - rewrite fill_slot_step. simpl. rewrite Hd, E. reflexivity.
  - rewrite (fill_slot_noise n Hn). rewrite fill_slot_step. simpl.
    rewrite Hd, E. reflexivity.
Qed.

Lemma noisy_nonempty k rs rs' :
  noisy (S k) rs rs' -> rs <> [] /\ rs' <> [].
Proof.
  inversion 1; subst. split; [discriminate|].
  intros E. symmetry in E. exact (app_cons_not_nil _ _ _ E).
Qed.

Lemma scan_row_S n rs acc :
  rs <> [] ->
  scan_row (S n) rs acc =
  let (o, rs') := fill_slot rs in scan_row n rs' (slot o :: acc).
Proof. destruct rs; [congruence | reflexivity]. Qed.

Lemma scan_passwords_S pwlen m j1 rs rows :
  rs <> [] ->
  scan_passwords pwlen (S m) j1 rs rows =
  let '(n, rs', acc) := scan_row pwlen rs [] in
  scan_passwords pwlen m n rs' ((repeat NUL n ++ acc) :: rows).
Proof. destruct rs; [congruence | reflexivity]. Qed.

Lemma noisy_0 rs rs' : noisy 0 rs rs' -> rs = rs'.
Proof. inversion 1; reflexivity. Qed.

(** One password is scanned alike in the clean and the noisy response. *)
Lemma scan_row_noisy n : forall k rs rs' acc,
  noisy k rs rs' ->
  exists n1 r r' acc1,
    scan_row n rs acc = (n1, r, acc1)
    /\ scan_row n rs' acc = (n1, r', acc1)
    /\ noisy (k - n) r r'.
Proof.
  induction n as [|n IH]; intros k rs rs' acc N.
  - exists 0, rs, rs', acc. rewrite Nat.sub_0_r.
    repeat split; auto; destruct rs; destruct rs'; reflexivity.
  - destruct k as [|k].
    + apply noisy_0 in N. subst rs'.
      destruct (scan_row (S n) rs acc) as [[n1 r] acc1].
      exists n1, r, r, acc1. repeat split; auto. constructor.
    + destruct (noisy_nonempty k rs rs' N) as [E1 E2].
      destruct (fill_slot_noisy k rs rs' N) as [x [r [r' [F1 [F2 N']]]]].
      rewrite (scan_row_S n rs acc E1), (scan_row_S n rs' acc E2), F1, F2.
      destruct (IH k r r' (slot (Some x) :: acc) N')
        as [n1 [q [q' [acc1 [S1 [S2 N'']]]]]].
      exists n1, q, q', acc1. repeat split; auto.
Qed.

(** All passwords are scanned alike; once the stored characters of the
    noisy part are used up, the two cursors are the same. *)
Lemma scan_passwords_noisy pwlen m : forall k j1 rs rs' rows,
  noisy k rs rs' ->
  exists m1 j1' r r' rows1,
    scan_passwords pwlen m j1 rs rows = (m1, j1', r, rows1)
    /\ scan_passwords pwlen m j1 rs' rows = (m1, j1', r', rows1)
    /\ noisy (k - m * pwlen) r r'.
Proof.
  induction m as [|m IH]; intros k j1 rs rs' rows N.
  - exists 0, j1, rs, rs', rows. simpl. rewrite Nat.sub_0_r.
    repeat split; auto; destruct rs; destruct rs'; reflexivity.
  - destruct k as [|k].
    + apply noisy_0 in N. subst rs'.
      destruct (scan_passwords pwlen (S m) j1 rs rows) as [[[m1 j1'] r] rows1].
      exists m1, j1', r, r, rows1. repeat split; auto. constructor.
    + destruct (noisy_nonempty k rs rs' N) as [E1 E2].
      rewrite (scan_passwords_S pwlen m j1 rs rows E1),
              (scan_passwords_S pwlen m j1 rs' rows E2).
      destruct (scan_row_noisy pwlen (S k) rs rs' [] N)
        as [n1 [q [q' [acc1 [S1 [S2 N']]]]]].
      rewrite S1, S2.
      destruct (IH (S k - pwlen) n1 q q' ((repeat NUL n1 ++ acc1) :: rows) N')
        as [m1 [j1' [r [r' [rows1 [P1 [P2 N'']]]]]]].
      exists m1, j1', r, r', rows1. repeat split; auto.
      change (S m * pwlen) with (pwlen + m * pwlen).
      rewrite Nat.sub_add_distr. exact N''.
Qed.

(** *** Confusable characters *)

Lemma confusable_alike c c' :
  confusable c c' = true -> alike c c' /\ nonnul c = nonnul c'.
Proof.
  unfold confusable, in_class. simpl existsb.
  rewrite !orb_true_iff, !andb_true_iff, !orb_true_iff, !Ascii.eqb_eq.
  unfold alike.
  intuition (subst; try discriminate; vm_compute; auto).
Qed.

Lemma skip_deleted_alike rs rs' :
  Forall2 alike rs rs' ->
  forall d, exists a,
    skip_deleted d rs = skipn a rs /\ skip_deleted d rs' = skipn a rs'.
Proof.
  induction 1 as [|c c' rs rs' [_ Hd] _ IH]; intros d.
  - exists 0. split; reflexivity.
  - simpl skip_deleted. rewrite <- Hd. destruct (is_bs_del c).
    + destruct (IH (S d)) as [a [E1 E2]]. exists (S a). simpl. auto.
    + destruct d as [|d].
      * exists 0. split; reflexivity.
      * destruct (IH d) as [a [E1 E2]]. exists (S a). simpl. auto.
Qed.

Lemma Forall2_skipn {A B} (R : A -> B -> Prop) a : forall l l',
  Forall2 R l l' -> Forall2 R (skipn a l) (skipn a l').
Proof.
  induction a as [|a IH]; intros l l' H; [exact H|].
  destruct H; simpl; [constructor | apply IH; assumption].
Qed.

Lemma Forall2_rev {A B} (R : A -> B -> Prop) l l' :
  Forall2 R l l' -> Forall2 R (rev l) (rev l').
Proof.
  induction 1; simpl; [constructor|].
  apply Forall2_app; [assumption | constructor; [assumption | constructor]].
Qed.

Lemma skipn_cons_S {A} a : forall (l : list A) c r,
  skipn a l = c :: r -> skipn (S a) l = r.
Proof.
  induction a as [|a IH]; intros l c r E.
  - simpl in E. subst l. reflexivity.
  - destruct l as [|x l]; [discriminate|]. simpl in E. simpl. apply (IH l c r E).
Qed.

Lemma fill_slot_alike n : forall rs rs',
  length rs <= n -> Forall2 alike rs rs' ->
  exists o a, fill_slot rs = (o, skipn a rs) /\ fill_slot rs' = (o, skipn a rs').
Proof.
  induction n as [|n IH]; intros rs rs' L F.
  - destruct F; [|simpl in L; lia].
    exists None, 0. rewrite fill_slot_step. simpl. auto.
  - destruct (skip_deleted_alike rs rs' F 0) as [a [E1 E2]].
    pose proof (Forall2_skipn alike a rs rs' F) as Fa.
    rewrite (fill_slot_step rs), (fill_slot_step rs'), E1, E2.
    destruct (skipn a rs) as [|c r] eqn:S1;
      destruct (skipn a rs') as [|c' r'] eqn:S2;
      inversion Fa as [|? ? ? ? [Hc _] Fr]; subst.
    + exists None, a. rewrite S1, S2. auto.
    + rewrite <- Hc. destruct (canon c) as [x|].
      * exists (Some x), (S a).
        rewrite (skipn_cons_S a rs c r S1), (skipn_cons_S a rs' c' r' S2). auto.
      * assert (Lr : length r <= n).
        { pose proof (length_skipn a rs) as K. rewrite S1 in K. simpl in K. lia. }
        destruct (IH r r' Lr Fr) as [o [b [F1 F2]]].
        exists o, (b + S a).
        rewrite <- !skipn_skipn.
        rewrite (skipn_cons_S a rs c r S1), (skipn_cons_S a rs' c' r' S2). auto.
Qed.

Lemma scan_row_alike n : forall rs rs' acc,
  Forall2 alike rs rs' ->
  exists n1 a acc1,
    scan_row n rs acc = (n1, skipn a rs, acc1)
    /\ scan_row n rs' acc = (n1, skipn a rs', acc1).
Proof.
  induction n as [|n IH]; intros rs rs' acc F.
  - exists 0, 0, acc. split; [destruct rs | destruct rs']; reflexivity.
  - destruct F as [|c c' rs rs' Hc F].
    + exists (S n), 0, acc. split; reflexivity.
    + assert (F' : Forall2 alike (c :: rs) (c' :: rs')) by (constructor; auto).
      destruct (fill_slot_alike (length (c :: rs)) _ _ (le_n _) F')
        as [o [a [F1 F2]]].
      rewrite !scan_row_S by discriminate. rewrite F1, F2.
      destruct (IH _ _ (slot o :: acc) (Forall2_skipn alike a _ _ F'))
        as [n1 [b [acc1 [S1 S2]]]].
      exists n1, (b + a), acc1. rewrite <- !skipn_skipn. auto.
Qed.

Lemma scan_passwords_alike pwlen m : forall j1 rs rs' rows,
  Forall2 alike rs rs' ->
  exists m1 j1' a rows1,
    scan_passwords pwlen m j1 rs rows = (m1, j1', skipn a rs, rows1)
    /\ scan_passwords pwlen m j1 rs' rows = (m1, j1', skipn a rs', rows1).
Proof.
  induction m as [|m IH]; intros j1 rs rs' rows F.
  - exists 0, j1, 0, rows. split; [destruct rs | destruct rs']; reflexivity.
  - destruct F as [|c c' rs rs' Hc F].
    + exists (S m), j1, 0, rows. split; reflexivity.
    + assert (F' : Forall2 alike (c :: rs) (c' :: rs')) by (constructor; auto).
      rewrite !scan_passwords_S by discriminate.
      destruct (scan_row_alike pwlen _ _ [] F') as [n1 [a [acc1 [S1 S2]]]].
      rewrite S1, S2.
      destruct (IH n1 _ _ ((repeat NUL n1 ++ acc1) :: rows)
                   (Forall2_skipn alike a _ _ F'))
        as [m1 [j1' [b [rows1 [P1 P2]]]]].
      exists m1, j1', (b + a), rows1. rewrite <- !skipn_skipn. auto.
Qed.

Lemma cstr_is_nonnul s : forallb nonnul (cstr s) = true.
Proof.
  induction s as [|c s IH]; simpl; [reflexivity|].
  destruct (Ascii.eqb c NUL) eqn:E; simpl; [reflexivity|].
  unfold nonnul at 1. rewrite E, IH. reflexivity.
Qed.

Lemma forallb_firstn {A} (f : A -> bool) k : forall l,
  forallb f l = true -> forallb f (firstn k l) = true.
Proof.
  induction k as [|k IH]; intros [|x l] H; simpl; auto.
  simpl in H. apply andb_true_iff in H. destruct H as [H1 H2].
  rewrite H1, IH; auto.
Qed.

Lemma cstr_confusable r r' :
  Forall2 (fun c c' => confusable c c' = true) r r' ->
  Forall2 alike (cstr r) (cstr r').
Proof.
  induction 1 as [|c c' r r' Hc _ IH]; simpl; [constructor|].
  destruct (confusable_alike c c' Hc) as [Ha Hn]. unfold nonnul in Hn.
  destruct (Ascii.eqb c NUL), (Ascii.eqb c' NUL); try discriminate;
    constructor; assumption.
Qed.

(** A string that starts with the NUL-free [q] still does as a C string. *)
Lemma firstn_cstr q r :
  forallb nonnul q = true -> firstn (length q) r = q ->
  firstn (length q) (cstr r) = q.
Proof.
  intros N E. rewrite <- (firstn_skipn (length q) r), E, cstr_app, N.
  apply firstn_app_length.
Qed.

Section NormalisationProperties.

Context {hdrs : Headers}.
Variable cfg : config.

(** The scan does not tell the noisy response from the clean one. *)
Lemma scan_response_noise passwords pwlen p b b' :
  typed_with_noise b b' ->
  length b <= passwords * pwlen ->
  scan_response passwords pwlen (p ++ b') = scan_response passwords pwlen (p ++ b).
Proof.
  intros T L. destruct (typed_with_noise_nonnul b b' T) as [Nb Nb'].
  unfold scan_response. rewrite !cstr_app.
  destruct (forallb nonnul p); [|reflexivity].
  rewrite (cstr_nonnul b Nb), (cstr_nonnul b' Nb'), !rev_app_distr.
  pose proof (typed_with_noise_noisy b b' T 0 (rev p) (rev p)
                (noisy_shared (rev p))) as N.
  rewrite Nat.add_0_r in N.
  destruct (scan_passwords_noisy pwlen passwords (length b) 1
              (rev b ++ rev p) (rev b' ++ rev p) [] N)
    as [m1 [j1' [r [r' [rows1 [P1 [P2 N']]]]]]].
  replace (length b - passwords * pwlen) with 0 in N' by lia.
  apply noisy_0 in N'. subst r'. rewrite P1, P2. reflexivity.
Qed.

(** C4, as amended: for every handle and every response made of a
    prefix followed by at most [passwords * pwlen] characters of the
    password alphabet (confusable ones included), inserting after any of
    these characters typos cancelled by BS or DEL, or characters the
    scan ignores, changes nothing in what otpw_verify returns and does.
    (What is typed before the first of these characters belongs to the
    prefix password and is hashed as typed.) *)
Theorem verify_ignores_noise_in_passwords (ch : struct_challenge)
  (p b b' : bytes) (w : world) :
  typed_with_noise b b' ->
  length b <= Z.to_nat (passwords ch) * Z.to_nat (pwlen ch) ->
  otpw_verify cfg ch (Some (p ++ b')) w = otpw_verify cfg ch (Some (p ++ b)) w.
Proof.
  intros T L. apply otpw_verify_scan_ext. apply scan_response_noise; assumption.
Qed.

Lemma scan_response_confusable passwords pwlen r r' :
  Forall2 (fun c c' => confusable c c' = true) r r' ->
  (forall prefix otps,
     scan_response passwords pwlen r = Some (prefix, otps) ->
     firstn (length prefix) r' = prefix) ->
  scan_response passwords pwlen r' = scan_response passwords pwlen r.
Proof.
  intros F Hp.
  pose proof (cstr_confusable r r' F) as Fc.
  pose proof (Forall2_length Fc) as Len.
  pose proof (Forall2_rev alike _ _ Fc) as Fr.
  destruct (scan_passwords_alike pwlen passwords 1 _ _ [] Fr)
    as [m1 [j1' [a [rows1 [P1 P2]]]]].
  unfold scan_response in *. rewrite P1, P2 in *.
  destruct ((0 <? m1) || (0 <? j1')); [reflexivity|].
  specialize (Hp _ _ eq_refl).
  rewrite !skipn_rev, !rev_involutive in *. rewrite <- Len.
  set (k := length (cstr r) - a) in *.
  assert (Lk : length (firstn k (cstr r)) = k).
  { apply firstn_length_le. unfold k. lia. }
  rewrite Lk in Hp.
  assert (N : forallb nonnul (firstn k (cstr r)) = true)
    by (apply forallb_firstn, cstr_is_nonnul).
  pose proof (firstn_cstr (firstn k (cstr r)) r' N) as Q.
  rewrite Lk in Q. rewrite (Q Hp). reflexivity.
Qed.

(** C5, as amended: replacing characters of a response by confusable
    ones -- l, 1, | and I for each other, 0 and O, \ and / -- anywhere
    after the prefix password changes nothing in what otpw_verify
    returns and does; in particular a response that is verified
    OTPW_OK still is.  (The prefix password itself is hashed as typed.) *)
Theorem verify_confusable_after_prefix (ch : struct_challenge)
  (r r' : bytes) (w : world) :
  Forall2 (fun c c' => confusable c c' = true) r r' ->
  firstn (length (prefix_password ch r)) r' = prefix_password ch r ->
  otpw_verify cfg ch (Some r') w = otpw_verify cfg ch (Some r) w.
Proof.
  intros F P. apply otpw_verify_scan_ext. apply scan_response_confusable; auto.
  intros prefix otps E. unfold prefix_password in P. rewrite E in P. exact P.
Qed.

End NormalisationProperties.

(** ** Reading the table in otpw_prepare *)

Lemma entry_line_length n l : entry_line n l = true -> length l = n + 1.
Proof.
  unfold entry_line, table_line. rewrite !andb_true_iff.
  intros [[[[L _] _] _] _]. apply Nat.eqb_eq in L. exact L.
Qed.

Lemma read_entries_table n lines : forall i pre post hbuf rem j,
  forallb (entry_line n) lines = true ->
  read_entries (length lines) i n
    {| data := pre ++ concat lines ++ post; pos := length pre |} hbuf rem j
  = ((rem + unused_count lines)%Z,
     Some (hbuf ++ concat (map (firstn n) lines), first_unused i lines j)).
Proof.
  induction lines as [|l ls IH]; intros i pre post hbuf rem j F.
  - simpl. unfold unused_count. simpl. rewrite Z.add_0_r, app_nil_r. reflexivity.
  - simpl in F. apply andb_true_iff in F. destruct F as [Fl Fls].
    pose proof (entry_line_length n l Fl) as Ll.
    unfold entry_line in Fl. apply andb_true_iff in Fl. destruct Fl as [Tl Nl].
    simpl length. simpl read_entries. simpl concat. rewrite <- !app_assoc.
    rewrite (fgets_line n pre l (concat ls ++ post) Tl).
    unfold strlen. rewrite (cstr_nonnul l Nl), Ll, Nat.eqb_refl. simpl negb.
    replace (length pre + (n + 1)) with (length (pre ++ l))
      by (rewrite length_app; lia).
    replace (pre ++ l ++ concat ls ++ post)
      with ((pre ++ l) ++ concat ls ++ post)
      by (rewrite <- app_assoc; reflexivity).
    rewrite IH by exact Fls. simpl map. simpl concat. simpl first_unused.
    fold (unused l). rewrite <- !app_assoc.
    f_equal. unfold unused_count. simpl filter.
    destruct (unused l); simpl length; lia.
Qed.

Section PrepareProperties.

Context {hdrs : Headers}.
Variable cfg : config.

(** On a password file otpw_prepare gets as far as the table, and on
    to the locking when a password is unused. *)
Lemma otpw_prepare_table fuel rbg lock0 ch0 u flags0 w d e c h p lines post :
  pwfile w = Some d ->
  password_file cfg d e c h p lines post ->
  otpw_prepare cfg fuel rbg lock0 ch0 (Some u) flags0 w =
  let ch := table_handle cfg ch0 u flags0 e c h p lines in
  let old := Some (euid w, egid w) in
  let w1 := seteuid (uid ch) (setegid (gid ch) w) in
  if (unused_count lines <? 1)%Z then Some (prepare_cleanup ch old w1)
  else match first_unused 0 lines None with
       | None => Some (prepare_cleanup ch old w1)
       | Some j =>
           prepare_locking cfg fuel rbg lock0 ch (table_hbuf c h lines) j old w1
       end.
Proof.
  intros Hf [Ht [Hr [Hl He]]].
  unfold table_of in Ht.
  destruct (header_line cfg {| data := d; pos := 0 |}) as [[line f]|] eqn:Hh;
    [|discriminate].
  destruct (sscanf_d 4 (cstr line)) as [|e' [|c' [|h' [|p' [|? ?]]]]] eqn:Hs;
    try discriminate.
  injection Ht as E1 E2 E3 E4 Hsk. subst e' c' h' p'.
  destruct (header_line_stream cfg _ _ _ Hh) as [Hd Hp]. simpl in Hd, Hp.
  unfold otpw_prepare. cbv zeta.
  change (pwfile (seteuid _ (setegid _ w))) with (pwfile w).
  rewrite Hf, Hh, Hs. simpl length. simpl negb.
  assert (Hrange : header_in_range cfg
            (with_header [e; c; h; p]
               (with_names cfg u (init_challenge cfg flags0 ch0))) = true).
  { unfold header_in_range. simpl.
    destruct Hr as [[R1 R2] [R3 [R4 [[R5 R6] R7]]]].
    apply negb_true_iff. repeat (apply orb_false_iff; split);
      try (apply Z.ltb_ge; lia).
    apply negb_false_iff. apply Z.eqb_eq. exact R7. }
  rewrite Hrange. simpl negb. cbv iota.
  set (pre := firstn (pos f) d).
  assert (Lp : length pre = pos f) by (apply firstn_length_le; exact Hp).
  assert (Ef : f = {| data := pre ++ concat lines ++ post; pos := length pre |}).
  { destruct f as [d1 p1]. simpl in *. subst d1. rewrite Lp. f_equal.
    rewrite <- Hsk. unfold pre. symmetry. apply firstn_skipn. }
  simpl entries. simpl challen. simpl hlen. rewrite <- Hl, Ef.
  rewrite (read_entries_table (Z.to_nat (c + h)) lines 0 pre post [] 0 None He).
  simpl app. rewrite Z.add_0_l. reflexivity.
Qed.

Lemma first_unused_set lines : forall i j,
  first_unused i lines (Some j) = Some j.
Proof.
  induction lines as [|l ls IH]; intros i j; simpl; [reflexivity|].
  destruct (unused l); apply IH.
Qed.

Lemma first_unused_none lines : forall i,
  first_unused i lines None = None -> unused_count lines = 0%Z.
Proof.
  induction lines as [|l ls IH]; intros i; simpl; [reflexivity|].
  unfold unused_count. simpl. destruct (unused l).
  - rewrite first_unused_set. discriminate.
  - apply IH.
Qed.

(** *** The lock loop when the lock is held *)

(** A lock that is held and not stale ends the loop in its first
    round, nothing changed but [errno]. *)
Lemma lock_loop_held rounds target w mt :
  lock_mtime w = Some mt -> stale cfg w mt = false ->
  lock_loop cfg (S rounds) target w = (Contended, set_errno EEXIST w).
Proof.
  unfold lock_mtime, stale. intros Hm Hs.
  unfold lock_loop, sys_symlink, sys_lstat.
  destruct (lock w) eqn:El; inversion Hm; subst; simpl; rewrite El; simpl;
    rewrite Hs; reflexivity.
Qed.

Lemma below_threshold r :
  (r < Z.max (otpw_multi cfg + 1) 10)%Z ->
  ((r <? otpw_multi cfg + 1) || (r <? 10))%Z = true.
Proof.
  intros H. apply orb_true_iff.
  destruct (Z.max_spec (otpw_multi cfg + 1) 10) as [[_ E]|[_ E]];
    rewrite E in H; [right | left]; apply Z.ltb_lt; exact H.
Qed.

(** With a held lock that is a symbolic link and too few unused
    passwords the contended part gives up, whatever the link says. *)
Lemma prepare_contended_below fuel rbg lock0 ch hbuf w t mt :
  lock w = Symlink t mt -> errno w = EEXIST ->
  (remaining ch < Z.max (otpw_multi cfg + 1) 10)%Z ->
  exists w', prepare_contended cfg fuel rbg lock0 ch hbuf w = Some (ch, w')
             /\ euid w' = euid w /\ egid w' = egid w.
Proof.
  intros Hl He Hr. unfold prepare_contended, sys_readlink. rewrite Hl.
  destruct (0 <? Z.of_nat (length (firstn 80 t)))%Z.
  - rewrite (below_threshold _ Hr).
    destruct (negb _).
    + eexists; split; [reflexivity|]. apply sys_unlink_ids.
    + eexists; split; [reflexivity|]. auto.
  - rewrite He. simpl. eexists; split; [reflexivity|]. auto.
Qed.

(** C6, as amended: for every password file with fewer than
    max(multi+1, 10) unused passwords, when another login holds a fresh
    lock and locking is not switched off, otpw_prepare returns with an
    empty challenge and no password requested.  (With exactly
    max(multi, 10) = 10 unused passwords and multi < 10 the multi
    challenge is issued.) *)
Theorem prepare_fails_below_multi_threshold (fuel : nat) (rbg : nat -> nat)
  (lock0 : bytes) (ch0 : struct_challenge) (u : passwd) (flags0 : Z)
  (w : world) (d : bytes) (e c h p : Z) (lines : list bytes) (post : bytes)
  (t : bytes) (mt : Z) :
  pwfile w = Some d ->
  password_file cfg d e c h p lines post ->
  Z.land flags0 OTPW_NOLOCK = 0%Z ->
  lock w = Symlink t mt ->
  stale cfg w mt = false ->
  (unused_count lines < Z.max (otpw_multi cfg + 1) 10)%Z ->
  exists ch' w',
    otpw_prepare cfg fuel rbg lock0 ch0 (Some u) flags0 w = Some (ch', w')
    /\ challenge ch' = []
    /\ passwords ch' = 0%Z
    /\ remaining ch' = unused_count lines.
Proof.
  intros Hf Hp Hn Hl Hs Hr.
  rewrite (otpw_prepare_table fuel rbg lock0 ch0 u flags0 w d e c h p lines post Hf Hp).
  cbv zeta.
  destruct (unused_count lines <? 1)%Z;
    [eexists; eexists; split; [reflexivity | repeat split; reflexivity]|].
  destruct (first_unused 0 lines None) as [j|];
    [|eexists; eexists; split; [reflexivity | repeat split; reflexivity]].
  unfold prepare_locking. simpl flags. rewrite Hn. simpl negb. cbv iota.
  rewrite (lock_loop_held 4 _ _ mt) by (unfold lock_mtime; simpl; rewrite ?Hl; auto).
  match goal with
  | |- context [prepare_contended cfg fuel rbg lock0 ?ch1 ?hb ?w1] =>
      destruct (prepare_contended_below fuel rbg lock0 ch1 hb w1 t mt)
        as [w' [E _]]; [exact Hl | reflexivity | exact Hr | rewrite E]
  end.
  eexists; eexists; split; [reflexivity | repeat split; reflexivity].
Qed.

(** *** A lock that cannot be read, or of the wrong length *)

(** What otpw_prepare does about a link whose target has not the
    length of a challenge: it removes the link and goes on. *)
Lemma prepare_contended_wrong_length fuel rbg lock0 ch hbuf w t mt :
  lock w = Symlink t mt ->
  forallb nonnul t = true ->
  0 < length t <= 80 ->
  Z.of_nat (length t) <> challen ch ->
  dir_rw w = true ->
  prepare_contended cfg fuel rbg lock0 ch hbuf w =
  if ((remaining ch <? otpw_multi cfg + 1) || (remaining ch <? 10))%Z
  then Some (ch, set_lock NoLock w)
  else match multi_challenge cfg (Z.to_nat (otpw_multi cfg)) fuel rbg t ch hbuf 0 with
       | None => None
       | Some (ch', _, _) => Some (ch', set_lock NoLock w)
       end.
Proof.
  intros Hl Hn [L1 L2] Hc Hd.
  unfold prepare_contended, sys_readlink. rewrite Hl.
  rewrite (firstn_all2 t) by lia.
  replace (0 <? Z.of_nat (length t))%Z with true
    by (symmetry; apply Z.ltb_lt; lia).
  unfold strlen. rewrite (cstr_nonnul t Hn).
  replace (Z.of_nat (length t) =? challen ch)%Z with false
    by (symmetry; apply Z.eqb_neq; exact Hc).
  simpl negb. cbv iota.
  unfold sys_unlink. rewrite Hl, Hd. reflexivity.
Qed.





End PrepareProperties.

(** ** The scans for a remaining password *)

Lemma random_scan_lt rbg hbuf lock hbuflen challen entries more : forall k,
  0 < entries ->
  fst (random_scan rbg hbuf lock hbuflen challen entries more k) < entries.
Proof.
  induction more as [|more IH]; intros k E; simpl.
  - apply Nat.mod_upper_bound. lia.
  - destruct (rejected _ _ _ _ _); [apply IH; exact E|].
    simpl. apply Nat.mod_upper_bound. lia.
Qed.

(** When the test rejects every entry the fallback scan goes round
    the table for ever. *)
Lemma fallback_scan_all_rejected hbuf lock hbuflen challen entries :
  0 < entries ->
  (forall j, j < entries -> rejected hbuf lock hbuflen challen j = true) ->
  forall fuel j, j < entries ->
    fallback_scan fuel hbuf lock hbuflen challen entries j = None.
Proof.
  intros E R. induction fuel as [|fuel IH]; intros j J; simpl; rewrite (R j J).
  - reflexivity.
  - apply IH. apply Nat.mod_upper_bound. lia.
Qed.

Lemma fallback_scan_more_fuel hbuf lock hbuflen challen entries r :
  forall fuel j extra,
    fallback_scan fuel hbuf lock hbuflen challen entries j = Some r ->
    fallback_scan (fuel + extra) hbuf lock hbuflen challen entries j = Some r.
Proof.
  induction fuel as [|fuel IH]; intros j extra; simpl.
  - destruct (rejected _ _ _ _ j) eqn:E; [discriminate|].
    intros H. destruct extra; simpl; rewrite E; exact H.
  - destruct (rejected _ _ _ _ j); [apply IH | auto].
Qed.

(** When the test accepts the entry [d] places further round the
    table, the fallback scan stops within [d] steps, at an entry the
    test accepts. *)
Lemma fallback_scan_reaches hbuf lock hbuflen challen entries :
  forall d j, j < entries ->
    rejected hbuf lock hbuflen challen ((j + d) mod entries) = false ->
    exists r,
      fallback_scan d hbuf lock hbuflen challen entries j = Some r
      /\ r < entries
      /\ rejected hbuf lock hbuflen challen r = false.
Proof.
  induction d as [|d IH]; intros j J A.
  - rewrite Nat.add_0_r, Nat.mod_small in A by exact J.
    exists j. simpl. rewrite A. auto.
  - simpl. destruct (rejected _ _ _ _ j) eqn:E.
    + apply IH.
      * apply Nat.mod_upper_bound. lia.
      * rewrite Nat.Div0.add_mod_idemp_l.
        replace (j + 1 + d) with (j + S d) by lia. exact A.
    + exists j. auto.
Qed.

(** When the test accepts some entry [a], the scan from [j] stops
    within the distance from [j] to [a] round the table. *)
Lemma fallback_scan_distance hbuf lock hbuflen challen entries a j :
  a < entries -> j < entries ->
  rejected hbuf lock hbuflen challen a = false ->
  exists d r,
    d < entries
    /\ fallback_scan d hbuf lock hbuflen challen entries j = Some r
    /\ r < entries
    /\ rejected hbuf lock hbuflen challen r = false.
Proof.
  intros A J R.
  set (d := (a + entries - j) mod entries).
  assert (D : d < entries) by (apply Nat.mod_upper_bound; lia).
  destruct (fallback_scan_reaches hbuf lock hbuflen challen entries d j J)
    as [r [F [Rl Rr]]].
  - unfold d. rewrite Nat.Div0.add_mod_idemp_r.
    replace (j + (a + entries - j)) with (a + 1 * entries) by lia.
    rewrite Nat.Div0.mod_add, Nat.mod_small by exact A. exact R.
  - exists d, r. auto.
Qed.

(** The fallback scan ends exactly when the test accepts some entry:
    then [entries] steps are enough from any start. *)
Theorem fallback_scan_terminates hbuf lock hbuflen challen entries a j :
  a < entries -> j < entries ->
  rejected hbuf lock hbuflen challen a = false ->
  exists r,
    fallback_scan entries hbuf lock hbuflen challen entries j = Some r
    /\ r < entries
    /\ rejected hbuf lock hbuflen challen r = false.
Proof.
  intros A J R.
  destruct (fallback_scan_distance hbuf lock hbuflen challen entries a j A J R)
    as [d [r [D [F [Rl Rr]]]]].
  exists r. split; [|auto].
  replace entries with (d + (entries - d)) at 1 by lia.
  apply fallback_scan_more_fuel. exact F.
Qed.

Section MultiChallengeProperties.

Context {hdrs : Headers}.
Variable cfg : config.

(** When the test rejects every entry, the loop that generates the
    challenges never gets past its first password. *)
Lemma multi_challenge_stuck n fuel rbg lock ch hbuf k :
  ((passwords ch <? otpw_multi cfg)
   && (Z.of_nat (strlen (challenge ch)) <? challenge_room ch))%Z = true ->
  0 < Z.to_nat (entries ch) ->
  (forall j, j < Z.to_nat (entries ch) ->
     rejected hbuf lock (Z.to_nat (challen ch + hlen ch))
              (Z.to_nat (challen ch)) j = true) ->
  multi_challenge cfg (S n) fuel rbg lock ch hbuf k = None.
Proof.
  intros C E R. simpl. rewrite C.
  pose proof (random_scan_lt rbg hbuf lock (Z.to_nat (challen ch + hlen ch))
                (Z.to_nat (challen ch)) (Z.to_nat (entries ch))
                (Z.to_nat (entries ch) + (Z.to_nat (entries ch) + 0)) k E) as J.
  destruct (random_scan _ _ _ _ _ _ _ _) as [j k']. simpl in J.
  rewrite (fallback_scan_all_rejected _ _ _ _ _ E R fuel j J). reflexivity.
Qed.

(** With a held lock whose target has the length of a challenge, and
    enough unused passwords, otpw_prepare is the multi challenge. *)
Lemma prepare_contended_multi fuel rbg lock0 ch hbuf w t mt :
  lock w = Symlink t mt ->
  forallb nonnul t = true ->
  0 < length t <= 80 ->
  Z.of_nat (length t) = challen ch ->
  ((remaining ch <? otpw_multi cfg + 1) || (remaining ch <? 10))%Z = false ->
  prepare_contended cfg fuel rbg lock0 ch hbuf w =
  match multi_challenge cfg (Z.to_nat (otpw_multi cfg)) fuel rbg t ch hbuf 0 with
  | None => None
  | Some (ch', _, _) => Some (ch', w)
  end.
Proof.
  intros Hl Hn [L1 L2] Hc Hg.
  unfold prepare_contended, sys_readlink. rewrite Hl.
  rewrite (firstn_all2 t) by lia.
  replace (0 <? Z.of_nat (length t))%Z with true
    by (symmetry; apply Z.ltb_lt; lia).
  unfold strlen. rewrite (cstr_nonnul t Hn), Hc, Z.eqb_refl, Hg. reflexivity.
Qed.

(** With the lock held and fresh, and locking asked for, the part
    after the table is the contended part. *)
Lemma prepare_locking_contended fuel rbg lock0 ch hbuf j old w mt :
  Z.land (flags ch) OTPW_NOLOCK = 0%Z ->
  lock_mtime w = Some mt -> stale cfg w mt = false ->
  prepare_locking cfg fuel rbg lock0 ch hbuf j old w =
  match prepare_contended cfg fuel rbg lock0
          (with_challenge [] (with_primary hbuf j ch)) hbuf
          (set_errno EEXIST w) with
  | None => None
  | Some (ch', w'') => Some (prepare_cleanup ch' old w'')
  end.
Proof.
  intros Hn Hm Hs. unfold prepare_locking. simpl flags. rewrite Hn.
  simpl negb. cbv iota. rewrite (lock_loop_held cfg 4 _ _ mt Hm Hs).
  reflexivity.
Qed.

End MultiChallengeProperties.

(** ** Concrete runs *)

Example verify_confusable_input :
  option_map verdict (demo_verify confusable_otp_handle "pl0\test2" demo_world)
  = Some OTPW_OK.
Proof. vm_compute. reflexivity. Qed.

(** C1 (the code differs from the claim): another login holds a fresh
    lock on the first password, ABC.  The first random draw is entry 0;
    otpw_prepare compares the lock with the start of the stored hash of
    the entry, not with its label, and selects the locked entry: the
    multi challenge is ABC/ABD/ABE. *)
Lemma prepare_selects_locked_entry :
  lock contended_world = Symlink (B "ABC") 99940
  /\ exists ch w',
       demo_prepare 0 (fun k => k) contended_world = Some (ch, w')
       /\ challenge ch = B "ABC/ABD/ABE"
       /\ selection ch = [0; 1; 2]
       /\ passwords ch = 3%Z
       /\ lock w' = Symlink (B "ABC") 99940.
Proof.
  split; [reflexivity|].
  eexists; eexists. split; [vm_compute; reflexivity|].
  repeat split; reflexivity.
Qed.

Lemma collision_file_ok :
  password_file (hdrs := demo_headers) default_config
    (demo_header ++ concat collision_lines) 10 3 12 8 collision_lines [].
Proof.
  unfold password_file.
  split; [vm_compute; reflexivity|].
  split; [unfold header_values_ok; simpl; lia|].
  split; [reflexivity | vm_compute; reflexivity].
Qed.

(** C10 (the code differs from the claim): the file passes the checks
    of otpw_prepare and has ten unused passwords, the lock points to
    the three bytes AAA, and every stored hash starts with AAA.  The
    test rejects every entry, and the fallback scan is still running
    after any number of steps, whatever the random draws. *)
Theorem prepare_fallback_scan_runs_for_ever (fuel : nat) (rbg : nat -> nat) :
  demo_prepare fuel rbg collision_world = None.
Proof.
  unfold demo_prepare.
  rewrite (otpw_prepare_table default_config fuel rbg [] blank_challenge
             demo_user 0 collision_world _ 10 3 12 8 collision_lines []
             eq_refl collision_file_ok).
  cbv zeta.
  change (unused_count collision_lines <? 1)%Z with false.
  change (first_unused 0 collision_lines None) with (Some 0).
  cbv iota.
  rewrite (prepare_locking_contended default_config fuel rbg [] _ _ 0 _ _ 99940)
    by reflexivity.
  rewrite (prepare_contended_multi default_config fuel rbg [] _ _ _ (B "AAA") 99940)
    by (try reflexivity; simpl; lia).
  change (Z.to_nat (otpw_multi default_config)) with 3.
  rewrite multi_challenge_stuck; [reflexivity | reflexivity | vm_compute; lia |].
  intros j J. vm_compute in J.
  do 10 (destruct j as [|j]; [vm_compute; reflexivity|]).
  lia.
Qed.

(** C2, the claim as stated fails: all passwords match but the file
    cannot be opened for writing; the verdict is OTPW_OK, the file is
    as before with the selected entry still in it, and [remaining] is
    still 10. *)
Lemma verify_ok_without_consumption :
  exists r,
    demo_verify locked_handle "fooaaaaaaaa" readonly_world = Some r
    /\ verdict r = OTPW_OK
    /\ pwfile (world_after r) = Some demo_file
    /\ selection locked_handle = [0; 0; 0]
    /\ nth 0 demo_lines [] <> hyphen_line locked_handle
    /\ remaining (handle_after r) = 10%Z.
Proof.
  eexists. split; [vm_compute; reflexivity|].
  repeat split; try (vm_compute; reflexivity).
  vm_compute. discriminate.
Qed.

Lemma verify_ok_consumes_selection_witness :
  let lines' := consumed locked_handle 0 demo_lines in
  exists r,
    demo_verify locked_handle "fooaaaaaaaa" locked_world = Some r
    /\ verdict r = OTPW_OK
    /\ (pwfile (world_after r)
          = Some (firstn 16 demo_file ++ concat lines' ++ [])
        /\ length lines' = length demo_lines
        /\ (forall i, In i [0] -> nth i lines' [] = hyphen_line locked_handle)
        /\ (forall i, ~ In i [0] -> nth i lines' [] = nth i demo_lines [])
        /\ remaining (handle_after r) = (10 - 1)%Z).
Proof.
  cbv zeta. eexists. split; [vm_compute; reflexivity|].
  split; [reflexivity|].
  refine (verify_ok_consumes_selection (hdrs := demo_headers) default_config
            locked_handle (Some (B "fooaaaaaaaa")) locked_world
            {| data := demo_file; pos := 0 |} {| data := demo_file; pos := 16 |}
            demo_lines [] _ _ _ _ _ _ _ _ _ _ _).
  - vm_compute. reflexivity.
  - reflexivity.
  - reflexivity.
  - vm_compute. reflexivity.
  - vm_compute. reflexivity.
  - reflexivity.
  - vm_compute. reflexivity.
  - reflexivity.
  - simpl. constructor; [simpl; tauto | constructor].
  - simpl. constructor; [lia | constructor].
Defined.

(** The login that holds the lock on ABC verifies its response, and
    the handle it is left with makes every further call free the blocks
    again. *)
Lemma verify_second_call_frees_again_witness :
  heap locked_handle = Allocated
  /\ exists r,
       demo_verify locked_handle "fooaaaaaaaa" locked_world = Some r
       /\ passwords (handle_after r) = 0%Z
       /\ forall (pw2 : option bytes) (w2 : world),
            otpw_verify (hdrs := demo_headers) default_config
              (handle_after r) pw2 w2
            = verify_cleanup OTPW_ERROR (handle_after r) None None w2
            /\ otpw_verify (hdrs := demo_headers) default_config
                 (handle_after r) pw2 w2 = None.
Proof.
  split; [reflexivity|].
  exact (verify_second_call_frees_again (hdrs := demo_headers) default_config
           locked_handle (Some (B "fooaaaaaaaa")) locked_world eq_refl).
Defined.

(** A handle that holds no blocks and no passwords is refused, call
    after call. *)
Lemma verify_spent_handle_refused_witness :
  passwords blank_challenge = 0%Z
  /\ heap blank_challenge <> Freed
  /\ exists r,
       otpw_verify (hdrs := demo_headers) default_config blank_challenge
         (Some (B "fooaaaaaaaa")) demo_world = Some r
       /\ verdict r = OTPW_ERROR
       /\ pwfile (world_after r) = pwfile demo_world
       /\ passwords (handle_after r) = 0%Z.
Proof.
  split; [reflexivity|]. split; [discriminate|].
  apply (verify_spent_handle_refused (hdrs := demo_headers) default_config
           blank_challenge (Some (B "fooaaaaaaaa")) demo_world eq_refl).
  discriminate.
Defined.

Lemma verify_failure_keeps_file_witness :
  exists r,
    demo_verify locked_handle "fooaaaaaaab" locked_world = Some r
    /\ verdict r = OTPW_WRONG
    /\ pwfile (world_after r) = pwfile locked_world.
Proof.
  eexists. split; [vm_compute; reflexivity|].
  split; [reflexivity|].
  refine (verify_failure_keeps_file (hdrs := demo_headers) default_config
            locked_handle (Some (B "fooaaaaaaab")) locked_world _ _ _).
  - vm_compute. reflexivity.
  - discriminate.
Defined.

Lemma verify_ok_when_overwrite_impossible_witness :
  fopen_rw readonly_world = None
  /\ exists r,
       demo_verify locked_handle "fooaaaaaaaa" readonly_world = Some r
       /\ verdict r = OTPW_OK
       /\ (passwords locked_handle = 1%Z ->
           lock (world_after r) = lock readonly_world)
       /\ euid (world_after r) = euid readonly_world
       /\ egid (world_after r) = egid readonly_world
       /\ pwfile (world_after r) = pwfile readonly_world.
Proof.
  split; [reflexivity|].
  refine (verify_ok_when_overwrite_impossible (hdrs := demo_headers)
            default_config locked_handle (B "fooaaaaaaaa") readonly_world
            _ _ (or_introl eq_refl)).
  - unfold usable. simpl. repeat split; try lia.
  - vm_compute. reflexivity.
Defined.

(** C4, the claim as stated fails, in two ways.  A space typed before
    a response that is one character short makes the scan run out of
    input in the last slot, which the test for a short password lets
    through: with the handle [short_handle] the verdict goes from
    OTPW_WRONG to OTPW_OK, whatever the digest.  And a space typed
    inside the prefix password is hashed with it. *)
Lemma verify_noise_changes_verdict :
  (forall hdrs : Headers,
     option_map verdict
       (otpw_verify (hdrs := hdrs) default_config short_handle
          (Some (B "bcd")) demo_world) = Some OTPW_WRONG
     /\ option_map verdict
          (otpw_verify (hdrs := hdrs) default_config short_handle
             (Some (B " bcd")) demo_world) = Some OTPW_OK)
  /\ option_map verdict
       (demo_verify locked_handle "fooaaaaaaaa" locked_world) = Some OTPW_OK
  /\ option_map verdict
       (demo_verify locked_handle "fo oaaaaaaaa" locked_world) = Some OTPW_WRONG.
Proof.
  split; [|split; vm_compute; reflexivity].
  intros hdrs. split; [reflexivity|].
  assert (C : compare_passwords short_handle [] [NUL :: B "bcd"] = true).
  { unfold compare_passwords, strcmp0, bytes_eqb. simpl.
    destruct (list_eq_dec _ _ _); [reflexivity | congruence]. }
  destruct (verify_matching_ok default_config short_handle (B " bcd") demo_world)
    as [r [E V]].
  - unfold usable. simpl. repeat split; lia.
  - unfold entered_passwords_match. simpl passwords. simpl pwlen.
    change (scan_response (Z.to_nat 1) (Z.to_nat 4) (B " bcd"))
      with (Some (@nil ascii, [NUL :: B "bcd"])).
    exact C.
  - rewrite E. simpl. rewrite V. reflexivity.
Qed.

Lemma verify_ignores_noise_in_passwords_witness :
  typed_with_noise (B "aaaaaaaa") (B "aaaa X" ++ [BS] ++ B "aaaa")
  /\ demo_verify locked_handle "fooaaaaaaaa" locked_world
     = otpw_verify (hdrs := demo_headers) default_config locked_handle
         (Some (B "foo" ++ B "aaaa X" ++ [BS] ++ B "aaaa")) locked_world.
Proof.
  assert (T : typed_with_noise (B "aaaaaaaa") (B "aaaa X" ++ [BS] ++ B "aaaa")).
  { assert (A : canon "a" <> None) by (vm_compute; discriminate).
    assert (N : noise [" "%char; "X"%char; BS]).
    { apply noise_ignored; try reflexivity.
      exact (noise_typo ["X"%char; BS] []
               (typo_cancel "X" BS [] [] eq_refl eq_refl eq_refl typo_nil typo_nil)
               noise_nil). }
    apply (twn_char "a" [] _ _ A noise_nil).
    apply (twn_char "a" [] _ _ A noise_nil).
    apply (twn_char "a" [] _ _ A noise_nil).
    apply (twn_char "a" [" "%char; "X"%char; BS] (B "aaaa") (B "aaaa") A N).
    apply (twn_char "a" [] _ _ A noise_nil).
    apply (twn_char "a" [] _ _ A noise_nil).
    apply (twn_char "a" [] _ _ A noise_nil).
    apply (twn_char "a" [] _ _ A noise_nil).
    constructor. }
  split; [exact T|].
  symmetry.
  refine (verify_ignores_noise_in_passwords (hdrs := demo_headers)
            default_config locked_handle (B "foo") (B "aaaaaaaa")
            (B "aaaa X" ++ [BS] ++ B "aaaa") locked_world T _).
  simpl. lia.
Defined.

(** C5, the claim as stated fails: the response is verified OTPW_OK,
    and with l typed for the I of the prefix password it is not. *)
Lemma verify_confusable_in_prefix :
  option_map verdict
    (demo_verify confusable_prefix_handle "Iloaaaaaaaa" demo_world)
  = Some OTPW_OK
  /\ Forall2 (fun c c' => confusable c c' = true)
       (B "Iloaaaaaaaa") (B "lloaaaaaaaa")
  /\ option_map verdict
       (demo_verify confusable_prefix_handle "lloaaaaaaaa" demo_world)
     = Some OTPW_WRONG.
Proof.
  split; [vm_compute; reflexivity|]. split; [|vm_compute; reflexivity].
  repeat (constructor; [vm_compute; reflexivity|]). constructor.
Qed.

Lemma verify_confusable_after_prefix_witness :
  let ch := confusable_otp_handle in
  Forall2 (fun c c' => confusable c c' = true) (B "pIO/test2") (B "pl0\test2")
  /\ prefix_password ch (B "pIO/test2") = B "p"
  /\ demo_verify ch "pl0\test2" demo_world = demo_verify ch "pIO/test2" demo_world.
Proof.
  cbv zeta.
  assert (F : Forall2 (fun c c' => confusable c c' = true)
                (B "pIO/test2") (B "pl0\test2")).
  { repeat (constructor; [vm_compute; reflexivity|]). constructor. }
  split; [exact F|]. split; [vm_compute; reflexivity|].
  refine (verify_confusable_after_prefix (hdrs := demo_headers) default_config
            confusable_otp_handle (B "pIO/test2") (B "pl0\test2") demo_world F _).
  vm_compute. reflexivity.
Defined.

Lemma demo_file_ok :
  password_file (hdrs := demo_headers) default_config demo_file 10 3 12 8
    demo_lines [].
Proof.
  unfold password_file.
  split; [vm_compute; reflexivity|].
  split; [unfold header_values_ok; simpl; lia|].
  split; [reflexivity | vm_compute; reflexivity].
Qed.

Lemma half_used_file_ok :
  password_file (hdrs := demo_headers) default_config
    (demo_header ++ concat half_used_lines) 10 3 12 8 half_used_lines [].
Proof.
  unfold password_file.
  split; [vm_compute; reflexivity|].
  split; [unfold header_values_ok; simpl; lia|].
  split; [reflexivity | vm_compute; reflexivity].
Qed.

(** C6, the claim as stated fails at the upper end of its range: with
    multi = 3 and max(multi, 10) = 10 unused passwords under a fresh
    lock of another login, otpw_prepare issues a multi challenge. *)
Lemma prepare_multi_challenge_at_ten :
  unused_count demo_lines = 10%Z
  /\ (2 <= 10 <= Z.max (otpw_multi default_config) 10)%Z
  /\ exists ch w',
       demo_prepare 0 (fun k => k + 3) contended_world = Some (ch, w')
       /\ challenge ch = B "ABF/ABG/ABH"
       /\ passwords ch = 3%Z.
Proof.
  split; [reflexivity|]. split; [vm_compute; split; discriminate|].
  eexists; eexists. split; [vm_compute; reflexivity|].
  split; reflexivity.
Qed.

Lemma prepare_fails_below_multi_threshold_witness :
  unused_count half_used_lines = 4%Z
  /\ exists ch' w',
       demo_prepare 0 (fun k => k) half_used_world = Some (ch', w')
       /\ challenge ch' = []
       /\ passwords ch' = 0%Z
       /\ remaining ch' = unused_count half_used_lines.
Proof.
  split; [reflexivity|].
  refine (prepare_fails_below_multi_threshold (hdrs := demo_headers)
            default_config 0 (fun k => k) [] blank_challenge demo_user 0
            half_used_world (demo_header ++ concat half_used_lines)
            10 3 12 8 half_used_lines [] (B "ABI") 99940
            eq_refl half_used_file_ok eq_refl eq_refl eq_refl _).
  vm_compute. reflexivity.
Defined.



(** ** The encoder and the scan agree on the alphabet *)

Lemma all_bytes_In c : In c all_bytes.
Proof.
  unfold all_bytes. rewrite <- (ascii_nat_embedding c).
  apply in_map, in_seq. pose proof (nat_ascii_bounded c). lia.
Qed.

Lemma emits_canonical_all :
  forallb (fun x => forallb (emits_canonical x) all_bytes) all_bytes = true.
Proof. vm_compute. reflexivity. Qed.

Lemma emits_canonical_In x y idx :
  In idx (base64_indices x y) -> canonical (nth (Z.to_nat idx) tab NUL).
Proof.
  intros I.
  pose proof emits_canonical_all as A.
  rewrite forallb_forall in A. specialize (A x (all_bytes_In x)).
  rewrite forallb_forall in A. specialize (A y (all_bytes_In y)).
  unfold emits_canonical in A. rewrite forallb_forall in A.
  specialize (A idx I). unfold canonicalb in A. unfold canonical.
  destruct (canon _) as [c'|]; [|discriminate].
  apply Ascii.eqb_eq in A. subst. reflexivity.
Qed.

(** conv_base64 writes only characters that the scan of a response
    stores unchanged: none of l, 1, |, 0 and \, and nothing it would
    skip. *)
Theorem conv_base64_canonical (v : bytes) (chars : nat) :
  Forall canonical (conv_base64 v chars).
Proof.
  apply Forall_forall. intros c.
  unfold conv_base64. intros I. apply in_map_iff in I.
  destruct I as [i [E _]]. subst c. unfold base64_index.
  set (j := (i / 4 * 3)%nat).
  destruct (i mod 4)%nat as [|[|[|k]]].
  - apply (emits_canonical_In (nth j v NUL) NUL). simpl. auto.
  - apply (emits_canonical_In (nth j v NUL) (nth (j + 1) v NUL)). simpl. auto.
  - apply (emits_canonical_In (nth (j + 1) v NUL) (nth (j + 2) v NUL)).
    simpl. auto.
  - apply (emits_canonical_In NUL (nth (j + 2) v NUL)). simpl. auto.
Qed.

Lemma conv_base64_length v chars : length (conv_base64 v chars) = chars.
Proof. unfold conv_base64. rewrite length_map, length_seq. reflexivity. Qed.

(** ** The correct response is accepted *)

Lemma fill_slot_canonical c rs :
  canonical c -> fill_slot (c :: rs) = (Some c, rs).
Proof.
  intros C. unfold canonical in C.
  assert (N : canon c <> None) by congruence.
  rewrite fill_slot_step. simpl. rewrite (canon_not_bs_del c N), C. reflexivity.
Qed.

(** One password typed without noise fills its row. *)
Lemma scan_row_canonical row : forall rest acc,
  Forall canonical row ->
  scan_row (length row) (rev row ++ rest) acc = (0, rest, row ++ acc).
Proof.
  induction row as [|c row IH] using rev_ind; intros rest acc F.
  - simpl. destruct rest; reflexivity.
  - apply Forall_app in F. destruct F as [Fr Fc]. inversion Fc; subst.
    rewrite rev_app_distr, length_app, Nat.add_comm. simpl.
    rewrite fill_slot_canonical by assumption.
    rewrite IH by assumption. rewrite <- app_assoc. reflexivity.
Qed.

(** The passwords typed one after the other without noise fill the
    buffer, and the cursor is left at the prefix. *)
Lemma scan_passwords_canonical pwlen otps : forall j1 rest rows,
  0 < pwlen ->
  Forall (fun o => length o = pwlen /\ Forall canonical o) otps ->
  scan_passwords pwlen (length otps) j1 (rev (concat otps) ++ rest) rows
  = (0, match otps with [] => j1 | _ => 0 end, rest, otps ++ rows).
Proof.
  induction otps as [|o otps IH] using rev_ind; intros j1 rest rows P F.
  - simpl. destruct rest; reflexivity.
  - apply Forall_app in F. destruct F as [Fo Fl].
    inversion Fl as [|? ? [Lo Co] _]; subst.
    rewrite concat_app, rev_app_distr, length_app, Nat.add_comm.
    simpl concat. rewrite app_nil_r, <- app_assoc. simpl plus.
    rewrite scan_passwords_S.
    + rewrite (scan_row_canonical o _ [] Co). simpl repeat. rewrite app_nil_r.
      rewrite IH by assumption. rewrite <- app_assoc. simpl.
      destruct otps; reflexivity.
    + destruct o as [|c o]; [simpl in P; lia|].
      simpl. intros E. apply app_eq_nil in E. destruct E as [E _].
      apply app_eq_nil in E. destruct E as [_ E]. discriminate.
Qed.

Lemma canonical_nonnul o : Forall canonical o -> forallb nonnul o = true.
Proof.
  induction 1 as [|c o C _ IH]; simpl; [reflexivity|].
  rewrite IH, andb_true_r. apply canon_nonnul. unfold canonical in C. congruence.
Qed.

Lemma scan_response_canonical passwords pwlen prefix otps :
  0 < pwlen -> 0 < passwords ->
  length otps = passwords ->
  Forall (fun o => length o = pwlen /\ Forall canonical o) otps ->
  forallb nonnul prefix = true ->
  scan_response passwords pwlen (prefix ++ concat otps) = Some (prefix, otps).
Proof.
  intros P N L F Np.
  assert (Nc : forallb nonnul (concat otps) = true).
  { clear L. induction F as [|o otps [_ Co] _ IH]; simpl; [reflexivity|].
    rewrite forallb_app, (canonical_nonnul o Co), IH. reflexivity. }
  unfold scan_response.
  rewrite cstr_app, Np, (cstr_nonnul _ Nc), rev_app_distr, <- L.
  rewrite (scan_passwords_canonical pwlen otps 1 (rev prefix) [] P F).
  destruct otps; [simpl in L; lia|].
  simpl. rewrite rev_involutive, app_nil_r. reflexivity.
Qed.

Section Acceptance.

Context {hdrs : Headers}.
Variable cfg : config.

(** The round trip of the format: when the hashes in the handle are
    those of a prefix password followed by each one-time password, and
    the passwords are [pwlen] characters of the alphabet each, then the
    response made of the prefix and the passwords is verified OTPW_OK. *)
Theorem verify_accepts_correct_response (ch : struct_challenge)
  (prefix : bytes) (otps : list bytes) (w : world) :
  heap ch = Allocated ->
  (1 <= passwords ch <= otpw_multi cfg)%Z ->
  (1 <= pwlen ch)%Z ->
  length otps = Z.to_nat (passwords ch) ->
  Forall (fun o => length o = Z.to_nat (pwlen ch) /\ Forall canonical o) otps ->
  forallb nonnul prefix = true ->
  (forall i, i < Z.to_nat (passwords ch) ->
     nth i (hash ch) []
     = conv_base64 (md_digest (prefix ++ nth i otps [])) (Z.to_nat (hlen ch))) ->
  exists r,
    otpw_verify cfg ch (Some (prefix ++ concat otps)) w = Some r
    /\ verdict r = OTPW_OK.
Proof.
  intros A Hp Hl Ho F Np Hh.
  assert (S : scan_response (Z.to_nat (passwords ch)) (Z.to_nat (pwlen ch))
                (prefix ++ concat otps) = Some (prefix, otps))
    by (apply scan_response_canonical; auto; lia).
  assert (C : compare_passwords ch prefix otps = true).
  { unfold compare_passwords. apply forallb_forall. intros i I.
    apply in_seq in I. rewrite Hh by lia.
    unfold strcmp0, bytes_eqb.
    destruct (list_eq_dec _ _ _); [reflexivity | congruence]. }
  assert (U : usable cfg ch) by (unfold usable; repeat split; auto; lia).
  apply verify_matching_ok; [exact U|].
  unfold entered_passwords_match. unfold bytes in S. rewrite S. exact C.
Qed.

End Acceptance.

Lemma verify_accepts_correct_response_witness :
  exists r,
    demo_verify locked_handle "fooaaaaaaaa" locked_world = Some r
    /\ verdict r = OTPW_OK.
Proof.
  refine (verify_accepts_correct_response (hdrs := demo_headers) default_config
            locked_handle (B "foo") [B "aaaaaaaa"] locked_world _ _ _ _ _ _ _).
  - reflexivity.
  - simpl. lia.
  - simpl. lia.
  - reflexivity.
  - constructor; [|constructor]. split; [reflexivity|].
    repeat constructor.
  - reflexivity.
  - intros i I. simpl in I. destruct i; [reflexivity | lia].
Defined.

Lemma fallback_scan_terminates_witness :
  let hbuf := table_hbuf 3 12 demo_lines in
  exists r,
    fallback_scan 10 hbuf (B "ABC") 15 3 10 0 = Some r
    /\ r < 10
    /\ rejected hbuf (B "ABC") 15 3 r = false.
Proof.
  cbv zeta.
  refine (fallback_scan_terminates (table_hbuf 3 12 demo_lines) (B "ABC")
            15 3 10 1 0 _ _ _).
  - lia.
  - lia.
  - vm_compute. reflexivity.
Defined.

Section SingleChallenge.

Context {hdrs : Headers}.
Variable cfg : config.

(** A free lock is taken in the first round of the loop, a stale one
    in the second. *)
Lemma lock_loop_free rounds target w :
  lock w = NoLock -> dir_rw w = true ->
  lock_loop cfg (S rounds) target w
  = (Locked, set_lock (Symlink target (now w)) w).
Proof.
  intros Hl Hd. simpl. unfold sys_symlink. rewrite Hl, Hd. reflexivity.
Qed.

Lemma lock_loop_stale rounds target w mt :
  lock_mtime w = Some mt -> stale cfg w mt = true -> dir_rw w = true ->
  lock_loop cfg (S (S rounds)) target w
  = (Locked, set_lock (Symlink target (now w)) (set_errno EEXIST w)).
Proof.
  unfold lock_mtime, stale. intros Hm Hs Hd.
  unfold lock_loop, sys_symlink, sys_lstat, sys_unlink.
  destruct (lock w) eqn:El; inversion Hm; subst; simpl; rewrite El; simpl;
    rewrite Hs, El, Hd; simpl; rewrite Hd; reflexivity.
Qed.

(** In single-challenge mode the lock is the challenge: on a password
    file with an unused password, with locking asked for and the lock
    free or stale, otpw_prepare returns a handle for one password that
    holds the lock, and the lock is a link to the challenge, made now.
    The effective ids are those from before the call. *)
Theorem prepare_single_challenge_locks (fuel : nat) (rbg : nat -> nat)
  (lock0 : bytes) (ch0 : struct_challenge) (u : passwd) (flags0 : Z)
  (w : world) (d : bytes) (e c h p : Z) (lines : list bytes) (post : bytes) :
  pwfile w = Some d ->
  password_file cfg d e c h p lines post ->
  (1 <= unused_count lines)%Z ->
  Z.land flags0 OTPW_NOLOCK = 0%Z ->
  dir_rw w = true ->
  (lock w = NoLock
   \/ exists mt, lock_mtime w = Some mt /\ stale cfg w mt = true) ->
  exists ch' w',
    otpw_prepare cfg fuel rbg lock0 ch0 (Some u) flags0 w = Some (ch', w')
    /\ passwords ch' = 1%Z
    /\ locked ch' = true
    /\ remaining ch' = unused_count lines
    /\ lock w' = Symlink (challenge ch') (now w)
    /\ euid w' = euid w /\ egid w' = egid w.
Proof.
  intros Hf Hp Hu Hn Hd Hl.
  rewrite (otpw_prepare_table cfg fuel rbg lock0 ch0 u flags0 w d e c h p
             lines post Hf Hp).
  cbv zeta.
  replace (unused_count lines <? 1)%Z with false
    by (symmetry; apply Z.ltb_ge; exact Hu).
  destruct (first_unused 0 lines None) as [j|] eqn:Ej;
    [|apply first_unused_none in Ej; lia].
  unfold prepare_locking. simpl flags. rewrite Hn. simpl negb. cbv iota.
  destruct Hl as [Hl | [mt [Hm Hs]]].
  - rewrite lock_loop_free by assumption.
    eexists; eexists; split; [reflexivity|]. repeat split; reflexivity.
  - rewrite (lock_loop_stale 3 _ _ mt) by assumption.
    eexists; eexists; split; [reflexivity|]. repeat split; reflexivity.
Qed.

End SingleChallenge.

Lemma prepare_single_challenge_locks_witness :
  exists ch' w',
    demo_prepare 0 (fun k => k) demo_world = Some (ch', w')
    /\ passwords ch' = 1%Z
    /\ locked ch' = true
    /\ remaining ch' = unused_count demo_lines
    /\ lock w' = Symlink (challenge ch') (now demo_world)
    /\ euid w' = euid demo_world /\ egid w' = egid demo_world.
Proof.
  refine (prepare_single_challenge_locks (hdrs := demo_headers) default_config
            0 (fun k => k) [] blank_challenge demo_user 0 demo_world demo_file
            10 3 12 8 demo_lines [] eq_refl demo_file_ok _ eq_refl eq_refl
            (or_introl eq_refl)).
  vm_compute. discriminate.
Defined.

(** ** The multi challenge: what is selected, and when the loop ends *)

Lemma store_length {A} (l : list A) : forall i v, length (store l i v) = length l.
Proof.
  induction l as [|x l IH]; intros [|i] v; simpl; auto.
Qed.

Lemma nth_store_same {A} (l : list A) : forall i v d,
  i < length l -> nth i (store l i v) d = v.
Proof.
  induction l as [|x l IH]; intros [|i] v d L; simpl in *; try lia; auto.
  apply IH. lia.
Qed.

Lemma nth_store_other {A} (l : list A) : forall i k v d,
  i <> k -> nth k (store l i v) d = nth k l d.
Proof.
  induction l as [|x l IH]; intros [|i] [|k] v d N; simpl; auto; try congruence.
Qed.

Lemma firstn_store_snoc {A} (l : list A) : forall p v,
  p < length l -> firstn (S p) (store l p v) = firstn p l ++ [v].
Proof.
  induction l as [|x l IH]; intros [|p] v L; simpl in *; try lia.
  - reflexivity.
  - f_equal. apply IH. lia.
Qed.

(** A store outside a window of the buffer does not show in it. *)
Lemma firstn_skipn_store {A} (l : list A) : forall a p c v,
  p < a \/ a + c <= p ->
  firstn c (skipn a (store l p v)) = firstn c (skipn a l).
Proof.
  induction l as [|x l IH]; intros a p c v H.
  - reflexivity.
  - destruct p as [|p]; destruct a as [|a]; simpl store.
    + destruct c; [reflexivity | lia].
    + reflexivity.
    + destruct c as [|c]; [reflexivity|]. simpl. f_equal.
      apply (IH 0 p c v). lia.
    + simpl. apply IH. lia.
Qed.

(** strncmp looks at the first [n] bytes only. *)
Lemma strncmp0_firstn n : forall s1 s1' s2,
  firstn n s1 = firstn n s1' -> strncmp0 s1 s2 n = strncmp0 s1' s2 n.
Proof.
  induction n as [|n IH]; intros s1 s1' s2 E; [reflexivity|].
  destruct s1 as [|x s1], s1' as [|x' s1']; simpl in E; try discriminate.
  - reflexivity.
  - injection E as -> E. simpl. rewrite (IH s1 s1' (tl s2) E). reflexivity.
Qed.

Lemma filter_one_less (f g : nat -> bool) r l :
  NoDup l -> In r l -> f r = true -> g r = false ->
  (forall i, i <> r -> g i = f i) ->
  length (filter g l) + 1 = length (filter f l).
Proof.
  intros ND I Fr Gr Ex. induction l as [|x l IH]; [contradiction|].
  inversion ND as [|? ? Nx NDl]; subst. simpl.
  destruct (Nat.eq_dec x r) as [->|Nr].
  - rewrite Fr, Gr. simpl.
    assert (E : filter g l = filter f l).
    { apply filter_ext_in. intros a Ia. apply Ex. intros ->. contradiction. }
    rewrite E. lia.
  - destruct I as [E|I]; [congruence|].
    rewrite (Ex x Nr). specialize (IH NDl I).
    destruct (f x); simpl; lia.
Qed.

Section Selection.

Variables (lock : bytes) (hbuflen challen entries : nat).
Hypothesis hbuflen_pos : 0 < hbuflen.
Hypothesis window_in_row : challen + challen <= hbuflen.

(** Marking an entry as used does not change the test of another
    entry, when the bytes compared with the lock lie within the row. *)
Lemma rejected_store_other hbuf i j :
  i <> j ->
  rejected (store hbuf (j * hbuflen) HYPHEN) lock hbuflen challen i
  = rejected hbuf lock hbuflen challen i.
Proof.
  intros N. unfold rejected. f_equal.
  - rewrite nth_store_other; [reflexivity|]. nia.
  - apply strncmp0_firstn. apply firstn_skipn_store. nia.
Qed.

Lemma rejected_store_same hbuf j :
  j * hbuflen < length hbuf ->
  rejected (store hbuf (j * hbuflen) HYPHEN) lock hbuflen challen j = true.
Proof.
  intros L. unfold rejected. rewrite nth_store_same by exact L. reflexivity.
Qed.

(** Marking an accepted entry leaves one accepted entry less. *)
Lemma accepted_count_store hbuf r :
  length hbuf = entries * hbuflen ->
  r < entries -> accepted lock hbuflen challen hbuf r = true ->
  accepted_count lock hbuflen challen entries (store hbuf (r * hbuflen) HYPHEN) + 1 = accepted_count lock hbuflen challen entries hbuf.
Proof.
  intros L R A. unfold accepted_count.
  apply (filter_one_less (accepted lock hbuflen challen hbuf) _ r).
  - apply seq_NoDup.
  - apply in_seq. lia.
  - exact A.
  - unfold accepted. rewrite rejected_store_same; [reflexivity|]. nia.
  - intros i N. unfold accepted. rewrite rejected_store_other; auto.
Qed.

Lemma accepted_count_pos hbuf :
  0 < accepted_count lock hbuflen challen entries hbuf ->
  exists a, a < entries /\ rejected hbuf lock hbuflen challen a = false.
Proof.
  clear hbuflen_pos window_in_row. unfold accepted_count. intros P.
  destruct (filter (accepted lock hbuflen challen hbuf) (seq 0 entries)) as [|a l] eqn:E;
    [simpl in P; lia|].
  assert (I : In a (filter (accepted lock hbuflen challen hbuf) (seq 0 entries)))
    by (rewrite E; left; reflexivity).
  apply filter_In in I. destruct I as [I A]. apply in_seq in I.
  exists a. split; [lia|]. unfold accepted in A.
  apply negb_true_iff in A. exact A.
Qed.

End Selection.

Lemma fallback_scan_result hbuf lock hbuflen challen entries :
  0 < entries ->
  forall fuel j r, j < entries ->
    fallback_scan fuel hbuf lock hbuflen challen entries j = Some r ->
    r < entries /\ rejected hbuf lock hbuflen challen r = false.
Proof.
  intros E. induction fuel as [|fuel IH]; intros j r J; simpl;
    destruct (rejected hbuf lock hbuflen challen j) eqn:R;
    try discriminate; try (intros H; injection H as <-; auto).
  apply IH. apply Nat.mod_upper_bound. lia.
Qed.

Section MultiChallengeLoop.

Context {hdrs : Headers}.
Variable cfg : config.

Lemma multi_inv_add lock hbuf0 ch hbuf r :
  0 < Z.to_nat (challen ch + hlen ch) ->
  Z.to_nat (challen ch) + Z.to_nat (challen ch) <= Z.to_nat (challen ch + hlen ch) ->
  (passwords ch < otpw_multi cfg)%Z ->
  r < Z.to_nat (entries ch) ->
  rejected hbuf lock (Z.to_nat (challen ch + hlen ch)) (Z.to_nat (challen ch)) r
    = false ->
  multi_inv cfg lock hbuf0 ch hbuf ->
  multi_inv cfg lock hbuf0 (fst (add_password ch hbuf r)) (snd (add_password ch hbuf r)).
Proof.
  intros Hn Hw Hp Hr Ha [I1 [I2 [I3 [I4 [I5 [I6 I7]]]]]].
  unfold multi_inv, add_password. simpl.
  set (n := Z.to_nat (challen ch + hlen ch)) in *.
  set (c := Z.to_nat (challen ch)) in *.
  set (e := Z.to_nat (entries ch)) in *.
  set (p := Z.to_nat (passwords ch)) in *.
  assert (Pl : p < length (selection ch)) by (unfold p; lia).
  replace (Z.to_nat (passwords ch + 1)) with (S p) by (unfold p; lia).
  rewrite !store_length, firstn_store_snoc by exact Pl.
  assert (Nr : ~ In r (firstn p (selection ch))).
  { intros I. destruct (I6 r I) as [_ [_ R]]. congruence. }
  split; [lia|]. split; [exact I2|]. split; [exact I3|].
  split; [rewrite length_app, I4; simpl; lia|].
  split.
  { apply NoDup_app; [exact I5 | repeat constructor; simpl; tauto |].
    intros x Ix [<-|[]]. contradiction. }
  split.
  - intros j Ij. apply in_app_or in Ij. destruct Ij as [Ij | [<-|[]]].
    + destruct (I6 j Ij) as [J1 [J2 J3]]. repeat split; auto.
      rewrite rejected_store_other; auto. intros ->. contradiction.
    + repeat split; auto.
      * rewrite <- I7; auto.
      * apply rejected_store_same. rewrite I3. nia.
  - intros i Ie Ni.
    assert (i <> r) by (intros ->; apply Ni, in_or_app; right; left; reflexivity).
    rewrite rejected_store_other; auto.
    apply I7; auto. intros I. apply Ni, in_or_app. left. exact I.
Qed.

(** The loop keeps the invariant, and the sizes in the handle. *)
Lemma multi_challenge_inv lock hbuf0 n : forall fuel rbg ch hbuf k ch' hbuf' k',
  0 < Z.to_nat (challen ch + hlen ch) ->
  Z.to_nat (challen ch) + Z.to_nat (challen ch) <= Z.to_nat (challen ch + hlen ch) ->
  0 < Z.to_nat (entries ch) ->
  multi_inv cfg lock hbuf0 ch hbuf ->
  multi_challenge cfg n fuel rbg lock ch hbuf k = Some (ch', hbuf', k') ->
  multi_inv cfg lock hbuf0 ch' hbuf'
  /\ challen ch' = challen ch /\ hlen ch' = hlen ch /\ entries ch' = entries ch.
Proof.
  induction n as [|n IH]; intros fuel rbg ch hbuf k ch' hbuf' k' Hn Hw He I M.
  - simpl in M. injection M as <- <- <-. auto.
  - simpl in M.
    destruct ((passwords ch <? otpw_multi cfg)
              && (Z.of_nat (strlen (challenge ch)) <? challenge_room ch))%Z eqn:C;
      [|injection M as <- <- <-; auto].
    apply andb_true_iff in C. destruct C as [C _]. apply Z.ltb_lt in C.
    pose proof (random_scan_lt rbg hbuf lock (Z.to_nat (challen ch + hlen ch))
                  (Z.to_nat (challen ch)) (Z.to_nat (entries ch))
                  (Z.to_nat (entries ch) + (Z.to_nat (entries ch) + 0)) k He) as J.
    destruct (random_scan _ _ _ _ _ _ _ _) as [j k1]. simpl in J.
    destruct (fallback_scan _ _ _ _ _ _ j) as [r|] eqn:F; [|discriminate].
    destruct (fallback_scan_result _ _ _ _ _ He _ _ _ J F) as [Hr Ha].
    pose proof (multi_inv_add lock hbuf0 ch hbuf r Hn Hw C Hr Ha I) as I'.
    destruct (IH fuel rbg (fst (add_password ch hbuf r))
                (snd (add_password ch hbuf r)) k1 ch' hbuf' k' Hn Hw He I' M)
      as [R1 [R2 [R3 R4]]].
    split; [exact R1|]. simpl in R2, R3, R4. auto.
Qed.

(** What the multi challenge selects, when [challen + challen <=
    challen + hlen], so that the [challen] bytes compared with the lock
    lie within the row of the entry: distinct entries of the table that
    were unused when the file was read and whose compared bytes (the
    first [challen] bytes of the stored hash) differ from the lock.
    otpw_prepare does not check this relation of [challen] and [hlen];
    without it the bytes compared reach into the next row, whose first
    byte the loop overwrites. *)
Theorem multi_challenge_selects_accepted (n fuel : nat) (rbg : nat -> nat)
  (lock : bytes) (ch : struct_challenge) (hbuf : bytes) (k : nat)
  (ch' : struct_challenge) (hbuf' : bytes) (k' : nat) :
  let hbuflen := Z.to_nat (challen ch + hlen ch) in
  let c := Z.to_nat (challen ch) in
  let e := Z.to_nat (entries ch) in
  0 < hbuflen -> c + c <= hbuflen -> 0 < e ->
  passwords ch = 0%Z ->
  length (selection ch) = Z.to_nat (otpw_multi cfg) ->
  length hbuf = e * hbuflen ->
  multi_challenge cfg n fuel rbg lock ch hbuf k = Some (ch', hbuf', k') ->
  let sel := firstn (Z.to_nat (passwords ch')) (selection ch') in
  length sel = Z.to_nat (passwords ch')
  /\ NoDup sel
  /\ Forall (fun j => j < e
                      /\ nth (j * hbuflen) hbuf NUL <> HYPHEN
                      /\ strncmp0 (skipn (j * hbuflen + c) hbuf) lock c = false)
            sel.
Proof.
  intros hbuflen c e Hn Hw He Hp Hs Hl M sel.
  assert (I : multi_inv cfg lock hbuf ch hbuf).
  { unfold multi_inv. rewrite Hp. simpl.
    repeat split; auto; try lia; try constructor; intros; contradiction. }
  destruct (multi_challenge_inv lock hbuf n fuel rbg ch hbuf k ch' hbuf' k'
              Hn Hw He I M) as [[_ [_ [_ [I4 [I5 [I6 _]]]]]] [Ec [Eh Ee]]].
  rewrite Ec, Eh, Ee in I6.
  split; [exact I4|]. split; [exact I5|].
  apply Forall_forall. intros j Ij. destruct (I6 j Ij) as [J1 [J2 _]].
  unfold rejected in J2. apply orb_false_iff in J2. destruct J2 as [J2 J3].
  repeat split; auto.
  intros E. fold hbuflen in J2. rewrite E in J2. discriminate.
Qed.

(** When the loop of the multi challenge ends: if [challen + challen
    <= challen + hlen], so that the [challen] bytes compared with the
    lock lie within the row of the entry, and the test accepts at least
    as many entries as passwords are still to be added, the loop that
    generates the challenges ends, given [entries] steps for each
    fallback scan.  otpw_prepare does not check this relation of
    [challen] and [hlen]. *)
Theorem multi_challenge_terminates (n : nat) :
  forall (fuel : nat) (rbg : nat -> nat) (lock : bytes)
         (ch : struct_challenge) (hbuf : bytes) (k : nat),
  0 < Z.to_nat (challen ch + hlen ch) ->
  Z.to_nat (challen ch) + Z.to_nat (challen ch) <= Z.to_nat (challen ch + hlen ch) ->
  length hbuf = Z.to_nat (entries ch) * Z.to_nat (challen ch + hlen ch) ->
  Z.to_nat (entries ch) <= fuel ->
  n <= accepted_count lock (Z.to_nat (challen ch + hlen ch))
         (Z.to_nat (challen ch)) (Z.to_nat (entries ch)) hbuf ->
  exists r, multi_challenge cfg n fuel rbg lock ch hbuf k = Some r.
Proof.
  induction n as [|n IH]; intros fuel rbg lock ch hbuf k Hn Hw Hl Hf Hc.
  - eexists. reflexivity.
  - simpl.
    destruct ((passwords ch <? otpw_multi cfg)
              && (Z.of_nat (strlen (challenge ch)) <? challenge_room ch))%Z;
      [|eexists; reflexivity].
    destruct (accepted_count_pos lock (Z.to_nat (challen ch + hlen ch))
                (Z.to_nat (challen ch)) (Z.to_nat (entries ch)) hbuf)
      as [a [Ha Ra]]; [lia|].
    assert (He : 0 < Z.to_nat (entries ch)) by lia.
    pose proof (random_scan_lt rbg hbuf lock (Z.to_nat (challen ch + hlen ch))
                  (Z.to_nat (challen ch)) (Z.to_nat (entries ch))
                  (Z.to_nat (entries ch) + (Z.to_nat (entries ch) + 0)) k He) as J.
    destruct (random_scan _ _ _ _ _ _ _ _) as [j k1]. simpl in J.
    destruct (fallback_scan_distance hbuf lock _ _ _ a j Ha J Ra)
      as [d [r [D [F [Hr Rr]]]]].
    replace fuel with (d + (fuel - d)) by lia.
    rewrite (fallback_scan_more_fuel _ _ _ _ _ _ _ _ _ F).
    unfold add_password.
    apply IH; simpl; auto.
    + rewrite store_length. exact Hl.
    + lia.
    + pose proof (accepted_count_store lock _ _ _ Hn Hw hbuf r Hl Hr) as S.
      unfold accepted in S at 1. rewrite Rr in S. specialize (S eq_refl). lia.
Qed.

End MultiChallengeLoop.

Lemma multi_challenge_terminates_witness :
  exists r,
    multi_challenge (hdrs := demo_headers) default_config 3 10
    (fun k => 7 * k + 4) (B "ABC")
      multi_start_handle (table_hbuf 3 12 demo_lines) 0 = Some r.
Proof.
  refine (multi_challenge_terminates (hdrs := demo_headers) default_config 3 10
            (fun k => 7 * k + 4) (B "ABC") multi_start_handle
            (table_hbuf 3 12 demo_lines) 0 _ _ _ _ _).
  - simpl. lia.
  - simpl. lia.
  - reflexivity.
  - simpl. lia.
  - vm_compute. lia.
Defined.

Lemma multi_challenge_selects_accepted_witness :
  let sel := firstn (Z.to_nat (passwords demo_multi_handle))
               (selection demo_multi_handle) in
  sel = [4; 1; 8]
  /\ (length sel = Z.to_nat (passwords demo_multi_handle)
      /\ NoDup sel
      /\ Forall (fun j => j < 10
                   /\ nth (j * 15) (table_hbuf 3 12 demo_lines) NUL <> HYPHEN
                   /\ strncmp0 (skipn (j * 15 + 3) (table_hbuf 3 12 demo_lines))
                        (B "ABC") 3 = false)
                sel).
Proof.
  cbv zeta. split; [vm_compute; reflexivity|].
  refine (multi_challenge_selects_accepted (hdrs := demo_headers) default_config
            3 10 (fun k => 7 * k + 4) (B "ABC") multi_start_handle
            (table_hbuf 3 12 demo_lines) 0 demo_multi_handle
            (match demo_multi with Some (_, hb, _) => hb | None => [] end)
            (match demo_multi with Some (_, _, k) => k | None => 0 end)
            _ _ _ _ _ _ _).
  - simpl. lia.
  - simpl. lia.
  - simpl. lia.
  - reflexivity.
  - reflexivity.
  - reflexivity.
  - vm_compute. reflexivity.
Defined.

(** ** What otpw_verify leaves of the ids and of the lock *)

Lemma sys_unlink_dir_rw w : dir_rw (snd (sys_unlink w)) = dir_rw w.
Proof.
  unfold sys_unlink. destruct (lock w); [reflexivity| |];
    destruct (dir_rw w) eqn:D; simpl; auto.
Qed.

Lemma sys_unlink_lock w :
  lock (snd (sys_unlink w)) = if dir_rw w then NoLock else lock w.
Proof.
  unfold sys_unlink. destruct (lock w) eqn:E; simpl.
  - rewrite E. destruct (dir_rw w); reflexivity.
  - destruct (dir_rw w) eqn:D; simpl; auto.
  - destruct (dir_rw w) eqn:D; simpl; auto.
Qed.

Lemma cleanup_world_ids ch f old w :
  euid (cleanup_world ch f old w)
  = match old with Some (ou, _) => ou | None => euid w end
  /\ egid (cleanup_world ch f old w)
     = match old with Some (_, og) => og | None => egid w end.
Proof.
  unfold cleanup_world.
  destruct old as [[ou og]|]; [split; reflexivity|].
  destruct (locked ch); [|destruct f; split; reflexivity].
  destruct (sys_unlink_ids
              match f with Some s => set_pwfile (data s) w | None => w end)
    as [A B].
  rewrite A, B. destruct f; split; reflexivity.
Qed.

Lemma cleanup_world_lock ch f old w :
  lock (cleanup_world ch f old w)
  = if locked ch && dir_rw w then NoLock else lock w.
Proof.
  unfold cleanup_world.
  assert (X : forall w0, lock match old with
                     | Some (olduid, oldgid) => setegid oldgid (seteuid olduid w0)
                     | None => w0 end = lock w0)
    by (intros; destruct old as [[? ?]|]; reflexivity).
  rewrite X. destruct (locked ch); simpl.
  - rewrite sys_unlink_lock. destruct f; reflexivity.
  - destruct f; reflexivity.
Qed.

Lemma overwrite_locked n : forall i ch f,
  locked (snd (fst (overwrite n i ch f))) = locked ch
  /\ passwords (snd (fst (overwrite n i ch f))) = passwords ch.
Proof.
  induction n as [|n IH]; intros i ch f; simpl; [auto|].
  destruct (selected ch i).
  - destruct (IH (S i) (with_remaining (remaining ch - 1) ch)
                (fputc NL (fputc_n (Z.to_nat (challen ch + hlen ch)) HYPHEN f)))
      as [A B].
    rewrite A, B. auto.
  - destruct (fgets 81 f) as [[l f']|]; [apply IH | auto].
Qed.

Section VerifySystemState.
Context {hdrs : Headers}.
Variable cfg : config.

(** otpw_verify leaves the effective uid and gid as it found them,
    whatever the handle, the response and the verdict. *)
Theorem verify_restores_ids (ch : struct_challenge) (pw : option bytes)
  (w : world) (r : otpw_result * struct_challenge * world) :
  otpw_verify cfg ch pw w = Some r ->
  euid (world_after r) = euid w /\ egid (world_after r) = egid w.
Proof.
  unfold otpw_verify, verify_writefail.
  repeat match goal with
         | |- context [match ?x with _ => _ end] => destruct x
         end;
    try discriminate;
    intros E; apply verify_cleanup_some in E;
    destruct E as [_ [_ [_ [_ E]]]]; rewrite E;
    apply cleanup_world_ids.
Qed.

(** A call of otpw_verify on a handle that does not hold the lock --
    a multi challenge, or locking switched off -- leaves the lock as
    it is: the lock of another login is never removed. *)
Theorem verify_unlocked_keeps_lock (ch : struct_challenge) (pw : option bytes)
  (w : world) (r : otpw_result * struct_challenge * world) :
  otpw_verify cfg ch pw w = Some r ->
  locked ch = false ->
  lock (world_after r) = lock w.
Proof.
  unfold otpw_verify, verify_writefail.
  pose proof (overwrite_locked (Z.to_nat (entries ch)) 0 ch) as O.
  repeat match goal with
         | |- context [match ?x with _ => _ end] => destruct x eqn:?
         end;
    try discriminate;
    intros E L; apply verify_cleanup_some in E;
    destruct E as [_ [_ [_ [_ E]]]]; rewrite E, cleanup_world_lock;
    repeat match goal with
           | Q : overwrite _ _ _ ?f = _ |- _ =>
               specialize (O f); rewrite Q in O; simpl in O; destruct O as [O _]
           end;
    simpl; rewrite ?O, ?L; reflexivity.
Qed.

(** A call of otpw_verify on a handle that holds the lock, in a
    directory it can write, removes the lock whenever the verdict is
    not OTPW_OK (and for any verdict if the handle asks for more than
    one password). *)
Theorem verify_releases_lock (ch : struct_challenge) (pw : option bytes)
  (w : world) (r : otpw_result * struct_challenge * world) :
  otpw_verify cfg ch pw w = Some r ->
  locked ch = true ->
  dir_rw w = true ->
  verdict r <> OTPW_OK \/ passwords ch <> 1%Z ->
  lock (world_after r) = NoLock.
Proof.
  unfold otpw_verify, verify_writefail.
  pose proof (overwrite_locked (Z.to_nat (entries ch)) 0 ch) as O.
  repeat match goal with
         | |- context [match ?x with _ => _ end] => destruct x eqn:?
         end;
    try discriminate;
    intros E L D N; apply verify_cleanup_some in E;
    destruct E as [V [_ [_ [_ E]]]]; rewrite E, cleanup_world_lock;
    repeat match goal with
           | Q : overwrite _ _ _ ?f = _ |- _ =>
               specialize (O f); rewrite Q in O; simpl in O
           end;
    simpl; rewrite ?D;
    try (rewrite L; reflexivity);
    try (destruct O as [O1 O2]; rewrite ?O1, ?L; try reflexivity).
  all: try (destruct N as [N|N]; [congruence|]).
  all: exfalso;
    repeat match goal with
           | H : (_ =? 1)%Z = true |- _ => apply Z.eqb_eq in H
           end;
    congruence.
Qed.
End VerifySystemState.

Lemma verify_restores_ids_witness :
  exists r,
    demo_verify locked_handle "fooaaaaaaaa" locked_world = Some r
    /\ euid (world_after r) = euid locked_world
    /\ egid (world_after r) = egid locked_world.
Proof.
  eexists. split; [vm_compute; reflexivity|].
  refine (verify_restores_ids (hdrs := demo_headers) default_config
            locked_handle (Some (B "fooaaaaaaaa")) locked_world _ _).
  vm_compute. reflexivity.
Defined.

Lemma verify_unlocked_keeps_lock_witness :
  locked demo_multi_handle = false
  /\ exists r,
       demo_verify demo_multi_handle "foo" contended_world = Some r
       /\ lock (world_after r) = lock contended_world.
Proof.
  split; [reflexivity|].
  eexists. split; [vm_compute; reflexivity|].
  refine (verify_unlocked_keeps_lock (hdrs := demo_headers) default_config
            demo_multi_handle (Some (B "foo")) contended_world _ _ eq_refl).
  vm_compute. reflexivity.
Defined.

Lemma verify_releases_lock_witness :
  locked locked_handle = true
  /\ dir_rw locked_world = true
  /\ exists r,
       demo_verify locked_handle "fooaaaaaaab" locked_world = Some r
       /\ verdict r = OTPW_WRONG
       /\ lock (world_after r) = NoLock.
Proof.
  split; [reflexivity|]. split; [reflexivity|].
  eexists. split; [vm_compute; reflexivity|].
  split; [reflexivity|].
  refine (verify_releases_lock (hdrs := demo_headers) default_config
            locked_handle (Some (B "fooaaaaaaab")) locked_world _ _
            eq_refl eq_refl (or_introl _)).
  - vm_compute. reflexivity.
  - discriminate.
Defined.

(** ** The verdict *)

Lemma skip_deleted_le s : forall d, length (skip_deleted d s) <= length s.
Proof.
  induction s as [|a s IH]; intros d; simpl; [lia|].
  destruct (is_bs_del a); [specialize (IH (S d)); lia|].
  destruct d; simpl; [lia|]. specialize (IH d); lia.
Qed.

(** Filling a slot takes at least one character off the input. *)
Lemma fill_slot_shorter : forall k rs,
  length rs <= k -> length (snd (fill_slot rs)) <= length rs - 1.
Proof.
  induction k as [|k IH]; intros rs L.
  - destruct rs; [|simpl in L; lia]. rewrite fill_slot_step. simpl. lia.
  - rewrite fill_slot_step.
    pose proof (skip_deleted_le rs 0) as S.
    destruct (skip_deleted 0 rs) as [|c rs'] eqn:E; [simpl; lia|].
    simpl in S.
    destruct (canon c); [simpl; lia|].
    specialize (IH rs'). lia.
Qed.

Lemma scan_row_count n : forall rs acc,
  let '(n', rs', _) := scan_row n rs acc in
  (n - n') + length rs' <= length rs /\ n' <= n /\ (0 < n' -> rs' = []).
Proof.
  induction n as [|n IH]; intros rs acc.
  - simpl. split; [lia|]. split; [lia|]. intros H; lia.
  - destruct rs as [|c t].
    + simpl. split; [lia|]. split; [lia|]. auto.
    + simpl scan_row.
      pose proof (fill_slot_shorter (length (c :: t)) (c :: t) (le_n _)) as F.
      destruct (fill_slot (c :: t)) as [o rs'] eqn:E. simpl in F.
      specialize (IH rs' (slot o :: acc)).
      destruct (scan_row n rs' (slot o :: acc)) as [[n' rs''] acc'].
      destruct IH as [I1 [I2 I3]]. simpl length.
      split; [lia|]. split; [lia|]. exact I3.
Qed.

Lemma scan_passwords_nil pwlen m j1 rows :
  scan_passwords pwlen m j1 [] rows = (m, j1, [], rows).
Proof. destruct m; reflexivity. Qed.

Lemma scan_passwords_short pwlen m : forall j1 rs rows,
  length rs < m * pwlen ->
  let '(m', j1', _, _) := scan_passwords pwlen m j1 rs rows in
  0 < m' \/ 0 < j1'.
Proof.
  induction m as [|m IH]; intros j1 rs rows L; [simpl in L; lia|].
  destruct rs as [|c t]; [simpl; left; lia|].
  simpl scan_passwords.
  pose proof (scan_row_count pwlen (c :: t) []) as R.
  destruct (scan_row pwlen (c :: t) []) as [[n rs'] acc].
  destruct R as [R1 [R2 R3]].
  destruct (Nat.eq_dec n 0) as [Z|NZ].
  - subst n. apply IH. simpl in L. simpl length in R1. lia.
  - rewrite (R3 ltac:(lia)). rewrite scan_passwords_nil. right. lia.
Qed.

(** A response with fewer characters than the passwords asked for is
    too short for the scan. *)
Lemma scan_response_short_input passwords pwlen pw :
  length (cstr pw) < passwords * pwlen ->
  scan_response passwords pwlen pw = None.
Proof.
  intros L. unfold scan_response.
  pose proof (scan_passwords_short pwlen passwords 1 (rev (cstr pw)) []) as S.
  rewrite length_rev in S. specialize (S L).
  destruct (scan_passwords pwlen passwords 1 (rev (cstr pw)) [])
    as [[[m j1] rs] rows].
  destruct S as [S|S]; apply Nat.ltb_lt in S; rewrite S;
    [reflexivity | rewrite orb_true_r; reflexivity].
Qed.

Section VerifyVerdict.
Context {hdrs : Headers}.
Variable cfg : config.

(** A response with fewer characters than the passwords asked for
    take is verified OTPW_WRONG, and the password file and [remaining]
    are left as they are. *)
Theorem verify_short_response_wrong (ch : struct_challenge) (pw : bytes)
  (w : world) :
  (1 <= passwords ch <= otpw_multi cfg)%Z ->
  (0 <= pwlen ch)%Z ->
  heap ch <> Freed ->
  length (cstr pw) < Z.to_nat (passwords ch) * Z.to_nat (pwlen ch) ->
  exists r,
    otpw_verify cfg ch (Some pw) w = Some r
    /\ verdict r = OTPW_WRONG
    /\ pwfile (world_after r) = pwfile w
    /\ remaining (handle_after r) = remaining ch.
Proof.
  intros Hp Hl Hh L.
  unfold otpw_verify.
  replace ((passwords ch <? 1) || (otpw_multi cfg <? passwords ch))%Z
    with false
    by (symmetry; apply orb_false_iff; split; apply Z.ltb_ge; lia).
  replace (pwlen ch <? 0)%Z with false by (symmetry; apply Z.ltb_ge; lia).
  rewrite (scan_response_short_input _ _ pw L).
  unfold verify_cleanup, otpw_free.
  change (heap (with_passwords 0 ch)) with (heap ch).
  destruct (heap ch); [| |congruence];
    (eexists; split; [reflexivity|]; split; [reflexivity|];
     split; [|reflexivity];
     unfold world_after; cbn [snd]; rewrite cleanup_world_pwfile; reflexivity).
Qed.

(** The verdict of otpw_verify is decided by the handle and the
    response alone: OTPW_ERROR without a response, for a handle that
    asks for fewer than 1 or more than [otpw_multi] passwords, or with
    a negative [pwlen]; otherwise OTPW_OK if every entered password
    hash-matches, and OTPW_WRONG if not.  Nothing that happens to the
    password file or the lock on the way changes it. *)
Theorem verify_verdict_decided_by_response (ch : struct_challenge)
  (pw : option bytes) (w : world)
  (r : otpw_result * struct_challenge * world) :
  otpw_verify cfg ch pw w = Some r ->
  verdict r =
  match pw with
  | None => OTPW_ERROR
  | Some p =>
      if ((passwords ch <? 1) || (otpw_multi cfg <? passwords ch))%Z
      then OTPW_ERROR
      else if (pwlen ch <? 0)%Z then OTPW_ERROR
      else if entered_passwords_match ch p then OTPW_OK
      else OTPW_WRONG
  end.
Proof.
  unfold otpw_verify, verify_writefail, entered_passwords_match.
  repeat match goal with
         | |- context [match ?x with _ => _ end] => destruct x eqn:?
         end;
    try discriminate;
    intros E; apply verify_cleanup_some in E; destruct E as [E _];
    simpl in *; congruence.
Qed.

End VerifyVerdict.

Lemma verify_short_response_wrong_witness :
  exists r,
    demo_verify locked_handle "fooaaaa" locked_world = Some r
    /\ verdict r = OTPW_WRONG
    /\ pwfile (world_after r) = pwfile locked_world
    /\ remaining (handle_after r) = remaining locked_handle.
Proof.
  refine (verify_short_response_wrong (hdrs := demo_headers) default_config
            locked_handle (B "fooaaaa") locked_world _ _ _ _).
  - simpl. lia.
  - simpl. lia.
  - discriminate.
  - simpl. lia.
Defined.

Lemma verify_verdict_decided_by_response_witness :
  exists r,
    demo_verify locked_handle "fooaaaaaaaa" readonly_world = Some r
    /\ verdict r =
       if entered_passwords_match (hdrs := demo_headers) locked_handle
            (B "fooaaaaaaaa")
       then OTPW_OK else OTPW_WRONG.
Proof.
  eexists. split; [vm_compute; reflexivity|].
  refine (verify_verdict_decided_by_response (hdrs := demo_headers)
            default_config locked_handle (Some (B "fooaaaaaaaa"))
            readonly_world _ _).
  vm_compute. reflexivity.
Defined.

(** ** What otpw_prepare changes in the system *)

Lemma same_files_refl w : same_files w w.
Proof. repeat split. Qed.

Lemma same_files_trans w1 w2 w3 :
  same_files w1 w2 -> same_files w2 w3 -> same_files w1 w3.
Proof.
  intros [A1 [A2 [A3 A4]]] [B1 [B2 [B3 B4]]].
  repeat split; congruence.
Qed.

Lemma same_files_unlink w : same_files w (snd (sys_unlink w)).
Proof.
  unfold sys_unlink. destruct (lock w); [repeat split| |];
    destruct (dir_rw w) eqn:D; repeat split; simpl; auto.
Qed.

Lemma same_files_symlink t w : same_files w (snd (sys_symlink t w)).
Proof.
  unfold sys_symlink. destruct (lock w); [|repeat split|repeat split].
  destruct (dir_rw w) eqn:D; repeat split; simpl; auto.
Qed.

Lemma same_files_lstat w : same_files w (snd (sys_lstat w)).
Proof. unfold sys_lstat. destruct (lock w); repeat split. Qed.

Lemma same_files_readlink n w : same_files w (snd (sys_readlink n w)).
Proof. unfold sys_readlink. destruct (lock w); repeat split. Qed.

Lemma ids_unlink w :
  euid (snd (sys_unlink w)) = euid w /\ egid (snd (sys_unlink w)) = egid w.
Proof. apply sys_unlink_ids. Qed.

Section PrepareSystemState.
Context {hdrs : Headers}.
Variable cfg : config.

(** The lock loop changes nothing but the lock and [errno]; when it
    gets the lock, the lock is a link to [target] made now. *)
Lemma lock_loop_world rounds target : forall w,
  same_files w (snd (lock_loop cfg rounds target w))
  /\ (fst (lock_loop cfg rounds target w) = Locked ->
      lock (snd (lock_loop cfg rounds target w)) = Symlink target (now w)).
Proof.
  induction rounds as [|rounds IH]; intros w.
  - simpl. split; [apply same_files_refl | discriminate].
  - simpl.
    pose proof (same_files_symlink target w) as S1.
    destruct (sys_symlink target w) as [ok w1] eqn:E1. simpl in S1.
    destruct ok.
    + simpl. split; [exact S1|]. intros _.
      unfold sys_symlink in E1. destruct (lock w); try discriminate.
      destruct (dir_rw w); try discriminate.
      injection E1 as <-. reflexivity.
    + destruct (negb (errno_eqb (errno w1) EEXIST)).
      * simpl. split; [exact S1 | discriminate].
      * pose proof (same_files_lstat w1) as S2.
        destruct (sys_lstat w1) as [st w2] eqn:E2. simpl in S2.
        destruct st as [mtime|].
        -- destruct (_ && _)%bool.
           ++ destruct (IH (snd (sys_unlink w2))) as [I1 I2].
              split.
              ** eapply same_files_trans; [exact S1|].
                 eapply same_files_trans; [exact S2|].
                 eapply same_files_trans; [apply same_files_unlink | exact I1].
              ** intros L. rewrite (I2 L). f_equal.
                 destruct S1 as [_ [_ [_ N1]]]. destruct S2 as [_ [_ [_ N2]]].
                 destruct (same_files_unlink w2) as [_ [_ [_ N3]]].
                 congruence.
           ++ simpl. split; [|discriminate].
              eapply same_files_trans; [exact S1 | exact S2].
        -- destruct (errno_eqb (errno w2) ENOENT).
           ++ destruct (IH w2) as [I1 I2]. split.
              ** eapply same_files_trans; [exact S1|].
                 eapply same_files_trans; [exact S2 | exact I1].
              ** intros L. rewrite (I2 L). f_equal.
                 destruct S1 as [_ [_ [_ N1]]]. destruct S2 as [_ [_ [_ N2]]].
                 congruence.
           ++ simpl. split; [|discriminate].
              eapply same_files_trans; [exact S1 | exact S2].
Qed.


Lemma prepare_contended_world fuel rbg lock0 ch hbuf w ch' w' :
  prepare_contended cfg fuel rbg lock0 ch hbuf w = Some (ch', w') ->
  same_files w w'.
Proof.
  unfold prepare_contended.
  pose proof (same_files_readlink 80 w) as S1.
  destruct (sys_readlink 80 w) as [[i buf] w1]. simpl in S1.
  assert (S2 : same_files w (snd (sys_unlink w1)))
    by (eapply same_files_trans; [exact S1 | apply same_files_unlink]).
  destruct (0 <? i)%Z.
  - destruct (negb _);
      (destruct (_ || _)%bool;
       [intros E; injection E as <- <-; assumption|]);
      (destruct (multi_challenge _ _ _ _ _ _ _ _) as [[[c1 h1] k1]|];
       [|discriminate]; intros E; injection E as <- <-; assumption).
  - destruct (negb _); [intros E; injection E as <- <-; assumption|].
    destruct (_ || _)%bool; [intros E; injection E as <- <-; assumption|].
    destruct (multi_challenge _ _ _ _ _ _ _ _) as [[[c1 h1] k1]|];
      [|discriminate]; intros E; injection E as <- <-; assumption.
Qed.

Lemma prepare_cleanup_world ch ou og w0 w :
  same_files w0 w ->
  same_files w0 (snd (prepare_cleanup ch (Some (ou, og)) w))
  /\ euid (snd (prepare_cleanup ch (Some (ou, og)) w)) = ou
  /\ egid (snd (prepare_cleanup ch (Some (ou, og)) w)) = og
  /\ lock (snd (prepare_cleanup ch (Some (ou, og)) w)) = lock w.
Proof. intros [A [B [C D]]]. repeat split; assumption. Qed.

Lemma otpw_prepare_world fuel rbg lock0 ch0 user flags0 w ch' w' :
  otpw_prepare cfg fuel rbg lock0 ch0 user flags0 w = Some (ch', w') ->
  same_files w w' /\ euid w' = euid w /\ egid w' = egid w.
Proof.
  unfold otpw_prepare.
  destruct user as [u|];
    [|intros E; injection E as <- <-; repeat split].
  cbv zeta.
  set (ch1 := with_names cfg u (init_challenge cfg flags0 ch0)).
  set (w1 := seteuid (uid ch1) (setegid (gid ch1) w)).
  assert (S1 : same_files w w1) by (repeat split).
  assert (Fin : forall c w2 c' w'',
             same_files w w2 ->
             Some (prepare_cleanup c (Some (euid w, egid w)) w2) = Some (c', w'') ->
             same_files w w'' /\ euid w'' = euid w /\ egid w'' = egid w).
  { intros c w2 c' w'' S E. injection E as <- <-.
    destruct (prepare_cleanup_world c (euid w) (egid w) w w2 S) as [A [B [C _]]].
    auto. }
  change (pwfile w1) with (pwfile w).
  destruct (pwfile w) as [d|]; [|apply Fin; exact S1].
  destruct (header_line cfg _) as [[line f]|]; [|apply Fin; exact S1].
  destruct (negb (length _ =? 4)); [apply Fin; exact S1|].
  destruct (negb (header_in_range cfg _)); [apply Fin; exact S1|].
  destruct (read_entries _ _ _ _ _ _ _) as [rem [[hbuf jo]|]];
    [|apply Fin; exact S1].
  destruct (rem <? 1)%Z; [apply Fin; exact S1|].
  destruct jo as [j|]; [|apply Fin; exact S1].
  unfold prepare_locking.
  destruct (negb _); [apply Fin; exact S1|].
  match goal with
  | |- context [lock_loop cfg 5 ?t ?x] =>
      destruct (lock_loop_world 5 t x) as [S2 _];
      destruct (lock_loop cfg 5 t x) as [o w2]
  end.
  assert (S3 : same_files w w2) by exact (same_files_trans _ _ _ S1 S2).
  destruct o; try (apply Fin; exact S3).
  match goal with
  | |- context [prepare_contended cfg fuel rbg lock0 ?c ?h w2] =>
      destruct (prepare_contended cfg fuel rbg lock0 c h w2)
        as [[c3 w3]|] eqn:E3; [|discriminate]
  end.
  apply prepare_contended_world in E3.
  apply Fin. exact (same_files_trans _ _ _ S3 E3).
Qed.

(** otpw_prepare changes nothing in the system but the lock (and
    [errno]): the password file is only read, the access rights are
    as before, and the effective ids are those from before the call. *)
Theorem prepare_touches_only_lock (fuel : nat) (rbg : nat -> nat)
  (lock0 : bytes) (ch0 : struct_challenge) (user : option passwd)
  (flags0 : Z) (w : world) (ch' : struct_challenge) (w' : world) :
  otpw_prepare cfg fuel rbg lock0 ch0 user flags0 w = Some (ch', w') ->
  pwfile w' = pwfile w /\ pwfile_rw w' = pwfile_rw w
  /\ dir_rw w' = dir_rw w
  /\ euid w' = euid w /\ egid w' = egid w.
Proof.
  intros E. destruct (otpw_prepare_world _ _ _ _ _ _ _ _ _ E)
    as [[A [B [C D]]] [F G]].
  repeat split; assumption.
Qed.

End PrepareSystemState.

Lemma prepare_touches_only_lock_witness :
  exists ch' w',
    demo_prepare 0 (fun k => k) contended_world = Some (ch', w')
    /\ pwfile w' = pwfile contended_world
    /\ pwfile_rw w' = pwfile_rw contended_world
    /\ dir_rw w' = dir_rw contended_world
    /\ euid w' = euid contended_world
    /\ egid w' = egid contended_world.
Proof.
  eexists; eexists. split; [vm_compute; reflexivity|].
  refine (prepare_touches_only_lock (hdrs := demo_headers) default_config
            0 (fun k => k) [] blank_challenge (Some demo_user) 0
            contended_world _ _ _).
  vm_compute. reflexivity.
Defined.

(** ** The handle that otpw_prepare returns *)

Lemma cstr_length_le s : length (cstr s) <= length s.
Proof.
  induction s as [|c s IH]; simpl; [lia|].
  destruct (Ascii.eqb c NUL); simpl; lia.
Qed.

Lemma strncpy_length src n : length (strncpy src n) <= n.
Proof.
  unfold strncpy. pose proof (cstr_length_le (firstn n src)) as L.
  rewrite length_firstn in L. lia.
Qed.

Lemma cstr_prefix l : exists rest, l = cstr l ++ rest.
Proof.
  induction l as [|c l [rest IH]]; simpl; [exists []; reflexivity|].
  destruct (Ascii.eqb c NUL).
  - exists (c :: l). reflexivity.
  - exists rest. simpl. rewrite <- IH. reflexivity.
Qed.

(** A line of [n + 1] characters before its NUL starts with [n]
    characters that are not NUL. *)
Lemma strlen_firstn l n :
  strlen l = n + 1 ->
  forallb nonnul (firstn n l) = true /\ length (firstn n l) = n.
Proof.
  unfold strlen. intros L. destruct (cstr_prefix l) as [rest E].
  assert (F : firstn n l = firstn n (cstr l)).
  { rewrite E at 1. rewrite firstn_app.
    replace (n - length (cstr l)) with 0 by lia. simpl. apply app_nil_r. }
  rewrite F. split.
  - apply forallb_firstn, cstr_is_nonnul.
  - rewrite length_firstn. lia.
Qed.

Lemma forallb_store_hyphen hbuf : forall i,
  forallb nonnul hbuf = true -> forallb nonnul (store hbuf i HYPHEN) = true.
Proof.
  induction hbuf as [|c t IH]; intros i H; [reflexivity|].
  simpl in H. apply andb_true_iff in H. destruct H as [H1 H2].
  destruct i; simpl.
  - rewrite H2. reflexivity.
  - rewrite H1, IH; auto.
Qed.

(** A label copied from within a table free of NUL is not empty. *)
Lemma strncpy_row hbuf k c :
  forallb nonnul hbuf = true -> k < length hbuf -> 0 < c ->
  strncpy (skipn k hbuf) c <> [].
Proof.
  intros N K C. unfold strncpy.
  assert (N' : forallb nonnul (skipn k hbuf) = true).
  { rewrite <- (firstn_skipn k hbuf) in N. rewrite forallb_app in N.
    apply andb_true_iff in N. tauto. }
  assert (L : 0 < length (skipn k hbuf)) by (rewrite length_skipn; lia).
  destruct (skipn k hbuf) as [|x t]; [simpl in L; lia|].
  destruct c; [lia|]. simpl firstn. simpl in N'.
  apply andb_true_iff in N'. destruct N' as [Nx _].
  simpl. unfold nonnul in Nx. apply negb_true_iff in Nx. rewrite Nx.
  discriminate.
Qed.

Lemma read_entries_inv n : forall i hbuflen f hbuf rem j rem' hbuf' jo,
  read_entries n i hbuflen f hbuf rem j = (rem', Some (hbuf', jo)) ->
  forallb nonnul hbuf = true -> length hbuf = i * hbuflen ->
  (forall k, j = Some k -> k < i) ->
  forallb nonnul hbuf' = true /\ length hbuf' = (i + n) * hbuflen
  /\ (forall k, jo = Some k -> k < i + n).
Proof.
  induction n as [|n IH]; intros i hbuflen f hbuf rem j rem' hbuf' jo E N L J.
  - simpl in E. injection E as <- <- <-. rewrite Nat.add_0_r.
    split; [exact N|]. split; [exact L|]. exact J.
  - simpl in E.
    destruct (fgets 81 f) as [[line f']|]; [|discriminate].
    destruct (strlen line =? hbuflen + 1) eqn:S; [|discriminate].
    apply Nat.eqb_eq in S. simpl negb in E. cbv iota in E.
    destruct (strlen_firstn line hbuflen S) as [F1 F2].
    apply IH in E.
    + destruct E as [E1 [E2 E3]]. split; [exact E1|].
      split; [rewrite E2; lia|]. intros k K. specialize (E3 k K). lia.
    + rewrite forallb_app, N, F1. reflexivity.
    + rewrite length_app, L, F2. lia.
    + intros k K.
      destruct (negb (Ascii.eqb (hd NUL line) HYPHEN)).
      * destruct j as [j0|].
        -- specialize (J k K). lia.
        -- injection K as <-. lia.
      * specialize (J k K). lia.
Qed.

Section PrepareResult.
Context {hdrs : Headers}.
Variable cfg : config.

(** Adding a password keeps the shape of the challenge. *)
Lemma add_password_shape ch hbuf j :
  (1 <= challen ch)%Z ->
  (passwords ch < otpw_multi cfg)%Z ->
  forallb nonnul hbuf = true ->
  j * Z.to_nat (challen ch + hlen ch) < length hbuf ->
  challenge_shape cfg ch ->
  challenge_shape cfg (fst (add_password ch hbuf j)).
Proof.
  intros C P N J S. unfold add_password. cbv zeta. simpl fst.
  unfold challenge_shape. simpl.
  set (label := strncpy (skipn (j * Z.to_nat (challen ch + hlen ch)) hbuf)
                        (Z.to_nat (challen ch))).
  assert (L1 : label <> []) by (apply strncpy_row; auto; lia).
  assert (L2 : length label <= Z.to_nat (challen ch))
    by apply strncpy_length.
  right.
  destruct S as [[S1 S2] | [[S1 S1'] [S2 S3]]].
  - rewrite S1, S2. simpl app. split; [lia|]. split; [exact L1|]. lia.
  - replace (passwords ch =? 0)%Z with false by (symmetry; apply Z.eqb_neq; lia).
    split; [lia|]. split.
    + intros E. apply app_eq_nil in E. destruct E as [E _]. contradiction.
    + rewrite !length_app. simpl length. nia.
Qed.

Lemma multi_challenge_shape n : forall fuel rbg lock ch hbuf k ch' hbuf' k',
  (1 <= challen ch)%Z -> (0 <= hlen ch)%Z -> 0 < Z.to_nat (entries ch) ->
  forallb nonnul hbuf = true ->
  length hbuf = Z.to_nat (entries ch) * Z.to_nat (challen ch + hlen ch) ->
  challenge_shape cfg ch ->
  multi_challenge cfg n fuel rbg lock ch hbuf k = Some (ch', hbuf', k') ->
  challenge_shape cfg ch'
  /\ locked ch' = locked ch /\ heap ch' = heap ch /\ pwlen ch' = pwlen ch
  /\ challen ch' = challen ch /\ entries ch' = entries ch
  /\ hlen ch' = hlen ch /\ remaining ch' = remaining ch.
Proof.
  induction n as [|n IH]; intros fuel rbg lock ch hbuf k ch' hbuf' k' C H E N L S M.
  - simpl in M. injection M as <- <- <-. repeat split; auto.
  - simpl in M.
    destruct ((passwords ch <? otpw_multi cfg)
              && (Z.of_nat (strlen (challenge ch)) <? challenge_room ch))%Z
      eqn:G; [|injection M as <- <- <-; repeat split; auto].
    apply andb_true_iff in G. destruct G as [G _]. apply Z.ltb_lt in G.
    pose proof (random_scan_lt rbg hbuf lock (Z.to_nat (challen ch + hlen ch))
                  (Z.to_nat (challen ch)) (Z.to_nat (entries ch))
                  (Z.to_nat (entries ch) + (Z.to_nat (entries ch) + 0)) k E) as J.
    destruct (random_scan _ _ _ _ _ _ _ _) as [j k1]. simpl in J.
    destruct (fallback_scan _ _ _ _ _ _ _) as [r|] eqn:F; [|discriminate].
    destruct (fallback_scan_result _ _ _ _ _ E _ _ _ J F) as [Hr _].
    assert (R : r * Z.to_nat (challen ch + hlen ch) < length hbuf).
    { rewrite L. apply Nat.mul_lt_mono_pos_r; [lia | exact Hr]. }
    pose proof (add_password_shape ch hbuf r C G N R S) as S'.
    match type of M with
    | multi_challenge _ _ _ _ _ ?c ?h _ = _ =>
        set (ch1 := c) in *; set (hbuf1 := h) in *
    end.
    change (challenge_shape cfg ch1) in S'.
    assert (N1 : forallb nonnul hbuf1 = true)
      by (apply forallb_store_hyphen; exact N).
    assert (L1 : length hbuf1
                 = Z.to_nat (entries ch1) * Z.to_nat (challen ch1 + hlen ch1))
      by (unfold hbuf1; rewrite store_length; exact L).
    destruct (IH fuel rbg lock ch1 hbuf1 k1 ch' hbuf' k' C H E N1 L1 S' M)
      as [M0 [M1 [M2 [M3 [M4 [M5 [M6 M7]]]]]]].
    repeat split; assumption.
Qed.

Lemma shape_result w ch w' :
  challenge_shape cfg ch ->
  header_fields_ok cfg ch ->
  heap ch = Allocated ->
  (locked ch = true ->
   passwords ch = 1%Z /\ lock w' = Symlink (challenge ch) (now w)) ->
  (challenge ch = [] -> locked ch = false) ->
  forall old w2, lock (snd (prepare_cleanup ch old w2)) = lock w' ->
  prepare_result cfg w (fst (prepare_cleanup ch old w2))
                 (snd (prepare_cleanup ch old w2)).
Proof.
  intros S Hf Ha Hl He old w2 Lk. unfold prepare_result.
  destruct S as [[S1 S2] | [[S1 S1'] [S2 S3]]].
  - left. unfold failed_handle, prepare_cleanup. simpl. rewrite S2.
    repeat split; auto.
  - right. unfold prepare_cleanup at 1 2 3 4 5 6. simpl fst.
    assert (Hh : heap (with_heap match challenge ch with
                                 | [] => Freed
                                 | _ :: _ => heap ch
                                 end ch) = Allocated).
    { simpl. destruct (challenge ch); [congruence | exact Ha]. }
    split; [exact S2|]. split.
    + unfold usable. simpl passwords. simpl pwlen.
      destruct Hf as [_ [_ [_ [[P _] _]]]]. repeat split; try lia. exact Hh.
    + split; [exact Hf|]. split.
      * simpl challenge.
        destruct Hf as [_ [C [M _]]].
        assert ((passwords ch * (challen ch + 1) <= otpw_multi cfg * (challen ch + 1))%Z)
          by (apply Z.mul_le_mono_nonneg_r; lia).
        lia.
      * simpl locked. simpl passwords. simpl challenge. rewrite Lk. exact Hl.
Qed.


Lemma prepare_cleanup_lock ch old w :
  lock (snd (prepare_cleanup ch old w)) = lock w.
Proof. destruct old as [[ou og]|]; reflexivity. Qed.

Lemma prepare_contended_shape fuel rbg lock0 ch hbuf w ch' w' :
  (1 <= challen ch)%Z -> (0 <= hlen ch)%Z -> 0 < Z.to_nat (entries ch) ->
  forallb nonnul hbuf = true ->
  length hbuf = Z.to_nat (entries ch) * Z.to_nat (challen ch + hlen ch) ->
  challenge_shape cfg ch ->
  prepare_contended cfg fuel rbg lock0 ch hbuf w = Some (ch', w') ->
  challenge_shape cfg ch'
  /\ locked ch' = locked ch /\ heap ch' = heap ch /\ pwlen ch' = pwlen ch
  /\ challen ch' = challen ch /\ entries ch' = entries ch
  /\ hlen ch' = hlen ch /\ remaining ch' = remaining ch.
Proof.
  intros C H E N L S. unfold prepare_contended.
  destruct (sys_readlink 80 w) as [[i buf] w1].
  assert (Same : forall w2, Some (ch, w2) = Some (ch', w') ->
            challenge_shape cfg ch'
            /\ locked ch' = locked ch /\ heap ch' = heap ch
            /\ pwlen ch' = pwlen ch /\ challen ch' = challen ch
            /\ entries ch' = entries ch /\ hlen ch' = hlen ch
            /\ remaining ch' = remaining ch)
    by (intros w2 Q; injection Q as <- <-; repeat split; auto).
  assert (Multi : forall lock w2,
            match multi_challenge cfg (Z.to_nat (otpw_multi cfg)) fuel rbg
                    lock ch hbuf 0 with
            | Some (c, _, _) => Some (c, w2)
            | None => None
            end = Some (ch', w') ->
            challenge_shape cfg ch'
            /\ locked ch' = locked ch /\ heap ch' = heap ch
            /\ pwlen ch' = pwlen ch /\ challen ch' = challen ch
            /\ entries ch' = entries ch /\ hlen ch' = hlen ch
            /\ remaining ch' = remaining ch).
  { intros lock w2 Q.
    destruct (multi_challenge _ _ _ _ _ _ _ _) as [[[c1 h1] k1]|] eqn:M;
      [|discriminate].
    injection Q as <- <-.
    exact (multi_challenge_shape _ _ _ _ _ _ _ _ _ _ C H E N L S M). }
  destruct (0 <? i)%Z.
  - destruct (negb _); (destruct (_ || _)%bool; [apply Same | apply Multi]).
  - destruct (negb _); [apply Same|].
    destruct (_ || _)%bool; [apply Same | apply Multi].
Qed.

Lemma prepare_locking_result fuel rbg lock0 ch hbuf j old w0 w ch' w' :
  (1 <= otpw_multi cfg)%Z ->
  header_fields_ok cfg ch -> (0 <= hlen ch)%Z ->
  passwords ch = 0%Z -> locked ch = false -> heap ch = Allocated ->
  forallb nonnul hbuf = true ->
  length hbuf = Z.to_nat (entries ch) * Z.to_nat (challen ch + hlen ch) ->
  j < Z.to_nat (entries ch) ->
  now w = now w0 ->
  prepare_locking cfg fuel rbg lock0 ch hbuf j old w = Some (ch', w') ->
  prepare_result cfg w0 ch' w'.
Proof.
  intros Hm Hf Hh Hp Hl Ha N L J Hn.
  unfold prepare_locking. cbv zeta.
  set (ch1 := with_primary hbuf j ch).
  assert (Hf1 : forall c, entries c = entries ch -> challen c = challen ch ->
                          pwlen c = pwlen ch -> hlen c = hlen ch ->
                          header_fields_ok cfg c).
  { intros c E1 E2 E3 E4. unfold header_fields_ok. rewrite E1, E2, E3, E4.
    exact Hf. }
  pose proof Hf as [[He _] [Hc _]].
  assert (R : j * Z.to_nat (challen ch + hlen ch) < length hbuf).
  { rewrite L. apply Nat.mul_lt_mono_pos_r; [lia | exact J]. }
  assert (L1 : challenge ch1 <> [])
    by (apply strncpy_row; auto; lia).
  assert (L2 : length (challenge ch1) <= Z.to_nat (challen ch))
    by apply strncpy_length.
  assert (S1 : forall b, challenge_shape cfg (with_locked b (with_passwords 1 ch1))).
  { intros b. right.
    change (passwords (with_locked b (with_passwords 1 ch1))) with 1%Z.
    change (challenge (with_locked b (with_passwords 1 ch1)))
      with (challenge ch1).
    change (challen (with_locked b (with_passwords 1 ch1))) with (challen ch).
    split; [lia|]. split; [exact L1|]. lia. }
  assert (S0 : challenge_shape cfg (with_challenge [] ch1))
    by (left; split; [exact Hp | reflexivity]).
  destruct (negb _).
  - intros E. injection E as <- <-.
    apply (shape_result w0 (with_passwords 1 ch1) w).
    + exact (S1 false).
    + apply Hf1; reflexivity.
    + exact Ha.
    + simpl. rewrite Hl. discriminate.
    + intros _. exact Hl.
    + apply prepare_cleanup_lock.
  - destruct (lock_loop_world cfg 5 (challenge ch1) w) as [_ Lk].
    destruct (lock_loop cfg 5 (challenge ch1) w) as [o w2]. simpl in Lk.
    destruct o.
    + intros E. injection E as <- <-.
      apply (shape_result w0 (with_locked true (with_passwords 1 ch1)) w2).
      * exact (S1 true).
      * apply Hf1; reflexivity.
      * exact Ha.
      * intros _. split; [reflexivity|]. rewrite <- Hn. apply Lk. reflexivity.
      * intros Q. simpl in Q. contradiction.
      * apply prepare_cleanup_lock.
    + intros E. injection E as <- <-.
      apply (shape_result w0 (with_challenge [] ch1) w2).
      * exact S0.
      * apply Hf1; reflexivity.
      * exact Ha.
      * simpl. rewrite Hl. discriminate.
      * intros _. exact Hl.
      * apply prepare_cleanup_lock.
    + destruct (prepare_contended cfg fuel rbg lock0 (with_challenge [] ch1)
                  hbuf w2) as [[ch3 w3]|] eqn:PC; [|discriminate].
      intros E. injection E as <- <-.
      destruct (prepare_contended_shape fuel rbg lock0
                  (with_challenge [] ch1) hbuf w2 ch3 w3
                  Hc Hh ltac:(simpl; lia) N L S0 PC)
        as [Q0 [Q1 [Q2 [Q3 [Q4 [Q5 [Q6 Q7]]]]]]].
      simpl in Q1, Q2, Q3, Q4, Q5, Q6.
      apply (shape_result w0 ch3 w3).
      * exact Q0.
      * apply Hf1; assumption.
      * congruence.
      * rewrite Q1, Hl. discriminate.
      * intros _. congruence.
      * apply prepare_cleanup_lock.
Qed.

(** When otpw_prepare returns, either it has failed -- the challenge is
    empty, no password is asked for, no lock is held and the blocks of
    the handle are freed -- or the handle is one otpw_verify can work
    on: between 1 and [otpw_multi] passwords, the header values in
    range, the blocks in place, the challenge within its buffer; and a
    handle that holds the lock asks for one password, the lock being
    the link to its challenge made by this call. *)
Lemma prepare_returns_result fuel rbg lock0 ch0 user flags0 w ch' w' :
  (1 <= otpw_multi cfg)%Z ->
  (0 <= otpw_hlen cfg)%Z ->
  otpw_prepare cfg fuel rbg lock0 ch0 user flags0 w = Some (ch', w') ->
  prepare_result cfg w ch' w'.
Proof.
  intros Hm Hh. unfold otpw_prepare.
  assert (Fail : forall c old w2 c' w'',
             challenge c = [] -> passwords c = 0%Z -> locked c = false ->
             Some (prepare_cleanup c old w2) = Some (c', w'') ->
             prepare_result cfg w c' w'').
  { intros c old w2 c' w'' C P L E. injection E as <- <-.
    left. unfold failed_handle. simpl. rewrite C. auto. }
  destruct user as [u|]; [|apply Fail; reflexivity].
  cbv zeta.
  set (ch1 := with_names cfg u (init_challenge cfg flags0 ch0)).
  set (w1 := seteuid (uid ch1) (setegid (gid ch1) w)).
  change (pwfile w1) with (pwfile w).
  destruct (pwfile w) as [d|]; [|apply Fail; reflexivity].
  destruct (header_line cfg _) as [[line f]|]; [|apply Fail; reflexivity].
  set (ch2 := with_header (sscanf_d 4 (cstr line)) ch1).
  destruct (negb (length _ =? 4)); [apply Fail; reflexivity|].
  destruct (negb (header_in_range cfg ch2)) eqn:Hr; [apply Fail; reflexivity|].
  apply negb_false_iff in Hr. unfold header_in_range in Hr.
  apply negb_true_iff in Hr. repeat (apply orb_false_iff in Hr; destruct Hr as [Hr ?]).
  repeat match goal with
         | Q : (_ <? _)%Z = false |- _ => apply Z.ltb_ge in Q
         | Q : negb (_ =? _)%Z = false |- _ =>
             apply negb_false_iff in Q; apply Z.eqb_eq in Q
         end.
  assert (Hf : header_fields_ok cfg ch2) by (unfold header_fields_ok; lia).
  destruct (read_entries _ _ _ _ _ _ _) as [rem [[hbuf jo]|]] eqn:RE;
    [|apply Fail; reflexivity].
  destruct (rem <? 1)%Z; [apply Fail; reflexivity|].
  destruct jo as [j|]; [|apply Fail; reflexivity].
  destruct (read_entries_inv _ _ _ _ _ _ _ _ _ _ RE eq_refl eq_refl)
    as [N [L J]]; [discriminate|].
  intros E.
  apply (prepare_locking_result fuel rbg lock0 (with_remaining rem ch2) hbuf j
           (Some (euid w, egid w)) w w1 ch' w'); auto.
  change (hlen (with_remaining rem ch2)) with (hlen ch2). lia.
Qed.

(** When otpw_prepare returns, either it has failed -- the challenge
    is empty, no password is asked for, no lock is held and the blocks
    of the handle are freed -- or the handle is one otpw_verify can
    work on: a challenge that fits its buffer, between 1 and
    [otpw_multi] passwords, the header values in the ranges checked,
    the blocks in place; and a handle that holds the lock asks for one
    password, the lock being the link to its challenge made by this
    call. *)
Theorem prepare_fails_or_gives_usable_handle (fuel : nat) (rbg : nat -> nat)
  (lock0 : bytes) (ch0 : struct_challenge) (user : option passwd)
  (flags0 : Z) (w : world) (ch' : struct_challenge) (w' : world) :
  (1 <= otpw_multi cfg)%Z ->
  (0 <= otpw_hlen cfg)%Z ->
  otpw_prepare cfg fuel rbg lock0 ch0 user flags0 w = Some (ch', w') ->
  failed_handle ch'
  \/ (challenge ch' <> []
      /\ usable cfg ch'
      /\ header_fields_ok cfg ch'
      /\ (Z.of_nat (length (challenge ch')) < sizeof_challenge)%Z
      /\ (locked ch' = true ->
          passwords ch' = 1%Z /\ lock w' = Symlink (challenge ch') (now w))).
Proof.
  intros Hm Hh E. exact (prepare_returns_result _ _ _ _ _ _ _ _ _ Hm Hh E).
Qed.

End PrepareResult.

Lemma prepare_fails_or_gives_usable_handle_witness :
  exists ch' w',
    demo_prepare 0 (fun k => k) demo_world = Some (ch', w')
    /\ challenge ch' = B "ABC"
    /\ (failed_handle ch'
        \/ (challenge ch' <> []
            /\ usable default_config ch'
            /\ header_fields_ok (hdrs := demo_headers) default_config ch'
            /\ (Z.of_nat (length (challenge ch')) < 81)%Z
            /\ (locked ch' = true ->
                passwords ch' = 1%Z
                /\ lock w' = Symlink (challenge ch') (now demo_world)))).
Proof.
  eexists; eexists. split; [vm_compute; reflexivity|].
  split; [reflexivity|].
  refine (prepare_fails_or_gives_usable_handle (hdrs := demo_headers)
            default_config 0 (fun k => k) [] blank_challenge (Some demo_user) 0
            demo_world _ _ _ _ _).
  - simpl. lia.
  - simpl. lia.
  - vm_compute. reflexivity.
Defined.

(** ** The single challenge *)

Lemma entry_line_nonnul n l : entry_line n l = true -> forallb nonnul l = true.
Proof. unfold entry_line. intros H. apply andb_true_iff in H. tauto. Qed.

(** The rows of the table are the lines without their newline. *)
Lemma table_hbuf_row c h lines : forall j,
  forallb (entry_line (Z.to_nat (c + h))) lines = true ->
  j < length lines ->
  skipn (j * Z.to_nat (c + h)) (table_hbuf c h lines)
  = firstn (Z.to_nat (c + h)) (nth j lines [])
    ++ table_hbuf c h (skipn (S j) lines).
Proof.
  unfold table_hbuf. set (n := Z.to_nat (c + h)).
  induction lines as [|l ls IH]; intros j F J; [simpl in J; lia|].
  simpl in F. apply andb_true_iff in F. destruct F as [Fl Fls].
  pose proof (entry_line_length n l Fl) as Ll.
  destruct j as [|j].
  - reflexivity.
  - simpl map. simpl concat. simpl nth. simpl skipn at 2.
    replace (S j * n) with (length (firstn n l) + j * n)
      by (rewrite length_firstn; lia).
    rewrite skipn_app, skipn_all2 by lia.
    replace (length (firstn n l) + j * n - length (firstn n l)) with (j * n)
      by lia.
    simpl app. apply IH; [exact Fls | simpl in J; lia].
Qed.

Lemma firstn_nonnul k l : forallb nonnul l = true -> forallb nonnul (firstn k l) = true.
Proof. apply forallb_firstn. Qed.

Lemma skipn_nonnul k l : forallb nonnul l = true -> forallb nonnul (skipn k l) = true.
Proof.
  intros N. rewrite <- (firstn_skipn k l), forallb_app in N.
  apply andb_true_iff in N. tauto.
Qed.

(** The label and the hash that otpw_prepare copies from row [j] are
    those of line [j]. *)
Lemma table_hbuf_label c h lines j :
  (0 <= c)%Z -> (0 <= h)%Z ->
  forallb (entry_line (Z.to_nat (c + h))) lines = true ->
  j < length lines ->
  strncpy (skipn (j * Z.to_nat (c + h)) (table_hbuf c h lines)) (Z.to_nat c)
  = entry_label c (nth j lines [])
  /\ strncpy (skipn (j * Z.to_nat (c + h) + Z.to_nat c) (table_hbuf c h lines))
             (Z.to_nat h)
     = entry_hash c h (nth j lines []).
Proof.
  intros Hc Hh F J.
  assert (Fl : entry_line (Z.to_nat (c + h)) (nth j lines []) = true).
  { rewrite forallb_forall in F. apply F. apply nth_In. exact J. }
  pose proof (entry_line_length _ _ Fl) as Ll.
  pose proof (entry_line_nonnul _ _ Fl) as Nl.
  assert (En : Z.to_nat (c + h) = Z.to_nat c + Z.to_nat h) by lia.
  unfold strncpy, entry_label, entry_hash. split.
  - rewrite (table_hbuf_row c h lines j F J).
    rewrite firstn_app, length_firstn.
    replace (Z.to_nat c - Nat.min (Z.to_nat (c + h)) (length (nth j lines [])))
      with 0 by lia.
    simpl firstn at 2. rewrite app_nil_r, firstn_firstn.
    replace (Nat.min (Z.to_nat c) (Z.to_nat (c + h))) with (Z.to_nat c) by lia.
    apply cstr_nonnul, firstn_nonnul, Nl.
  - rewrite Nat.add_comm, <- skipn_skipn.
    rewrite (table_hbuf_row c h lines j F J).
    rewrite skipn_app, length_firstn.
    replace (Z.to_nat c - Nat.min (Z.to_nat (c + h)) (length (nth j lines [])))
      with 0 by lia.
    simpl skipn at 2.
    rewrite firstn_app, length_skipn, length_firstn.
    replace (Z.to_nat h
             - (Nat.min (Z.to_nat (c + h)) (length (nth j lines []))
                - Z.to_nat c)) with 0 by lia.
    simpl firstn at 2. rewrite app_nil_r.
    rewrite skipn_firstn_comm.
    replace (Z.to_nat (c + h) - Z.to_nat c) with (Z.to_nat h) by lia.
    rewrite firstn_firstn, Nat.min_id.
    apply cstr_nonnul, firstn_nonnul, skipn_nonnul, Nl.
Qed.

(** The entry otpw_prepare takes first: the lowest unused one. *)
Lemma first_unused_spec lines : forall i j,
  first_unused i lines None = Some j ->
  i <= j /\ j - i < length lines
  /\ unused (nth (j - i) lines []) = true
  /\ forall k, k < j - i -> unused (nth k lines []) = false.
Proof.
  induction lines as [|l ls IH]; intros i j; simpl; [discriminate|].
  destruct (unused l) eqn:U.
  - rewrite first_unused_set. intros E. injection E as <-.
    rewrite Nat.sub_diag. split; [lia|]. split; [lia|]. split; [exact U|].
    intros k K. lia.
  - intros E. destruct (IH (S i) j E) as [I1 [I2 [I3 I4]]].
    split; [lia|]. split; [lia|].
    replace (j - i) with (S (j - S i)) by lia. split; [exact I3|].
    intros k K. destruct k as [|k]; [exact U|]. apply I4. lia.
Qed.

(** The cleanup of otpw_prepare leaves the fields of the handle as
    they are. *)
Lemma prepare_cleanup_fields ch old w :
  challenge (fst (prepare_cleanup ch old w)) = challenge ch
  /\ passwords (fst (prepare_cleanup ch old w)) = passwords ch
  /\ locked (fst (prepare_cleanup ch old w)) = locked ch
  /\ selection (fst (prepare_cleanup ch old w)) = selection ch
  /\ hash (fst (prepare_cleanup ch old w)) = hash ch
  /\ entries (fst (prepare_cleanup ch old w)) = entries ch
  /\ challen (fst (prepare_cleanup ch old w)) = challen ch
  /\ hlen (fst (prepare_cleanup ch old w)) = hlen ch
  /\ pwlen (fst (prepare_cleanup ch old w)) = pwlen ch
  /\ remaining (fst (prepare_cleanup ch old w)) = remaining ch.
Proof. repeat split. Qed.

Section SingleChallengeEntry.
Context {hdrs : Headers}.
Variable cfg : config.

(** The handle for a single challenge on entry [j] of the table. *)
Lemma single_handle_fields ch0 u flags0 e c h p lines j b :
  (1 <= otpw_multi cfg)%Z ->
  (0 <= c)%Z -> (0 <= h)%Z ->
  forallb (entry_line (Z.to_nat (c + h))) lines = true ->
  j < length lines ->
  let ch := with_locked b (with_passwords 1
              (with_primary (table_hbuf c h lines) j
                 (table_handle cfg ch0 u flags0 e c h p lines))) in
  challenge ch = entry_label c (nth j lines [])
  /\ nth 0 (selection ch) 0 = j
  /\ nth 0 (hash ch) [] = entry_hash c h (nth j lines []).
Proof.
  intros M Hc Hh F J. cbv zeta.
  destruct (table_hbuf_label c h lines j Hc Hh F J) as [L1 L2].
  simpl. split; [exact L1|].
  destruct (Z.to_nat (otpw_multi cfg)) eqn:Q; [lia|]. simpl.
  split; [reflexivity | exact L2].
Qed.

(** In single-challenge mode -- locking switched off, or the lock free
    or stale -- the challenge of otpw_prepare is the label of the first
    unused entry of the file, and the handle holds the index of that
    entry, its stored hash and the header values of the file. *)
Theorem prepare_single_challenge_entry (fuel : nat) (rbg : nat -> nat)
  (lock0 : bytes) (ch0 : struct_challenge) (u : passwd) (flags0 : Z)
  (w : world) (d : bytes) (e c h p : Z) (lines : list bytes) (post : bytes) :
  (1 <= otpw_multi cfg)%Z ->
  (0 <= otpw_hlen cfg)%Z ->
  pwfile w = Some d ->
  password_file cfg d e c h p lines post ->
  (1 <= unused_count lines)%Z ->
  (Z.land flags0 OTPW_NOLOCK <> 0%Z
   \/ (dir_rw w = true
       /\ (lock w = NoLock
           \/ exists mt, lock_mtime w = Some mt /\ stale cfg w mt = true))) ->
  exists ch' w' j,
    otpw_prepare cfg fuel rbg lock0 ch0 (Some u) flags0 w = Some (ch', w')
    /\ passwords ch' = 1%Z
    /\ j < length lines
    /\ unused (nth j lines []) = true
    /\ (forall i, i < j -> unused (nth i lines []) = false)
    /\ challenge ch' = entry_label c (nth j lines [])
    /\ nth 0 (selection ch') 0 = j
    /\ nth 0 (hash ch') [] = entry_hash c h (nth j lines [])
    /\ entries ch' = e /\ challen ch' = c /\ hlen ch' = h /\ pwlen ch' = p.
Proof.
  intros Hm Hh Hf Hp Hu Hl.
  rewrite (otpw_prepare_table cfg fuel rbg lock0 ch0 u flags0 w d e c h p
             lines post Hf Hp).
  cbv zeta.
  replace (unused_count lines <? 1)%Z with false
    by (symmetry; apply Z.ltb_ge; exact Hu).
  destruct (first_unused 0 lines None) as [j|] eqn:Ej;
    [|apply first_unused_none in Ej; lia].
  destruct (first_unused_spec lines 0 j Ej) as [_ [J1 [J2 J3]]].
  rewrite Nat.sub_0_r in J1, J2, J3.
  destruct Hp as [_ [[_ [Hc [_ [_ Hh']]]] [_ F]]].
  assert (H0 : (0 <= h)%Z) by lia.
  assert (C0 : (0 <= c)%Z) by lia.
  assert (Fin : forall b w2,
            exists ch' w' j0,
              Some (prepare_cleanup
                      (with_locked b (with_passwords 1
                         (with_primary (table_hbuf c h lines) j
                            (table_handle cfg ch0 u flags0 e c h p lines))))
                      (Some (euid w, egid w)) w2) = Some (ch', w')
              /\ passwords ch' = 1%Z
              /\ j0 < length lines
              /\ unused (nth j0 lines []) = true
              /\ (forall i, i < j0 -> unused (nth i lines []) = false)
              /\ challenge ch' = entry_label c (nth j0 lines [])
              /\ nth 0 (selection ch') 0 = j0
              /\ nth 0 (hash ch') [] = entry_hash c h (nth j0 lines [])
              /\ entries ch' = e /\ challen ch' = c /\ hlen ch' = h
              /\ pwlen ch' = p).
  { intros b w2.
    destruct (single_handle_fields ch0 u flags0 e c h p lines j b Hm C0 H0 F J1)
      as [S1 [S2 S3]].
    assert (T : passwords (with_locked b (with_passwords 1
                   (with_primary (table_hbuf c h lines) j
                      (table_handle cfg ch0 u flags0 e c h p lines)))) = 1%Z
                /\ entries (with_locked b (with_passwords 1
                      (with_primary (table_hbuf c h lines) j
                         (table_handle cfg ch0 u flags0 e c h p lines)))) = e
                /\ challen (with_locked b (with_passwords 1
                      (with_primary (table_hbuf c h lines) j
                         (table_handle cfg ch0 u flags0 e c h p lines)))) = c
                /\ hlen (with_locked b (with_passwords 1
                      (with_primary (table_hbuf c h lines) j
                         (table_handle cfg ch0 u flags0 e c h p lines)))) = h
                /\ pwlen (with_locked b (with_passwords 1
                      (with_primary (table_hbuf c h lines) j
                         (table_handle cfg ch0 u flags0 e c h p lines)))) = p)
      by (repeat split).
    revert S1 S2 S3 T.
    generalize (with_locked b (with_passwords 1
                  (with_primary (table_hbuf c h lines) j
                     (table_handle cfg ch0 u flags0 e c h p lines)))).
    intros X S1 S2 S3 [T1 [T2 [T3 [T4 T5]]]].
    destruct (prepare_cleanup_fields X (Some (euid w, egid w)) w2)
      as [G1 [G2 [_ [G4 [G5 [G6 [G7 [G8 [G9 _]]]]]]]]].
    exists (fst (prepare_cleanup X (Some (euid w, egid w)) w2)),
           (snd (prepare_cleanup X (Some (euid w, egid w)) w2)), j.
    rewrite G1, G2, G4, G5, G6, G7, G8, G9.
    split; [reflexivity|]. split; [exact T1|]. split; [exact J1|].
    split; [exact J2|]. split; [exact J3|]. split; [exact S1|].
    split; [exact S2|]. split; [exact S3|]. auto. }
  unfold prepare_locking. cbv zeta.
  destruct Hl as [Hn | [Hd Hl]].
  - replace (negb (Z.land (flags (with_primary (table_hbuf c h lines) j
               (table_handle cfg ch0 u flags0 e c h p lines))) OTPW_NOLOCK =? 0)%Z)
      with true
      by (symmetry; apply negb_true_iff, Z.eqb_neq; exact Hn).
    exact (Fin false _).
  - destruct (negb _); [exact (Fin false _)|].
    destruct Hl as [Hl | [mt [Hmt Hs]]].
    + rewrite lock_loop_free by assumption. exact (Fin true _).
    + rewrite (lock_loop_stale cfg 3 _ _ mt) by assumption. exact (Fin true _).
Qed.


(** With OTPW_NOLOCK set otpw_prepare issues the single challenge
    without looking at the lock: the lock is as it was, and the handle
    does not hold it. *)
Theorem prepare_nolock_leaves_system (fuel : nat) (rbg : nat -> nat)
  (lock0 : bytes) (ch0 : struct_challenge) (u : passwd) (flags0 : Z)
  (w : world) (d : bytes) (e c h p : Z) (lines : list bytes) (post : bytes) :
  pwfile w = Some d ->
  password_file cfg d e c h p lines post ->
  (1 <= unused_count lines)%Z ->
  Z.land flags0 OTPW_NOLOCK <> 0%Z ->
  exists ch' w',
    otpw_prepare cfg fuel rbg lock0 ch0 (Some u) flags0 w = Some (ch', w')
    /\ lock w' = lock w
    /\ passwords ch' = 1%Z
    /\ locked ch' = false
    /\ remaining ch' = unused_count lines.
Proof.
  intros Hf Hp Hu Hn.
  rewrite (otpw_prepare_table cfg fuel rbg lock0 ch0 u flags0 w d e c h p
             lines post Hf Hp).
  cbv zeta.
  replace (unused_count lines <? 1)%Z with false
    by (symmetry; apply Z.ltb_ge; exact Hu).
  destruct (first_unused 0 lines None) as [j|] eqn:Ej;
    [|apply first_unused_none in Ej; lia].
  unfold prepare_locking. cbv zeta.
  replace (negb (Z.land (flags (with_primary (table_hbuf c h lines) j
             (table_handle cfg ch0 u flags0 e c h p lines))) OTPW_NOLOCK =? 0)%Z)
    with true
    by (symmetry; apply negb_true_iff, Z.eqb_neq; exact Hn).
  eexists; eexists. split; [reflexivity|]. repeat split.
Qed.

Lemma header_in_range_ok ch :
  header_in_range cfg ch = true ->
  header_values_ok cfg (entries ch) (challen ch) (hlen ch) (pwlen ch).
Proof.
  unfold header_in_range, header_values_ok. intros Hr.
  apply negb_true_iff in Hr.
  repeat (apply orb_false_iff in Hr; destruct Hr as [Hr ?]).
  repeat match goal with
         | Q : (_ <? _)%Z = false |- _ => apply Z.ltb_ge in Q
         | Q : negb (_ =? _)%Z = false |- _ =>
             apply negb_false_iff in Q; apply Z.eqb_eq in Q
         end.
  lia.
Qed.

Lemma otpw_prepare_bad_header fuel rbg lock0 ch0 user flags0 w :
  (user = None
   \/ pwfile w = None
   \/ exists d,
        pwfile w = Some d
        /\ (table_of cfg d = None
            \/ exists e c h p rest,
                 table_of cfg d = Some (e, c, h, p, rest)
                 /\ ~ header_values_ok cfg e c h p)) ->
  exists ch' w',
    otpw_prepare cfg fuel rbg lock0 ch0 user flags0 w = Some (ch', w')
    /\ failed_handle ch'
    /\ lock w' = lock w.
Proof.
  intros H. unfold otpw_prepare.
  assert (Fail : forall c u g,
             challenge c = [] -> passwords c = 0%Z -> locked c = false ->
             exists ch' w',
               Some (prepare_cleanup c (Some (euid w, egid w))
                       (seteuid u (setegid g w))) = Some (ch', w')
               /\ failed_handle ch'
               /\ lock w' = lock w).
  { intros c u g C P L.
    eexists; eexists. split; [reflexivity|]. split; [|reflexivity].
    unfold failed_handle. simpl. rewrite C. auto. }
  destruct user as [u|].
  2:{ eexists; eexists. split; [reflexivity|]. repeat split. }
  cbv zeta.
  set (ch1 := with_names cfg u (init_challenge cfg flags0 ch0)).
  change (pwfile (seteuid (uid ch1) (setegid (gid ch1) w))) with (pwfile w).
  destruct H as [H | [H | [d [Hf H]]]]; [discriminate | |].
  - rewrite H. apply Fail; reflexivity.
  - rewrite Hf. unfold table_of in H.
    destruct (header_line cfg _) as [[line f]|]; [|apply Fail; reflexivity].
    destruct (negb (length _ =? 4)) eqn:L4; [apply Fail; reflexivity|].
    destruct (negb (header_in_range cfg _)) eqn:Hr; [apply Fail; reflexivity|].
    exfalso. apply negb_false_iff in Hr. apply header_in_range_ok in Hr.
    apply negb_false_iff, Nat.eqb_eq in L4.
    destruct (sscanf_d 4 (cstr line)) as [|e' [|c' [|h' [|p' [|? ?]]]]];
      try discriminate.
    destruct H as [H | [e [c [h [p [rest [H N]]]]]]]; [discriminate|].
    injection H as <- <- <- <- _. apply N. exact Hr.
Qed.

(** Without a user entry, without a file that can be opened, with a
    first line that is not the magic line or a header line that does
    not give four numbers, otpw_prepare fails and leaves the lock as it
    was; and so it does when the header values, as ints, fail the range
    test: [entries] outside 1..9999 or [challen] below 1, or -- the
    product being computed without overflow -- [(challen + 1) *
    otpw_multi] above [sizeof(ch->challenge)], [pwlen] outside 4..999
    or [hlen] other than [otpw_hlen]. *)
Theorem prepare_rejects_bad_header (fuel : nat) (rbg : nat -> nat)
  (lock0 : bytes) (ch0 : struct_challenge) (user : option passwd)
  (flags0 : Z) (w : world) :
  (user = None
   \/ pwfile w = None
   \/ exists d,
        pwfile w = Some d
        /\ (table_of cfg d = None
            \/ exists e c h p rest,
                 table_of cfg d = Some (e, c, h, p, rest)
                 /\ ((e < 1 \/ 9999 < e \/ c < 1)%Z
                     \/ (product_in_int cfg c
                         /\ (sizeof_challenge < (c + 1) * otpw_multi cfg
                             \/ p < 4 \/ 999 < p \/ h <> otpw_hlen cfg)%Z)))) ->
  exists ch' w',
    otpw_prepare cfg fuel rbg lock0 ch0 user flags0 w = Some (ch', w')
    /\ failed_handle ch'
    /\ lock w' = lock w.
Proof.
  intros H. apply otpw_prepare_bad_header.
  destruct H as [H | [H | [d [Hf H]]]]; [left; exact H | right; left; exact H |].
  right. right. exists d. split; [exact Hf|].
  destruct H as [H | [e [c [h [p [rest [H N]]]]]]]; [left; exact H|].
  right. exists e, c, h, p, rest. split; [exact H|].
  unfold header_values_ok. intros R. destruct N as [N | [_ N]]; lia.
Qed.

(** On a password file whose entries are all used otpw_prepare fails
    and leaves the lock as it was. *)
Theorem prepare_fails_when_exhausted (fuel : nat) (rbg : nat -> nat)
  (lock0 : bytes) (ch0 : struct_challenge) (u : passwd) (flags0 : Z)
  (w : world) (d : bytes) (e c h p : Z) (lines : list bytes) (post : bytes) :
  pwfile w = Some d ->
  password_file cfg d e c h p lines post ->
  unused_count lines = 0%Z ->
  exists ch' w',
    otpw_prepare cfg fuel rbg lock0 ch0 (Some u) flags0 w = Some (ch', w')
    /\ failed_handle ch'
    /\ remaining ch' = 0%Z
    /\ lock w' = lock w.
Proof.
  intros Hf Hp Hu.
  rewrite (otpw_prepare_table cfg fuel rbg lock0 ch0 u flags0 w d e c h p
             lines post Hf Hp).
  cbv zeta. rewrite Hu. simpl Z.ltb. cbv iota.
  eexists; eexists. split; [reflexivity|].
  split; [|split; [exact Hu | reflexivity]].
  unfold failed_handle. simpl. auto.
Qed.

End SingleChallengeEntry.

Lemma prepare_single_challenge_entry_witness :
  exists ch' w' j,
    demo_prepare 0 (fun k => k) (set_lock NoLock half_used_world)
    = Some (ch', w')
    /\ passwords ch' = 1%Z
    /\ j < length half_used_lines
    /\ unused (nth j half_used_lines []) = true
    /\ (forall i, i < j -> unused (nth i half_used_lines []) = false)
    /\ challenge ch' = entry_label 3 (nth j half_used_lines [])
    /\ nth 0 (selection ch') 0 = j
    /\ nth 0 (hash ch') [] = entry_hash 3 12 (nth j half_used_lines [])
    /\ entries ch' = 10%Z /\ challen ch' = 3%Z /\ hlen ch' = 12%Z
    /\ pwlen ch' = 8%Z.
Proof.
  refine (prepare_single_challenge_entry (hdrs := demo_headers) default_config
            0 (fun k => k) [] blank_challenge demo_user 0
            (set_lock NoLock half_used_world)
            (demo_header ++ concat half_used_lines) 10 3 12 8 half_used_lines []
            _ _ eq_refl half_used_file_ok _ _).
  - simpl. lia.
  - simpl. lia.
  - vm_compute. discriminate.
  - right. split; [reflexivity|]. left. reflexivity.
Defined.

Lemma prepare_nolock_leaves_system_witness :
  Z.land 2 (OTPW_NOLOCK (Headers := demo_headers)) <> 0%Z
  /\ exists ch' w',
       otpw_prepare (hdrs := demo_headers) default_config 0 (fun k => k) []
         blank_challenge (Some demo_user) 2 contended_world = Some (ch', w')
       /\ lock w' = lock contended_world
       /\ passwords ch' = 1%Z
       /\ locked ch' = false
       /\ remaining ch' = unused_count demo_lines.
Proof.
  split; [vm_compute; discriminate|].
  refine (prepare_nolock_leaves_system (hdrs := demo_headers) default_config
            0 (fun k => k) [] blank_challenge demo_user 2 contended_world
            demo_file 10 3 12 8 demo_lines [] eq_refl demo_file_ok _ _).
  - vm_compute. discriminate.
  - vm_compute. discriminate.
Defined.

Lemma prepare_rejects_bad_header_witness :
  exists ch' w',
    demo_prepare 0 (fun k => k) bad_header_world = Some (ch', w')
    /\ failed_handle ch'
    /\ lock w' = lock bad_header_world.
Proof.
  refine (prepare_rejects_bad_header (hdrs := demo_headers) default_config
            0 (fun k => k) [] blank_challenge (Some demo_user) 0
            bad_header_world _).
  right. right. eexists. split; [reflexivity|].
  right. exists 10%Z, 3%Z, 12%Z, 3%Z. eexists.
  split; [vm_compute; reflexivity|].
  right. split; [unfold product_in_int; simpl; lia|].
  right. left. lia.
Defined.

Lemma used_up_file_ok :
  password_file (hdrs := demo_headers) default_config
    (demo_header ++ concat used_up_lines) 10 3 12 8 used_up_lines [].
Proof.
  unfold password_file.
  split; [vm_compute; reflexivity|].
  split; [unfold header_values_ok; simpl; lia|].
  split; [reflexivity | vm_compute; reflexivity].
Qed.

Lemma prepare_fails_when_exhausted_witness :
  exists ch' w',
    demo_prepare 0 (fun k => k) used_up_world = Some (ch', w')
    /\ failed_handle ch'
    /\ remaining ch' = 0%Z
    /\ lock w' = lock used_up_world.
Proof.
  exact (prepare_fails_when_exhausted (hdrs := demo_headers) default_config
           0 (fun k => k) [] blank_challenge demo_user 0 used_up_world
           (demo_header ++ concat used_up_lines) 10 3 12 8 used_up_lines []
           eq_refl used_up_file_ok eq_refl).
Defined.

(** ** A fresh lock *)

Section FreshLock.
Context {hdrs : Headers}.
Variable cfg : config.

(** The loop of the multi challenge changes the challenge, the number
    of passwords, the selection and the hashes only. *)
Lemma multi_challenge_fields n : forall fuel rbg lock ch hbuf k ch' hbuf' k',
  multi_challenge cfg n fuel rbg lock ch hbuf k = Some (ch', hbuf', k') ->
  locked ch' = locked ch /\ challen ch' = challen ch.
Proof.
  induction n as [|n IH]; intros fuel rbg lock ch hbuf k ch' hbuf' k' M.
  - simpl in M. injection M as <- <- <-. auto.
  - simpl in M.
    destruct (_ && _)%bool; [|injection M as <- <- <-; auto].
    destruct (random_scan _ _ _ _ _ _ _ _) as [j k1].
    destruct (fallback_scan _ _ _ _ _ _ _) as [r|]; [|discriminate].
    apply IH in M. exact M.
Qed.

Lemma prepare_contended_lock fuel rbg lock0 ch hbuf w ch' w' mt :
  lock_mtime w = Some mt ->
  prepare_contended cfg fuel rbg lock0 ch hbuf w = Some (ch', w') ->
  locked ch' = locked ch
  /\ (lock w' = lock w
      \/ exists t, lock w = Symlink t mt
                   /\ Z.of_nat (strlen (firstn 80 t)) <> challen ch'
                   /\ lock w' = NoLock).
Proof.
  intros Hm. unfold prepare_contended, sys_readlink.
  assert (Multi : forall lock w2 (P : Prop),
            (challen ch' = challen ch -> P) ->
            match multi_challenge cfg (Z.to_nat (otpw_multi cfg)) fuel rbg
                    lock ch hbuf 0 with
            | Some (c, _, _) => Some (c, w2)
            | None => None
            end = Some (ch', w') ->
            locked ch' = locked ch /\ w' = w2 /\ P).
  { intros lock w2 P HP Q.
    destruct (multi_challenge _ _ _ _ _ _ _ _) as [[[c1 h1] k1]|] eqn:M;
      [|discriminate].
    injection Q as <- <-. apply multi_challenge_fields in M.
    destruct M as [M1 M2]. auto. }
  unfold lock_mtime in Hm.
  destruct (lock w) as [|t mt'|mt'] eqn:El; [discriminate| |].
  - injection Hm as ->.
    destruct (0 <? Z.of_nat (length (firstn 80 t)))%Z.
    + destruct (negb (Z.of_nat (strlen (firstn 80 t)) =? challen ch)%Z) eqn:Ne.
      * apply negb_true_iff, Z.eqb_neq in Ne.
        assert (U : lock (snd (sys_unlink w)) = lock w
                    \/ lock (snd (sys_unlink w)) = NoLock).
        { rewrite sys_unlink_lock. destruct (dir_rw w); auto. }
        destruct (_ || _)%bool.
        -- intros E. injection E as <- <-. split; [reflexivity|].
           destruct U as [U|U]; [left; rewrite U; exact El|].
           right. exists t. auto.
        -- intros E.
           apply (Multi _ _ (challen ch' = challen ch) (fun x => x)) in E.
           destruct E as [E1 [-> E2]]. split; [exact E1|].
           destruct U as [U|U]; [left; rewrite U; exact El|].
           right. exists t. rewrite E2. auto.
      * destruct (_ || _)%bool.
        -- intros E. injection E as <- <-. auto.
        -- intros E. apply (Multi _ _ True (fun _ => I)) in E.
           destruct E as [E1 [-> _]]. rewrite El. auto.
    + simpl errno. destruct (negb _).
      * intros E. injection E as <- <-. auto.
      * destruct (_ || _)%bool.
        -- intros E. injection E as <- <-. auto.
        -- intros E. apply (Multi _ _ True (fun _ => I)) in E.
           destruct E as [E1 [-> _]]. rewrite El. auto.
  - simpl. intros E. injection E as <- <-. simpl. auto.
Qed.

(** otpw_prepare respects a fresh lock: the handle it returns does not
    hold the lock, and the lock is left as it was, unless it is a link
    whose target has not the length of a challenge (which is removed). *)
Theorem prepare_respects_fresh_lock (fuel : nat) (rbg : nat -> nat)
  (lock0 : bytes) (ch0 : struct_challenge) (user : option passwd)
  (flags0 : Z) (w : world) (mt : Z) (ch' : struct_challenge) (w' : world) :
  lock_mtime w = Some mt ->
  stale cfg w mt = false ->
  otpw_prepare cfg fuel rbg lock0 ch0 user flags0 w = Some (ch', w') ->
  locked ch' = false
  /\ (lock w' = lock w
      \/ exists t, lock w = Symlink t mt
                   /\ Z.of_nat (strlen (firstn 80 t)) <> challen ch'
                   /\ lock w' = NoLock).
Proof.
  intros Hm Hs. unfold otpw_prepare.
  assert (Fin : forall c old w2,
             locked c = false -> lock w2 = lock w ->
             Some (prepare_cleanup c old w2) = Some (ch', w') ->
             locked ch' = false
             /\ (lock w' = lock w
                 \/ exists t, lock w = Symlink t mt
                     /\ Z.of_nat (strlen (firstn 80 t)) <> challen ch'
                     /\ lock w' = NoLock)).
  { intros c old w2 L Lk E. injection E as <- <-.
    split; [exact L|]. left.
    change (lock (snd (prepare_cleanup c old w2)) = lock w).
    rewrite prepare_cleanup_lock. exact Lk. }
  destruct user as [u|]; [|apply Fin; reflexivity].
  cbv zeta.
  set (ch1 := with_names cfg u (init_challenge cfg flags0 ch0)).
  set (w1 := seteuid (uid ch1) (setegid (gid ch1) w)).
  change (pwfile w1) with (pwfile w).
  destruct (pwfile w) as [d|]; [|apply Fin; reflexivity].
  destruct (header_line cfg _) as [[line f]|]; [|apply Fin; reflexivity].
  destruct (negb (length _ =? 4)); [apply Fin; reflexivity|].
  destruct (negb (header_in_range cfg _)); [apply Fin; reflexivity|].
  destruct (read_entries _ _ _ _ _ _ _) as [rem [[hbuf jo]|]];
    [|apply Fin; reflexivity].
  destruct (rem <? 1)%Z; [apply Fin; reflexivity|].
  destruct jo as [j|]; [|apply Fin; reflexivity].
  unfold prepare_locking. cbv zeta.
  destruct (negb _); [apply Fin; reflexivity|].
  rewrite (lock_loop_held cfg 4 _ w1 mt Hm Hs).
  match goal with
  | |- context [prepare_contended cfg fuel rbg lock0 ?c ?h ?x] =>
      destruct (prepare_contended cfg fuel rbg lock0 c h x)
        as [[c3 w3]|] eqn:E3; [|discriminate]
  end.
  apply (prepare_contended_lock fuel rbg lock0 _ hbuf (set_errno EEXIST w1)
           c3 w3 mt Hm) in E3.
  destruct E3 as [L3 K3]. simpl in L3, K3.
  intros E. injection E as <- <-.
  split; [exact L3|].
  change (lock (snd (prepare_cleanup c3 (Some (euid w, egid w)) w3)))
    with (lock w3).
  exact K3.
Qed.

End FreshLock.

Lemma prepare_respects_fresh_lock_witness :
  exists ch' w',
    demo_prepare 0 (fun k => k) contended_world = Some (ch', w')
    /\ locked ch' = false
    /\ (lock w' = lock contended_world
        \/ exists t, lock contended_world = Symlink t 99940
                     /\ Z.of_nat (strlen (firstn 80 t)) <> challen ch'
                     /\ lock w' = NoLock).
Proof.
  eexists; eexists. split; [vm_compute; reflexivity|].
  refine (prepare_respects_fresh_lock (hdrs := demo_headers) default_config
            0 (fun k => k) [] blank_challenge (Some demo_user) 0
            contended_world 99940 _ _ eq_refl eq_refl _).
  vm_compute. reflexivity.
Defined.

(** ** A login with one password *)

Section Login.
Context {hdrs : Headers}.
Variable cfg : config.

Lemma check_header_table ch d e c h p rest :
  table_of cfg d = Some (e, c, h, p, rest) ->
  header_values_ok cfg e c h p ->
  entries ch = e -> challen ch = c -> hlen ch = h -> pwlen ch = p ->
  exists f,
    check_header cfg ch {| data := d; pos := 0 |} = Some f
    /\ data f = d /\ pos f <= length d /\ skipn (pos f) d = rest.
Proof.
  unfold table_of, check_header. intros T [_ [_ [M _]]] E C H P.
  destruct (header_line cfg {| data := d; pos := 0 |}) as [[line f]|] eqn:Hh;
    [|discriminate].
  destruct (header_line_stream cfg _ _ _ Hh) as [Hd Hp]. simpl in Hd, Hp.
  destruct (sscanf_d 4 (cstr line)) as [|e' [|c' [|h' [|p' [|? ?]]]]];
    try discriminate.
  injection T as -> -> -> -> T.
  rewrite E, C, H, P, !Z.eqb_refl. simpl andb.
  replace (sizeof_challenge <? (c + 1) * otpw_multi cfg)%Z with false
    by (symmetry; apply Z.ltb_ge; exact M).
  simpl. exists f. auto.
Qed.

Lemma entry_lines_ok ch lines :
  forallb (entry_line (Z.to_nat (challen ch + hlen ch))) lines = true ->
  forallb (line_ok ch) lines = true.
Proof.
  intros F. rewrite forallb_forall in *. intros l I. specialize (F l I).
  unfold entry_line in F. apply andb_true_iff in F. apply F.
Qed.

(** otpw_verify on a handle that matches the password file, with
    every entered password matching: the verdict is OTPW_OK and the
    entries selected are overwritten where they stand. *)
Lemma verify_consumes ch pw w d e c h p lines post :
  usable cfg ch ->
  entered_passwords_match ch pw = true ->
  pwfile w = Some d -> pwfile_rw w = true ->
  password_file cfg d e c h p lines post ->
  entries ch = e -> challen ch = c -> hlen ch = h -> pwlen ch = p ->
  exists pre r,
    d = pre ++ concat lines ++ post
    /\ otpw_verify cfg ch (Some pw) w = Some r
    /\ verdict r = OTPW_OK
    /\ pwfile (world_after r)
       = Some (pre ++ concat (consumed ch 0 lines) ++ post)
    /\ remaining (handle_after r)
       = (remaining ch - Z.of_nat (hits ch 0 (length lines)))%Z
    /\ lock (world_after r)
       = (if locked ch && dir_rw w then NoLock else lock w)
    /\ euid (world_after r) = euid w /\ egid (world_after r) = egid w.
Proof.
  intros U M Hf Hrw [Ht [Hr [Hl He]]] E C H P.
  unfold entered_passwords_match in M.
  destruct (scan_response _ _ pw) as [[prefix otpw]|] eqn:Hs; [|discriminate].
  rewrite (otpw_verify_matching cfg ch pw w prefix otpw U Hs M). cbv zeta.
  unfold fopen_rw. rewrite Hf, Hrw.
  destruct (check_header_table ch d e c h p _ Ht Hr E C H P)
    as [f [Hc [Hd [Hp Hk]]]].
  rewrite Hc.
  set (pre := firstn (pos f) d).
  assert (Lp : length pre = pos f) by (apply firstn_length_le; exact Hp).
  assert (Ed : d = pre ++ concat lines ++ post).
  { rewrite <- Hk. unfold pre. symmetry. apply firstn_skipn. }
  assert (Ef : f = {| data := pre ++ concat lines ++ post; pos := length pre |}).
  { destruct f as [d1 p1]. simpl in *. subst d1. rewrite Lp. f_equal. exact Ed. }
  assert (LO : forallb (line_ok ch) lines = true).
  { apply entry_lines_ok. rewrite C, H. exact He. }
  rewrite E, <- Hl, Ef.
  rewrite (overwrite_table lines 0 ch pre post LO).
  destruct U as [_ [_ A]].
  rewrite verify_cleanup_allocated by exact A.
  exists pre. eexists. split; [exact Ed|]. split; [reflexivity|].
  split; [reflexivity|].
  unfold world_after, handle_after. cbn [fst snd].
  rewrite cleanup_world_pwfile, cleanup_world_lock.
  destruct (cleanup_world_ids
              (with_remaining
                 (remaining ch - Z.of_nat (hits ch 0 (length lines))) ch)
              (Some {| data := pre ++ concat (consumed ch 0 lines) ++ post;
                       pos := length pre + length (concat lines) |})
              (Some (euid w, egid w))
              (seteuid (uid ch) (setegid (gid ch) w))) as [I1 I2].
  rewrite I1, I2. repeat split; reflexivity.
Qed.


Lemma consumed_one ch lines j :
  (forall i, selected ch i = Nat.eqb i j) ->
  forall k, k <= j -> j - k < length lines ->
  consumed ch k lines
  = mark_used (Z.to_nat (challen ch + hlen ch)) (j - k) lines.
Proof.
  intros Sel. induction lines as [|l ls IH]; intros k K L; [simpl in L; lia|].
  simpl consumed. rewrite Sel.
  destruct (Nat.eqb k j) eqn:E.
  - apply Nat.eqb_eq in E. subst k. rewrite Nat.sub_diag.
    unfold mark_used. simpl. f_equal.
    clear IH L K. generalize (S j) (Nat.lt_succ_diag_r j).
    induction ls as [|x xs IHx]; intros m Hm; simpl; [reflexivity|].
    rewrite Sel. replace (Nat.eqb m j) with false
      by (symmetry; apply Nat.eqb_neq; lia).
    f_equal. apply IHx. lia.
  - apply Nat.eqb_neq in E.
    replace (j - k) with (S (j - S k)) by lia.
    unfold mark_used. simpl. f_equal.
    rewrite IH by (simpl in L; lia). reflexivity.
Qed.

Lemma hits_one ch j :
  (forall i, selected ch i = Nat.eqb i j) ->
  forall n k, k <= j -> j - k < n -> hits ch k n = 1.
Proof.
  intros Sel. induction n as [|n IH]; intros k K L; [lia|].
  simpl. rewrite Sel. destruct (Nat.eqb k j) eqn:E.
  - apply Nat.eqb_eq in E. subst k. f_equal.
    clear IH L K. generalize (S j) (Nat.lt_succ_diag_r j).
    induction n as [|n IHn]; intros m Hm; simpl; [reflexivity|].
    rewrite Sel. replace (Nat.eqb m j) with false
      by (symmetry; apply Nat.eqb_neq; lia).
    apply IHn. lia.
  - apply Nat.eqb_neq in E. rewrite IH by lia. reflexivity.
Qed.

Lemma unused_count_mark n j lines :
  0 < n -> j < length lines -> unused (nth j lines []) = true ->
  unused_count (mark_used n j lines) = (unused_count lines - 1)%Z.
Proof.
  intros N J U. unfold unused_count.
  assert (Sk : skipn j lines = nth j lines [] :: skipn (S j) lines).
  { clear U. revert j J. induction lines as [|l ls IH]; intros j J;
      [simpl in J; lia|].
    destruct j; [reflexivity|]. simpl. apply IH. simpl in J. lia. }
  assert (E1 : length (filter unused lines)
               = length (filter unused (firstn j lines))
                 + length (filter unused (skipn j lines)))
    by (rewrite <- (firstn_skipn j lines) at 1;
        rewrite filter_app, length_app; reflexivity).
  set (X := skipn (S j) lines) in *.
  change (mark_used n j lines)
    with (firstn j lines ++ (repeat HYPHEN n ++ [NL]) :: X).
  rewrite E1, Sk, filter_app, length_app.
  cbn [filter]. rewrite U.
  replace (unused (repeat HYPHEN n ++ [NL])) with false
    by (destruct n; [lia | reflexivity]).
  simpl length. unfold bytes in *. lia.
Qed.

Lemma unused_count_first lines j :
  first_unused 0 lines None = Some j -> (1 <= unused_count lines)%Z.
Proof.
  intros E. destruct (first_unused_spec lines 0 j E) as [_ [J1 [J2 _]]].
  rewrite Nat.sub_0_r in *. unfold unused_count.
  assert (I : In (nth j lines []) (filter unused lines))
    by (apply filter_In; split; [apply nth_In; exact J1 | exact J2]).
  destruct (filter unused lines); [contradiction | simpl; lia].
Qed.

(** A login with one password, from otpw_prepare to otpw_verify: with
    the lock free, otpw_prepare takes the lock on the first unused
    entry; the response made of the prefix password and the one-time
    password whose hash that entry stores is then verified OTPW_OK,
    the entry is overwritten with hyphens where it stands, nothing else
    in the file changes, one unused password less is left, the lock is
    released and the effective ids are those from before. *)
Theorem login_consumes_first_unused (fuel : nat) (rbg : nat -> nat)
  (lock0 : bytes) (ch0 : struct_challenge) (u : passwd) (flags0 : Z)
  (w : world) (d : bytes) (e c h p : Z) (lines : list bytes) (post : bytes)
  (j : nat) (prefix otp : bytes) :
  (1 <= otpw_multi cfg)%Z ->
  (0 <= otpw_hlen cfg)%Z ->
  pwfile w = Some d -> pwfile_rw w = true ->
  dir_rw w = true -> lock w = NoLock ->
  Z.land flags0 OTPW_NOLOCK = 0%Z ->
  password_file cfg d e c h p lines post ->
  first_unused 0 lines None = Some j ->
  forallb nonnul prefix = true ->
  length otp = Z.to_nat p ->
  Forall canonical otp ->
  entry_hash c h (nth j lines [])
  = conv_base64 (md_digest (prefix ++ otp)) (Z.to_nat h) ->
  exists ch' w' r pre,
    otpw_prepare cfg fuel rbg lock0 ch0 (Some u) flags0 w = Some (ch', w')
    /\ challenge ch' = entry_label c (nth j lines [])
    /\ otpw_verify cfg ch' (Some (prefix ++ otp)) w' = Some r
    /\ verdict r = OTPW_OK
    /\ d = pre ++ concat lines ++ post
    /\ pwfile (world_after r)
       = Some (pre ++ concat (mark_used (Z.to_nat (c + h)) j lines) ++ post)
    /\ unused_count (mark_used (Z.to_nat (c + h)) j lines)
       = (unused_count lines - 1)%Z
    /\ remaining (handle_after r) = (unused_count lines - 1)%Z
    /\ lock (world_after r) = NoLock
    /\ euid (world_after r) = euid w /\ egid (world_after r) = egid w.
Proof.
  intros Hm Hh Hf Hrw Hd Hl Hn Hp Ej Np Lo Co Eh.
  pose proof (unused_count_first lines j Ej) as Hu.
  destruct (first_unused_spec lines 0 j Ej) as [_ [J1 [J2 _]]].
  rewrite Nat.sub_0_r in J1, J2.
  rewrite (otpw_prepare_table cfg fuel rbg lock0 ch0 u flags0 w d e c h p
             lines post Hf Hp).
  cbv zeta.
  replace (unused_count lines <? 1)%Z with false
    by (symmetry; apply Z.ltb_ge; exact Hu).
  rewrite Ej. unfold prepare_locking. cbv zeta. simpl flags. rewrite Hn.
  simpl negb. cbv iota.
  rewrite lock_loop_free by assumption.
  pose proof Hp as [_ [[_ [Hc [_ [[Hp4 _] Hh']]]] [Hlen F]]].
  assert (H0 : (0 <= h)%Z) by lia.
  assert (C0 : (0 <= c)%Z) by lia.
  destruct (single_handle_fields cfg ch0 u flags0 e c h p lines j true
              Hm C0 H0 F J1) as [S1 [_ S3]].
  cbv zeta in S1, S3.
  match goal with
  | |- context [prepare_cleanup ?c0 ?o ?x] =>
      assert (T : passwords c0 = 1%Z /\ pwlen c0 = p /\ hlen c0 = h
                  /\ entries c0 = e /\ challen c0 = c /\ locked c0 = true
                  /\ remaining c0 = unused_count lines
                  /\ heap c0 = Allocated)
        by (repeat split);
      assert (Q : firstn 1 (selection c0) = [j])
        by (simpl; destruct (Z.to_nat (otpw_multi cfg)) eqn:Q;
            [lia | reflexivity]);
      assert (Wd : pwfile x = Some d /\ pwfile_rw x = true /\ dir_rw x = true)
        by (repeat split; assumption);
      revert S1 S3 T Q Wd; generalize c0; generalize x
  end.
  intros W X S1 S3 [T1 [T2 [T3 [T4 [T5 [T6 [T7 T8]]]]]]] Q [W1 [W2 W3]].
  assert (Ne : challenge X <> []).
  { rewrite S1. unfold entry_label.
    assert (Fl : entry_line (Z.to_nat (c + h)) (nth j lines []) = true).
    { rewrite forallb_forall in F. apply F. apply nth_In. exact J1. }
    apply entry_line_length in Fl.
    destruct (nth j lines []); [simpl in Fl; lia|].
    destruct (Z.to_nat c) eqn:Qc; [lia|]. discriminate. }
  destruct (prepare_cleanup_fields X (Some (euid w, egid w)) W)
    as [G1 [G2 [G3 [G4 [G5 [G6 [G7 [G8 [G9 G10]]]]]]]]].
  destruct (prepare_cleanup_world X (euid w) (egid w) W W (same_files_refl W))
    as [[V1 [V2 [V3 _]]] [V4 [V5 _]]].
  set (ch' := fst (prepare_cleanup X (Some (euid w, egid w)) W)) in *.
  set (w' := snd (prepare_cleanup X (Some (euid w, egid w)) W)) in *.
  assert (A : heap ch' = Allocated).
  { unfold ch', prepare_cleanup. cbn [fst]. unfold with_heap. cbn [heap].
    destruct (challenge X); [contradiction | exact T8]. }
  assert (U : usable cfg ch').
  { unfold usable. rewrite G2, G9, T1, T2. repeat split; try lia. exact A. }
  assert (Sel : forall i, selected ch' i = Nat.eqb i j).
  { intros i. unfold selected. rewrite G2, G4, T1.
    change (Z.to_nat 1) with 1. rewrite Q. simpl. apply orb_false_r. }
  assert (M : entered_passwords_match ch' (prefix ++ otp) = true).
  { unfold entered_passwords_match. rewrite G2, G9, T1, T2.
    pose proof (scan_response_canonical (Z.to_nat 1) (Z.to_nat p) prefix [otp])
      as Sc.
    simpl concat in Sc. rewrite app_nil_r in Sc.
    rewrite Sc; try reflexivity; try lia;
      [|constructor; [split; [exact Lo | exact Co] | constructor] | exact Np].
    unfold compare_passwords. rewrite G2, G5, G8, T1, T3.
    change (Z.to_nat 1) with 1. cbn [seq forallb nth]. rewrite andb_true_r.
    rewrite S3, Eh. unfold strcmp0, bytes_eqb.
    destruct (list_eq_dec _ _ _); [reflexivity | congruence]. }
  destruct (verify_consumes ch' (prefix ++ otp) w' d e c h p lines post U M)
    as [pre [r [R1 [R2 [R3 [R4 [R5 [R6 [R7 R8]]]]]]]]];
    try congruence; try assumption.
  exists ch', w', r, pre.
  split; [reflexivity|]. split; [rewrite G1; exact S1|]. split; [exact R2|].
  split; [exact R3|]. split; [exact R1|].
  assert (Nn : 0 < Z.to_nat (c + h)) by lia.
  split.
  { rewrite R4. rewrite (consumed_one ch' lines j Sel 0) by lia.
    rewrite Nat.sub_0_r, G7, G8, T5, T3. reflexivity. }
  split; [apply unused_count_mark; assumption|].
  split.
  { rewrite R5, (hits_one ch' j Sel) by lia. rewrite G10, T7. reflexivity. }
  split.
  { rewrite R6, G3, T6, V3, W3. reflexivity. }
  split; [rewrite R7; exact V4 | rewrite R8; exact V5].
Qed.

End Login.

Lemma login_consumes_first_unused_witness :
  exists ch' w' r pre,
    demo_prepare 0 (fun k => k) demo_world = Some (ch', w')
    /\ challenge ch' = entry_label 3 (nth 0 demo_lines [])
    /\ demo_verify ch' "fooaaaaaaaa" w' = Some r
    /\ verdict r = OTPW_OK
    /\ demo_file = pre ++ concat demo_lines ++ []
    /\ pwfile (world_after r)
       = Some (pre ++ concat (mark_used 15 0 demo_lines) ++ [])
    /\ unused_count (mark_used 15 0 demo_lines)
       = (unused_count demo_lines - 1)%Z
    /\ remaining (handle_after r) = (unused_count demo_lines - 1)%Z
    /\ lock (world_after r) = NoLock
    /\ euid (world_after r) = euid demo_world
    /\ egid (world_after r) = egid demo_world.
Proof.
  refine (login_consumes_first_unused (hdrs := demo_headers) default_config
            0 (fun k => k) [] blank_challenge demo_user 0 demo_world demo_file
            10 3 12 8 demo_lines [] 0 (B "foo") (B "aaaaaaaa")
            _ _ eq_refl eq_refl eq_refl eq_refl eq_refl demo_file_ok eq_refl
            eq_refl eq_refl _ _).
  - simpl. lia.
  - simpl. lia.
  - repeat constructor.
  - vm_compute. reflexivity.
Defined.

(** ** The login after *)

(** What fgets reads from the front part of the data does not depend
    on what follows it. *)
Lemma read_line_front k : forall s (X Y : bytes),
  length X = length Y ->
  length (read_line k (s ++ X)) <= length s ->
  read_line k (s ++ Y) = read_line k (s ++ X).
Proof.
  induction k as [|k IH]; intros s X Y XY L.
  - destruct (s ++ Y), (s ++ X); reflexivity.
  - destruct s as [|c s].
    + simpl in *. destruct X as [|x X].
      * destruct Y; [reflexivity | discriminate].
      * simpl in L. destruct (Ascii.eqb x NL); simpl in L; lia.
    + simpl in *. destruct (Ascii.eqb c NL); [reflexivity|].
      f_equal. apply IH; [exact XY | simpl in L; lia].
Qed.

Lemma fgets_front n pre (X Y : bytes) p l f' :
  length X = length Y ->
  fgets n {| data := pre ++ X; pos := p |} = Some (l, f') ->
  pos f' <= length pre ->
  fgets n {| data := pre ++ Y; pos := p |}
  = Some (l, {| data := pre ++ Y; pos := pos f' |})
  /\ data f' = pre ++ X /\ p <= pos f'.
Proof.
  intros XY. unfold fgets. simpl data. simpl pos.
  destruct (skipn p (pre ++ X)) as [|c rest] eqn:E; [discriminate|].
  intros H L. injection H as <- <-. simpl pos in *.
  assert (P : p <= length pre) by lia.
  rewrite skipn_app in E. replace (p - length pre) with 0 in E by lia.
  simpl skipn in E.
  rewrite skipn_app. replace (p - length pre) with 0 by lia. simpl skipn.
  rewrite <- E in L.
  assert (L' : length (read_line (n - 1) (skipn p pre ++ X))
               <= length (skipn p pre)) by (rewrite length_skipn; lia).
  pose proof (read_line_front (n - 1) (skipn p pre) X Y XY L') as R.
  rewrite <- E, <- R.
  destruct (skipn p pre ++ Y) eqn:EY.
  - exfalso. apply app_eq_nil in EY. destruct EY as [E1 E2].
    subst Y. destruct X; [|discriminate].
    rewrite E1 in E. discriminate.
  - split; [reflexivity|]. split; [reflexivity | lia].
Qed.

Section NextLogin.
Context {hdrs : Headers}.
Variable cfg : config.

Lemma header_line_front pre (X Y : bytes) l f' :
  length X = length Y ->
  header_line cfg {| data := pre ++ X; pos := 0 |} = Some (l, f') ->
  pos f' <= length pre ->
  header_line cfg {| data := pre ++ Y; pos := 0 |}
  = Some (l, {| data := pre ++ Y; pos := pos f' |}).
Proof.
  intros XY. unfold header_line.
  destruct (fgets 81 {| data := pre ++ X; pos := 0 |}) as [[l1 f1]|] eqn:E1;
    [|discriminate].
  destruct (negb (strcmp0 l1 (otpw_magic cfg))) eqn:Mg; [discriminate|].
  destruct (fgets_stream _ _ _ _ E1) as [D1 _]. simpl in D1.
  destruct f1 as [d1 p1]. simpl in D1. subst d1.
  destruct (fgets 81 {| data := pre ++ X; pos := p1 |}) as [[l2 f2]|] eqn:E2;
    [|discriminate].
  destruct (fgets_stream _ _ _ _ E2) as [D2 _]. simpl in D2.
  destruct f2 as [d2 p2]. simpl in D2. subst d2.
  destruct (Ascii.eqb (hd NUL l2) "#") eqn:Hash.
  - intros E3 L.
    destruct (fgets_front 81 pre X Y p2 l f' XY E3 L) as [G3 [_ P3]].
    destruct (fgets_front 81 pre X Y p1 l2 _ XY E2) as [G2 [_ P2]];
      [simpl; lia|].
    destruct (fgets_front 81 pre X Y 0 l1 _ XY E1) as [G1 _];
      [simpl in *; lia|].
    rewrite G1, Mg. simpl pos. rewrite G2, Hash. simpl pos. exact G3.
  - intros E3 L. injection E3 as <- <-. simpl pos in L.
    destruct (fgets_front 81 pre X Y p1 l2 _ XY E2 L) as [G2 [_ P2]].
    destruct (fgets_front 81 pre X Y 0 l1 _ XY E1) as [G1 _];
      [simpl in *; lia|].
    rewrite G1, Mg. simpl pos. rewrite G2, Hash. reflexivity.
Qed.


Lemma hyphens_entry_line n :
  n + 1 <= 80 -> entry_line n (repeat HYPHEN n ++ [NL]) = true.
Proof.
  intros L. unfold entry_line, table_line.
  rewrite length_app, repeat_length. simpl length.
  rewrite Nat.eqb_refl. replace (n + 1 <=? 80) with true
    by (symmetry; apply Nat.leb_le; exact L).
  rewrite last_last, removelast_last. simpl.
  rewrite forallb_app. simpl.
  assert (R : forall (f : ascii -> bool), f HYPHEN = true ->
                forallb f (repeat HYPHEN n) = true).
  { intros f Hf. induction n as [|m IH]; simpl; [reflexivity|].
    rewrite Hf. apply IH. lia. }
  rewrite !R; reflexivity.
Qed.

Lemma mark_used_eq n j (lines : list bytes) :
  mark_used n j lines
  = firstn j lines ++ (repeat HYPHEN n ++ [NL]) :: skipn (S j) lines.
Proof. reflexivity. Qed.

Lemma mark_used_length n j (lines : list bytes) :
  j < length lines -> length (mark_used n j lines) = length lines.
Proof.
  intros J. rewrite mark_used_eq, length_app. cbn [length].
  rewrite length_firstn, length_skipn. lia.
Qed.

Lemma nth_mark_used n j (lines : list bytes) i :
  j < length lines ->
  nth i (mark_used n j lines) []
  = if Nat.eqb i j then repeat HYPHEN n ++ [NL] else nth i lines [].
Proof.
  intros J. rewrite mark_used_eq.
  assert (Lf : length (firstn j lines) = j) by (rewrite length_firstn; lia).
  destruct (Nat.eqb i j) eqn:E.
  - apply Nat.eqb_eq in E. subst i.
    rewrite app_nth2 by lia. rewrite Lf, Nat.sub_diag. reflexivity.
  - apply Nat.eqb_neq in E.
    destruct (Nat.lt_ge_cases i j) as [Lt|Ge].
    + rewrite app_nth1 by lia.
      rewrite <- (firstn_skipn j lines) at 2. rewrite app_nth1 by lia.
      reflexivity.
    + rewrite app_nth2 by lia. rewrite Lf.
      replace (i - j) with (S (i - S j)) by lia. simpl nth.
      rewrite <- (firstn_skipn (S j) lines) at 2.
      rewrite app_nth2 by (rewrite length_firstn; lia).
      rewrite length_firstn.
      replace (Nat.min (S j) (length lines)) with (S j) by lia.
      reflexivity.
Qed.

Lemma concat_mark_used_length n j (lines : list bytes) :
  forallb (entry_line n) lines = true -> j < length lines ->
  length (concat (mark_used n j lines)) = length (concat lines).
Proof.
  intros F J.
  assert (Fl : entry_line n (nth j lines []) = true).
  { rewrite forallb_forall in F. apply F. apply nth_In. exact J. }
  apply entry_line_length in Fl.
  rewrite <- (firstn_skipn j lines) at 2.
  rewrite mark_used_eq, !concat_app, !length_app. f_equal.
  assert (Sk : skipn j lines = nth j lines [] :: skipn (S j) lines).
  { clear F Fl. revert j J. induction lines as [|l ls IH]; intros j J;
      [simpl in J; lia|].
    destruct j; [reflexivity|]. simpl. apply IH. simpl in J. lia. }
  rewrite Sk. simpl concat. rewrite !length_app, repeat_length, Fl.
  simpl length. lia.
Qed.

(** The overwrite of an entry leaves a password file with the same
    header and one unused password less. *)
Lemma marked_file_ok d e c h p lines post j :
  password_file cfg d e c h p lines post ->
  j < length lines ->
  exists pre,
    d = pre ++ concat lines ++ post
    /\ password_file cfg
         (pre ++ concat (mark_used (Z.to_nat (c + h)) j lines) ++ post)
         e c h p (mark_used (Z.to_nat (c + h)) j lines) post.
Proof.
  intros [Ht [Hr [Hl He]]] J.
  set (n := Z.to_nat (c + h)) in *.
  unfold table_of in Ht.
  destruct (header_line cfg {| data := d; pos := 0 |}) as [[line f]|] eqn:Hh;
    [|discriminate].
  destruct (sscanf_d 4 (cstr line)) as [|e' [|c' [|h' [|p' [|? ?]]]]] eqn:Hs;
    try discriminate.
  injection Ht as -> -> -> -> Hk.
  destruct (header_line_stream cfg _ _ _ Hh) as [Hd Hp]. simpl in Hd, Hp.
  set (pre := firstn (pos f) d).
  assert (Lp : length pre = pos f) by (apply firstn_length_le; exact Hp).
  assert (Ed : d = pre ++ concat lines ++ post).
  { rewrite <- Hk. unfold pre. symmetry. apply firstn_skipn. }
  exists pre. split; [exact Ed|].
  assert (XY : length (concat lines ++ post)
               = length (concat (mark_used n j lines) ++ post)).
  { rewrite !length_app, (concat_mark_used_length n j lines He J).
    reflexivity. }
  rewrite Ed in Hh.
  pose proof (header_line_front pre _ _ line f XY Hh ltac:(lia)) as Hh'.
  split; [|split; [exact Hr|split]].
  - unfold table_of. rewrite Hh', Hs. simpl pos. rewrite <- Lp.
    rewrite skipn_app, skipn_all, Nat.sub_diag. reflexivity.
  - rewrite mark_used_length by exact J. exact Hl.
  - assert (Fl : entry_line n (nth j lines []) = true).
    { rewrite forallb_forall in He. apply He. apply nth_In. exact J. }
    fold n. rewrite mark_used_eq, forallb_app. cbn [forallb].
    rewrite <- (firstn_skipn j lines), forallb_app in He.
    apply andb_true_iff in He. destruct He as [He1 He2].
    rewrite He1. simpl.
    rewrite <- (firstn_skipn 1 (skipn j lines)), forallb_app in He2.
    apply andb_true_iff in He2. destruct He2 as [_ He2].
    rewrite skipn_skipn in He2. simpl in He2. rewrite He2, andb_true_r.
    apply hyphens_entry_line.
    unfold entry_line, table_line in Fl. rewrite !andb_true_iff in Fl.
    destruct Fl as [[[[L1 L2] _] _] _].
    apply Nat.eqb_eq in L1. apply Nat.leb_le in L2. lia.
Qed.


(** A password is offered once: when the first unused entry of a
    password file has been overwritten, as otpw_verify does it, the
    next single challenge of otpw_prepare is the label of the next
    unused entry further down the file; and when it was the last unused
    entry, otpw_prepare fails. *)
Theorem prepare_after_use_offers_next (fuel : nat) (rbg : nat -> nat)
  (lock0 : bytes) (ch0 : struct_challenge) (u : passwd) (flags0 : Z)
  (w : world) (d pre : bytes) (e c h p : Z) (lines : list bytes)
  (post : bytes) (j : nat) :
  (1 <= otpw_multi cfg)%Z ->
  (0 <= otpw_hlen cfg)%Z ->
  password_file cfg d e c h p lines post ->
  d = pre ++ concat lines ++ post ->
  first_unused 0 lines None = Some j ->
  pwfile w
  = Some (pre ++ concat (mark_used (Z.to_nat (c + h)) j lines) ++ post) ->
  (Z.land flags0 OTPW_NOLOCK <> 0%Z
   \/ (dir_rw w = true
       /\ (lock w = NoLock
           \/ exists mt, lock_mtime w = Some mt /\ stale cfg w mt = true))) ->
  (unused_count lines = 1%Z ->
   exists ch' w',
     otpw_prepare cfg fuel rbg lock0 ch0 (Some u) flags0 w = Some (ch', w')
     /\ failed_handle ch')
  /\ ((2 <= unused_count lines)%Z ->
      exists ch' w' j',
        otpw_prepare cfg fuel rbg lock0 ch0 (Some u) flags0 w = Some (ch', w')
        /\ passwords ch' = 1%Z
        /\ j < j' /\ j' < length lines
        /\ unused (nth j' lines []) = true
        /\ (forall i, j < i -> i < j' -> unused (nth i lines []) = false)
        /\ challenge ch' = entry_label c (nth j' lines [])).
Proof.
  intros Hm Hh Hp Ed Ej Hf Hl.
  destruct (first_unused_spec lines 0 j Ej) as [_ [J1 [J2 J3]]].
  rewrite Nat.sub_0_r in J1, J2, J3.
  destruct (marked_file_ok d e c h p lines post j Hp J1) as [pre0 [Ed0 Hp']].
  assert (pre0 = pre).
  { rewrite Ed in Ed0. apply app_inv_tail in Ed0. congruence. }
  subst pre0.
  set (n := Z.to_nat (c + h)) in *.
  set (lines' := mark_used n j lines) in *.
  pose proof Hp as [_ [[_ [Hc [_ [_ Hh']]]] [Hlen F]]].
  assert (Nn : 0 < n) by (unfold n; lia).
  pose proof (unused_count_mark n j lines Nn J1 J2) as Cnt. fold lines' in Cnt.
  rewrite (otpw_prepare_table cfg fuel rbg lock0 ch0 u flags0 w _ e c h p
             lines' post Hf Hp').
  cbv zeta. rewrite Cnt. split.
  - intros One. rewrite One. simpl Z.ltb. cbv iota.
    eexists; eexists. split; [reflexivity|]. unfold failed_handle. simpl. auto.
  - intros Two.
    replace (unused_count lines - 1 <? 1)%Z with false
      by (symmetry; apply Z.ltb_ge; lia).
    destruct (first_unused 0 lines' None) as [j'|] eqn:Ej';
      [|apply first_unused_none in Ej'; lia].
    destruct (first_unused_spec lines' 0 j' Ej') as [_ [K1 [K2 K3]]].
    rewrite Nat.sub_0_r in K1, K2, K3.
    unfold lines' in K1. rewrite mark_used_length in K1 by exact J1.
    assert (Nth : forall i, nth i lines' []
                  = if Nat.eqb i j then repeat HYPHEN n ++ [NL]
                    else nth i lines [])
      by (intros i; apply nth_mark_used; exact J1).
    assert (Used : unused (repeat HYPHEN n ++ [NL]) = false)
      by (destruct n; [lia | reflexivity]).
    assert (Nj : j' <> j).
    { intros ->. rewrite Nth, Nat.eqb_refl, Used in K2. discriminate. }
    assert (Same : nth j' lines' [] = nth j' lines []).
    { rewrite Nth. apply Nat.eqb_neq in Nj. rewrite Nj. reflexivity. }
    assert (Gt : j < j').
    { destruct (Nat.lt_ge_cases j j') as [G|G]; [exact G|].
      assert (j' < j) by lia. rewrite Same in K2. rewrite J3 in K2 by lia.
      discriminate. }
    assert (Between : forall i, j < i -> i < j' ->
                                unused (nth i lines []) = false).
    { intros i I1 I2. specialize (K3 i I2). rewrite Nth in K3.
      replace (Nat.eqb i j) with false in K3
        by (symmetry; apply Nat.eqb_neq; lia).
      exact K3. }
    destruct Hp' as [_ [_ [_ F']]].
    assert (H0 : (0 <= h)%Z) by lia.
    assert (C0 : (0 <= c)%Z) by lia.
    assert (K1' : j' < length lines')
      by (unfold lines'; rewrite mark_used_length by exact J1; exact K1).
    assert (Fin : forall b w2,
              exists ch' w' j0,
                Some (prepare_cleanup
                        (with_locked b (with_passwords 1
                           (with_primary (table_hbuf c h lines') j'
                              (table_handle cfg ch0 u flags0 e c h p lines'))))
                        (Some (euid w, egid w)) w2) = Some (ch', w')
                /\ passwords ch' = 1%Z
                /\ j < j0 /\ j0 < length lines
                /\ unused (nth j0 lines []) = true
                /\ (forall i, j < i -> i < j0 ->
                      unused (nth i lines []) = false)
                /\ challenge ch' = entry_label c (nth j0 lines [])).
    { intros b w2.
      destruct (single_handle_fields cfg ch0 u flags0 e c h p lines' j' b
                  Hm C0 H0 F' K1') as [S1 _].
      cbv zeta in S1.
      assert (T : passwords (with_locked b (with_passwords 1
                     (with_primary (table_hbuf c h lines') j'
                        (table_handle cfg ch0 u flags0 e c h p lines'))))
                  = 1%Z) by reflexivity.
      revert S1 T.
      generalize (with_locked b (with_passwords 1
                    (with_primary (table_hbuf c h lines') j'
                       (table_handle cfg ch0 u flags0 e c h p lines')))).
      intros X S1 T.
      destruct (prepare_cleanup_fields X (Some (euid w, egid w)) w2)
        as [G1 [G2 _]].
      exists (fst (prepare_cleanup X (Some (euid w, egid w)) w2)),
             (snd (prepare_cleanup X (Some (euid w, egid w)) w2)), j'.
      rewrite G1, G2.
      split; [reflexivity|].
      split; [exact T|]. split; [exact Gt|]. split; [exact K1|].
      split; [rewrite <- Same; exact K2|]. split; [exact Between|].
      rewrite <- Same. exact S1. }
    unfold prepare_locking. cbv zeta.
    destruct Hl as [Hn | [Hd Hl]].
    + replace (negb (Z.land (flags (with_primary (table_hbuf c h lines') j'
                 (table_handle cfg ch0 u flags0 e c h p lines'))) OTPW_NOLOCK
                 =? 0)%Z)
        with true
        by (symmetry; apply negb_true_iff, Z.eqb_neq; exact Hn).
      exact (Fin false _).
    + destruct (negb _); [exact (Fin false _)|].
      destruct Hl as [Hl | [mt [Hmt Hs]]].
      * rewrite lock_loop_free by assumption. exact (Fin true _).
      * rewrite (lock_loop_stale cfg 3 _ _ mt) by assumption.
        exact (Fin true _).
Qed.

End NextLogin.

Lemma prepare_after_use_offers_next_witness :
  unused_count demo_lines = 10%Z
  /\ ((unused_count demo_lines = 1%Z ->
       exists ch' w',
         demo_prepare 0 (fun k => k) after_first_use_world = Some (ch', w')
         /\ failed_handle ch')
      /\ ((2 <= unused_count demo_lines)%Z ->
          exists ch' w' j',
            demo_prepare 0 (fun k => k) after_first_use_world = Some (ch', w')
            /\ passwords ch' = 1%Z
            /\ 0 < j' /\ j' < length demo_lines
            /\ unused (nth j' demo_lines []) = true
            /\ (forall i, 0 < i -> i < j' ->
                  unused (nth i demo_lines []) = false)
            /\ challenge ch' = entry_label 3 (nth j' demo_lines []))).
Proof.
  split; [reflexivity|].
  refine (prepare_after_use_offers_next (hdrs := demo_headers) default_config
            0 (fun k => k) [] blank_challenge demo_user 0
            after_first_use_world demo_file demo_header 10 3 12 8 demo_lines []
            0 _ _ demo_file_ok _ eq_refl eq_refl _).
  - simpl. lia.
  - simpl. lia.
  - unfold demo_file. rewrite app_nil_r. reflexivity.
  - right. split; [reflexivity|]. left. reflexivity.
Defined.

(** ** The encoder loses nothing *)

Lemma decodes_pair_all :
  forallb (fun x => forallb (decodes_pair x) all_bytes) all_bytes = true.
Proof. vm_compute. reflexivity. Qed.

Lemma tab_distinct :
  forallb (fun i => forallb (fun j =>
             negb (Ascii.eqb (nth i tab NUL) (nth j tab NUL)) || Nat.eqb i j)
             (seq 0 64)) (seq 0 64) = true.
Proof. vm_compute. reflexivity. Qed.

Lemma decodes_pair_true x y : decodes_pair x y = true.
Proof.
  pose proof decodes_pair_all as A.
  rewrite forallb_forall in A. specialize (A x (all_bytes_In x)).
  rewrite forallb_forall in A. exact (A y (all_bytes_In y)).
Qed.

(** The four indices formed from two adjacent bytes, and what they
    hold of the bytes. *)
Lemma decodes_pair_facts x y :
  let a := Z.of_N (code x) in
  let b := Z.of_N (code y) in
  let i0 := Z.shiftr a 2 in
  let i1 := Z.lor (Z.land (Z.shiftl a 4) 48) (Z.shiftr b 4) in
  let i2 := Z.lor (Z.land (Z.shiftl a 2) 60) (Z.shiftr b 6) in
  let i3 := Z.land b 63 in
  (Z.lor (Z.shiftl i0 2) (Z.shiftr i1 4) = a
   /\ Z.land i1 15 = Z.shiftr b 4
   /\ Z.shiftr i2 2 = Z.land a 15
   /\ Z.land i2 3 = Z.shiftr b 6
   /\ Z.lor (Z.shiftl (Z.shiftr b 4) 4) (Z.land b 15) = b
   /\ Z.lor (Z.shiftl (Z.shiftr b 6) 6) (Z.land b 63) = b
   /\ (0 <= i0 < 64 /\ 0 <= i1 < 64 /\ 0 <= i2 < 64 /\ 0 <= i3 < 64))%Z.
Proof.
  cbv zeta. pose proof (decodes_pair_true x y) as D.
  unfold decodes_pair, base64_indices in D. cbv zeta in D.
  cbn [forallb] in D.
  repeat (apply andb_true_iff in D; destruct D as [D ?]).
  repeat match goal with
         | Q : (_ =? _)%Z = true |- _ => apply Z.eqb_eq in Q
         | Q : (_ <=? _)%Z = true |- _ => apply Z.leb_le in Q
         | Q : (_ <? _)%Z = true |- _ => apply Z.ltb_lt in Q
         end.
  repeat split; try assumption; try lia.
Qed.

Lemma code_inj x y : Z.of_N (code x) = Z.of_N (code y) -> x = y.
Proof.
  unfold code. intros E. apply N2Z.inj in E.
  rewrite <- (ascii_N_embedding x), <- (ascii_N_embedding y), E. reflexivity.
Qed.

Lemma base64_index_range v i : (0 <= base64_index v i < 64)%Z.
Proof.
  unfold base64_index, byte_at. set (j := (i / 4 * 3)%nat).
  destruct (i mod 4)%nat as [|[|[|k]]].
  - destruct (decodes_pair_facts (nth j v NUL) NUL)
      as [_ [_ [_ [_ [_ [_ [B _]]]]]]]. exact B.
  - destruct (decodes_pair_facts (nth j v NUL) (nth (j + 1) v NUL))
      as [_ [_ [_ [_ [_ [_ [_ [B _]]]]]]]]. exact B.
  - destruct (decodes_pair_facts (nth (j + 1) v NUL) (nth (j + 2) v NUL))
      as [_ [_ [_ [_ [_ [_ [_ [_ [B _]]]]]]]]]. exact B.
  - destruct (decodes_pair_facts NUL (nth (j + 2) v NUL))
      as [_ [_ [_ [_ [_ [_ [_ [_ [_ B]]]]]]]]]. exact B.
Qed.

Lemma tab_index_inj i j :
  i < 64 -> j < 64 -> nth i tab NUL = nth j tab NUL -> i = j.
Proof.
  intros I J E. pose proof tab_distinct as T.
  rewrite forallb_forall in T.
  specialize (T i ltac:(apply in_seq; lia)).
  rewrite forallb_forall in T.
  specialize (T j ltac:(apply in_seq; lia)).
  rewrite E, Ascii.eqb_refl in T. simpl in T. apply Nat.eqb_eq. exact T.
Qed.

(** Equal encodings have equal indices. *)
Lemma conv_base64_index v v' n i :
  conv_base64 v n = conv_base64 v' n -> i < n ->
  base64_index v i = base64_index v' i.
Proof.
  unfold conv_base64. intros E I.
  assert (N : nth_error (map (fun i => nth (Z.to_nat (base64_index v i)) tab NUL)
                             (seq 0 n)) i
              = nth_error (map (fun i => nth (Z.to_nat (base64_index v' i)) tab NUL)
                               (seq 0 n)) i) by (rewrite E; reflexivity).
  rewrite !nth_error_map in N.
  assert (S : nth_error (seq 0 n) i = Some i).
  { rewrite nth_error_nth' with (d := 0) by (rewrite length_seq; exact I).
    rewrite seq_nth by exact I. reflexivity. }
  rewrite S in N. simpl in N. injection N as N.
  pose proof (base64_index_range v i) as R.
  pose proof (base64_index_range v' i) as R'.
  apply tab_index_inj in N; lia.
Qed.

Lemma base64_index_group v g :
  base64_index v (4 * g) = Z.shiftr (byte_at v (3 * g)) 2
  /\ base64_index v (4 * g + 1)
     = Z.lor (Z.land (Z.shiftl (byte_at v (3 * g)) 4) 48)
             (Z.shiftr (byte_at v (3 * g + 1)) 4)
  /\ base64_index v (4 * g + 2)
     = Z.lor (Z.land (Z.shiftl (byte_at v (3 * g + 1)) 2) 60)
             (Z.shiftr (byte_at v (3 * g + 2)) 6)
  /\ base64_index v (4 * g + 3) = Z.land (byte_at v (3 * g + 2)) 63.
Proof.
  unfold base64_index.
  assert (D : forall r, r < 4 -> (4 * g + r) / 4 = g /\ (4 * g + r) mod 4 = r).
  { intros r R. replace (4 * g + r) with (r + g * 4) by lia.
    rewrite Nat.div_add, Nat.Div0.mod_add by lia.
    rewrite Nat.div_small, Nat.mod_small by lia. split; lia. }
  destruct (D 0 ltac:(lia)) as [D0 M0]. rewrite Nat.add_0_r in D0, M0.
  destruct (D 1 ltac:(lia)) as [D1 M1].
  destruct (D 2 ltac:(lia)) as [D2 M2].
  destruct (D 3 ltac:(lia)) as [D3 M3].
  rewrite D0, M0, D1, M1, D2, M2, D3, M3.
  replace (g * 3) with (3 * g) by lia. repeat split.
Qed.

(** The four characters of a group determine its three bytes. *)
Lemma conv_base64_group v v' g :
  (forall r, r < 4 -> base64_index v (4 * g + r) = base64_index v' (4 * g + r)) ->
  forall r, r < 3 -> nth (3 * g + r) v NUL = nth (3 * g + r) v' NUL.
Proof.
  intros E.
  destruct (base64_index_group v g) as [V0 [V1 [V2 V3]]].
  destruct (base64_index_group v' g) as [W0 [W1 [W2 W3]]].
  pose proof (E 0 ltac:(lia)) as E0. rewrite Nat.add_0_r, V0, W0 in E0.
  pose proof (E 1 ltac:(lia)) as E1. rewrite V1, W1 in E1.
  pose proof (E 2 ltac:(lia)) as E2. rewrite V2, W2 in E2.
  pose proof (E 3 ltac:(lia)) as E3. rewrite V3, W3 in E3.
  unfold byte_at in *.
  set (A := nth (3 * g) v NUL) in *. set (B := nth (3 * g + 1) v NUL) in *.
  set (C := nth (3 * g + 2) v NUL) in *.
  set (A' := nth (3 * g) v' NUL) in *. set (B' := nth (3 * g + 1) v' NUL) in *.
  set (C' := nth (3 * g + 2) v' NUL) in *.
  destruct (decodes_pair_facts A B) as [P1 [P2 _]].
  destruct (decodes_pair_facts A' B') as [Q1 [Q2 _]].
  destruct (decodes_pair_facts B C) as [_ [_ [P3 [P4 [_ [P6 _]]]]]].
  destruct (decodes_pair_facts B' C') as [_ [_ [Q3 [Q4 [_ [Q6 _]]]]]].
  destruct (decodes_pair_facts A B) as [_ [_ [_ [_ [P5 _]]]]].
  destruct (decodes_pair_facts A' B') as [_ [_ [_ [_ [Q5 _]]]]].
  cbv zeta in *.
  assert (EA : A = A').
  { apply code_inj. rewrite <- P1, <- Q1, E0, E1. reflexivity. }
  assert (EB : B = B').
  { apply code_inj. rewrite <- P5, <- Q5, <- P2, <- Q2, <- P3, <- Q3, E1, E2.
    reflexivity. }
  assert (EC : C = C').
  { apply code_inj. rewrite <- P6, <- Q6, <- P4, <- Q4, E2, E3. reflexivity. }
  intros r R. destruct r as [|[|[|r]]]; [rewrite Nat.add_0_r| | |lia]; assumption.
Qed.

Lemma firstn_nth_eq (l l' : bytes) m :
  m <= length l -> m <= length l' ->
  (forall i, i < m -> nth i l NUL = nth i l' NUL) ->
  firstn m l = firstn m l'.
Proof.
  revert l l'. induction m as [|m IH]; intros l l' L L' E; [reflexivity|].
  destruct l as [|x l]; [simpl in L; lia|].
  destruct l' as [|x' l']; [simpl in L'; lia|].
  simpl. f_equal.
  - exact (E 0 ltac:(lia)).
  - apply IH; [simpl in L; lia | simpl in L'; lia|].
    intros i I. exact (E (S i) ltac:(lia)).
Qed.

Lemma nth_firstn_lt (l : bytes) m i :
  i < m -> nth i (firstn m l) NUL = nth i l NUL.
Proof.
  revert l i. induction m as [|m IH]; intros l i I; [lia|].
  destruct l as [|x l]; [destruct i; reflexivity|].
  destruct i; [reflexivity|]. simpl. apply IH. lia.
Qed.

(** conv_base64 keeps exactly the first 6 bits per character of its
    input: the encodings in [4 * k] characters of two byte strings are
    equal if and only if their first [3 * k] bytes are. *)
Theorem conv_base64_injective (v v' : bytes) (k : nat) :
  3 * k <= length v -> 3 * k <= length v' ->
  (conv_base64 v (4 * k) = conv_base64 v' (4 * k)
   <-> firstn (3 * k) v = firstn (3 * k) v').
Proof.
  intros L L'. split.
  - intros E. apply firstn_nth_eq; try assumption.
    intros i I.
    replace i with (3 * (i / 3) + i mod 3)
      by (symmetry; apply Nat.div_mod_eq).
    apply conv_base64_group.
    + intros r R. apply (conv_base64_index v v' (4 * k)); [exact E|].
      assert (i / 3 < k) by (apply Nat.Div0.div_lt_upper_bound; lia). lia.
    + apply Nat.mod_upper_bound. lia.
  - intros E. unfold conv_base64. apply map_ext_in. intros i I.
    apply in_seq in I. f_equal. f_equal.
    assert (G : i / 4 < k) by (apply Nat.Div0.div_lt_upper_bound; lia).
    assert (N : forall x, x < 3 * k -> nth x v NUL = nth x v' NUL).
    { intros x X. rewrite <- (nth_firstn_lt v (3 * k) x X),
                          <- (nth_firstn_lt v' (3 * k) x X), E.
      reflexivity. }
    unfold base64_index, byte_at.
    rewrite !N by lia. reflexivity.
Qed.

Lemma conv_base64_injective_witness :
  conv_base64 (B "foobar") 4 = B "Zm9v"
  /\ (conv_base64 (B "foobar") 4 = conv_base64 (B "foodie") 4
      <-> firstn 3 (B "foobar") = firstn 3 (B "foodie")).
Proof.
  split; [reflexivity|].
  refine (conv_base64_injective (B "foobar") (B "foodie") 1 _ _).
  - simpl. lia.
  - simpl. lia.
Defined.

(** ** The pseudouser *)

Section UserDatabaseProperties.

Variables (ENOMEM_code EINVAL_code : Z) (malloc_ok : bool).
Variable getpwnam_r : bytes -> Z * option passwd.

(** Whatever the user database says and whether or not memory is
    left, otpw_set_pseudouser never leaves a pseudouser whose uid is
    above a limit that is not negative; with memory available the
    pseudouser it leaves is the entry of [otpw_autopseudouser] if there
    is one within the limit, and none otherwise, in which case an entry
    above the limit gives EINVAL. *)
Theorem set_pseudouser_within_limit (pc : pseudouser_config)
  (pseudouser0 : option passwd) :
  let r := otpw_set_pseudouser ENOMEM_code EINVAL_code malloc_ok getpwnam_r
             pc pseudouser0 in
  let limit := otpw_autopseudouser_maxuid pc in
  (forall pu, snd r = Some pu -> (limit < 0 \/ pw_uid pu <= limit)%Z)
  /\ (malloc_ok = true ->
      forall err found,
        getpwnam_r (otpw_autopseudouser pc) = (err, found) ->
        match found with
        | Some pu =>
            if ((0 <=? limit) && (limit <? pw_uid pu))%Z
            then r = (EINVAL_code, None)
            else r = (err, Some pu)
        | None => r = (err, None)
        end).
Proof.
  cbv zeta. unfold otpw_set_pseudouser, otpw_getpwnam. split.
  - intros pu.
    destruct (if malloc_ok then _ else _) as [err [pu'|]];
      [|discriminate].
    destruct ((0 <=? _) && (_ <? _))%Z eqn:T; [discriminate|].
    simpl. intros E. injection E as <-.
    apply andb_false_iff in T. destruct T as [T|T].
    + left. apply Z.leb_gt in T. exact T.
    + right. apply Z.ltb_ge in T. exact T.
  - intros -> err found E. rewrite E.
    destruct found as [pu|]; [|reflexivity].
    destruct ((0 <=? _) && (_ <? _))%Z; reflexivity.
Qed.

End UserDatabaseProperties.

(** ** The handle agrees with the file *)

Lemma joined_snoc ls l :
  joined (ls ++ [l])
  = joined ls ++ (match ls with [] => [] | _ => B "/" end) ++ l.
Proof.
  destruct ls as [|x ls]; simpl; [rewrite app_nil_r; reflexivity|].
  rewrite map_app, concat_app. simpl. rewrite app_nil_r, <- !app_assoc.
  reflexivity.
Qed.

Lemma nth_skipn_0 {A} (l : list A) k d : nth 0 (skipn k l) d = nth k l d.
Proof.
  revert l. induction k as [|k IH]; intros [|x l]; simpl; auto.
Qed.

Lemma nth_0_firstn {A} (l : list A) n d : 0 < n -> nth 0 (firstn n l) d = nth 0 l d.
Proof. intros N. destruct n; [lia|]. destruct l; reflexivity. Qed.

(** The first [c] bytes and the [h] bytes after them, of a row of
    [c + h] bytes. *)
Lemma row_label_eq {A} (X Y : list A) c h :
  firstn (c + h) X = firstn (c + h) Y ->
  firstn c X = firstn c Y
  /\ firstn h (skipn c X) = firstn h (skipn c Y).
Proof.
  intros E. split.
  - replace (firstn c X) with (firstn c (firstn (c + h) X))
      by (rewrite firstn_firstn; f_equal; lia).
    replace (firstn c Y) with (firstn c (firstn (c + h) Y))
      by (rewrite firstn_firstn; f_equal; lia).
    rewrite E. reflexivity.
  - replace h with (c + h - c) by lia.
    rewrite <- !skipn_firstn_comm. rewrite E. reflexivity.
Qed.

Section Coherence.
Context {hdrs : Headers}.
Variable cfg : config.

Lemma multi_coherent_add hbuf0 ch hbuf r :
  (0 <= challen ch)%Z -> (0 <= hlen ch)%Z ->
  0 < Z.to_nat (challen ch + hlen ch) ->
  (passwords ch < otpw_multi cfg)%Z ->
  r < Z.to_nat (entries ch) ->
  nth (r * Z.to_nat (challen ch + hlen ch)) hbuf NUL <> HYPHEN ->
  multi_coherent cfg hbuf0 ch hbuf ->
  multi_coherent cfg hbuf0 (fst (add_password ch hbuf r))
                 (snd (add_password ch hbuf r)).
Proof.
  intros Hc Hh Hn Hp Hr Ha [I1 [I2 [I3 [I4 [I5 [I6 [I7 [I8 I9]]]]]]]].
  unfold multi_coherent, add_password. cbn [fst snd challenge passwords
    selection hash challen hlen entries].
  set (n := Z.to_nat (challen ch + hlen ch)) in *.
  set (c := Z.to_nat (challen ch)) in *.
  set (h := Z.to_nat (hlen ch)) in *.
  set (e := Z.to_nat (entries ch)) in *.
  set (p := Z.to_nat (passwords ch)) in *.
  assert (En : n = c + h) by (unfold n, c, h; lia).
  assert (Pl : p < length (selection ch)) by (unfold p; lia).
  assert (Ph : p < length (hash ch)) by (unfold p; lia).
  replace (Z.to_nat (passwords ch + 1)) with (S p) by (unfold p; lia).
  rewrite !store_length, !firstn_store_snoc by assumption.
  assert (Nr : ~ In r (firstn p (selection ch))).
  { intros I. destruct (I6 r I) as [_ [R _]]. contradiction. }
  assert (Row : firstn (c + h) (skipn (r * n) hbuf)
                = firstn (c + h) (skipn (r * n) hbuf0)).
  { rewrite <- En. apply I7; assumption. }
  destruct (row_label_eq _ _ c h Row) as [RL RH].
  assert (Ls : length (firstn p (selection ch)) = p)
    by (rewrite length_firstn; lia).
  split; [lia|]. split; [exact I2|]. split; [exact I3|]. split; [exact I4|].
  split.
  { apply NoDup_app; [exact I5 | repeat constructor; simpl; tauto |].
    intros x Ix [<-|[]]. contradiction. }
  split.
  { intros j Ij. apply in_app_or in Ij. destruct Ij as [Ij | [<-|[]]].
    - destruct (I6 j Ij) as [J1 [J2 J3]]. split; [exact J1|].
      split; [|exact J3].
      rewrite nth_store_other; [exact J2|].
      intros Q. assert (j = r) by nia. subst j. contradiction.
    - split; [exact Hr|]. split.
      + apply nth_store_same. rewrite I4. nia.
      + rewrite <- (nth_skipn_0 hbuf0), <- (nth_0_firstn _ n) by exact Hn.
        rewrite <- (I7 r Hr Nr).
        rewrite nth_0_firstn by exact Hn. rewrite nth_skipn_0. exact Ha. }
  split.
  { intros i Ie Ni.
    assert (i <> r)
      by (intros ->; apply Ni, in_or_app; right; left; reflexivity).
    rewrite firstn_skipn_store by nia.
    apply I7; [exact Ie|]. intros I. apply Ni, in_or_app. left. exact I. }
  split.
  - rewrite map_app. cbn [map]. rewrite joined_snoc, I8. f_equal.
    unfold strncpy. rewrite RL. f_equal.
    destruct (firstn p (selection ch)) as [|x t] eqn:Q.
    + simpl in Ls. replace (passwords ch) with 0%Z by (unfold p in Ls; lia).
      reflexivity.
    + simpl in Ls.
      replace (passwords ch =? 0)%Z with false
        by (symmetry; apply Z.eqb_neq; unfold p in Ls; lia).
      reflexivity.
  - rewrite map_app, I9. cbn [map]. f_equal. f_equal.
    unfold strncpy.
    replace (r * n + c) with (c + r * n) by lia.
    rewrite <- !skipn_skipn, RH. reflexivity.
Qed.

Lemma rejected_unmarked hbuf lock n c r :
  rejected hbuf lock n c r = false -> nth (r * n) hbuf NUL <> HYPHEN.
Proof.
  unfold rejected. intros R E. rewrite E in R. discriminate.
Qed.

Lemma multi_challenge_coherent lock hbuf0 n :
  forall fuel rbg ch hbuf k ch' hbuf' k',
  (0 <= challen ch)%Z -> (0 <= hlen ch)%Z ->
  0 < Z.to_nat (challen ch + hlen ch) ->
  0 < Z.to_nat (entries ch) ->
  multi_coherent cfg hbuf0 ch hbuf ->
  multi_challenge cfg n fuel rbg lock ch hbuf k = Some (ch', hbuf', k') ->
  multi_coherent cfg hbuf0 ch' hbuf'
  /\ challen ch' = challen ch /\ hlen ch' = hlen ch /\ entries ch' = entries ch.
Proof.
  induction n as [|n IH]; intros fuel rbg ch hbuf k ch' hbuf' k' Hc Hh Hn He I M.
  - simpl in M. injection M as <- <- <-. auto.
  - simpl in M.
    destruct ((passwords ch <? otpw_multi cfg)
              && (Z.of_nat (strlen (challenge ch)) <? challenge_room ch))%Z eqn:C;
      [|injection M as <- <- <-; auto].
    apply andb_true_iff in C. destruct C as [C _]. apply Z.ltb_lt in C.
    pose proof (random_scan_lt rbg hbuf lock (Z.to_nat (challen ch + hlen ch))
                  (Z.to_nat (challen ch)) (Z.to_nat (entries ch))
                  (Z.to_nat (entries ch) + (Z.to_nat (entries ch) + 0)) k He) as J.
    destruct (random_scan _ _ _ _ _ _ _ _) as [j k1]. simpl in J.
    destruct (fallback_scan _ _ _ _ _ _ j) as [r|] eqn:F; [|discriminate].
    destruct (fallback_scan_result _ _ _ _ _ He _ _ _ J F) as [Hr Ha].
    apply rejected_unmarked in Ha.
    pose proof (multi_coherent_add hbuf0 ch hbuf r Hc Hh Hn C Hr Ha I) as I'.
    destruct (IH fuel rbg (fst (add_password ch hbuf r))
                (snd (add_password ch hbuf r)) k1 ch' hbuf' k' Hc Hh Hn He I' M)
      as [R1 [R2 [R3 R4]]].
    split; [exact R1|]. simpl in R2, R3, R4. auto.
Qed.


Lemma table_hbuf_length c h lines :
  forallb (entry_line (Z.to_nat (c + h))) lines = true ->
  length (table_hbuf c h lines) = length lines * Z.to_nat (c + h).
Proof.
  unfold table_hbuf. intros F.
  induction lines as [|l ls IH]; [reflexivity|].
  simpl in F. apply andb_true_iff in F. destruct F as [Fl Fls].
  apply entry_line_length in Fl.
  simpl map. simpl concat. rewrite length_app, length_firstn, IH by exact Fls.
  simpl length. lia.
Qed.

Lemma table_hbuf_nonnul c h lines :
  forallb (entry_line (Z.to_nat (c + h))) lines = true ->
  forallb nonnul (table_hbuf c h lines) = true.
Proof.
  unfold table_hbuf. intros F.
  induction lines as [|l ls IH]; [reflexivity|].
  simpl in F. apply andb_true_iff in F. destruct F as [Fl Fls].
  simpl map. simpl concat. rewrite forallb_app, IH by exact Fls.
  rewrite firstn_nonnul; [reflexivity|].
  apply (entry_line_nonnul _ _ Fl).
Qed.

(** A row of the table is marked as used when its line is. *)
Lemma table_hbuf_unused c h lines j :
  0 < Z.to_nat (c + h) ->
  forallb (entry_line (Z.to_nat (c + h))) lines = true ->
  j < length lines ->
  nth (j * Z.to_nat (c + h)) (table_hbuf c h lines) NUL <> HYPHEN ->
  unused (nth j lines []) = true.
Proof.
  intros Hn F J U. unfold unused. apply negb_true_iff.
  destruct (Ascii.eqb (hd NUL (nth j lines [])) HYPHEN) eqn:Q; [|reflexivity].
  exfalso. apply U. apply Ascii.eqb_eq in Q.
  rewrite <- nth_skipn_0, (table_hbuf_row c h lines j F J).
  destruct (Z.to_nat (c + h)) as [|n]; [lia|].
  assert (Fl : entry_line (S n) (nth j lines []) = true).
  { rewrite forallb_forall in F. apply F. apply nth_In. exact J. }
  apply entry_line_length in Fl.
  destruct (nth j lines []) as [|x l]; [simpl in Fl; lia|]. exact Q.
Qed.

Lemma coherent_of_multi c h e lines ch hbuf :
  (0 <= c)%Z -> (0 <= h)%Z -> 0 < Z.to_nat (c + h) ->
  length lines = Z.to_nat e ->
  forallb (entry_line (Z.to_nat (c + h))) lines = true ->
  challen ch = c -> hlen ch = h -> entries ch = e ->
  multi_coherent cfg (table_hbuf c h lines) ch hbuf ->
  handle_coherent c h lines ch.
Proof.
  intros Hc Hh Hn Hl F Ec Eh Ee [I1 [I2 [I3 [I4 [I5 [I6 [I7 [I8 I9]]]]]]]].
  rewrite Ec, Eh, Ee in *. unfold handle_coherent. cbv zeta.
  set (sel := firstn (Z.to_nat (passwords ch)) (selection ch)) in *.
  assert (In_lines : forall j, In j sel -> j < length lines).
  { intros j Ij. rewrite Hl. apply (I6 j Ij). }
  split; [unfold sel; rewrite length_firstn; lia|].
  split; [exact I5|]. split.
  { apply Forall_forall. intros j Ij. split; [auto|].
    apply (table_hbuf_unused c h); auto. apply (I6 j Ij). }
  split.
  - rewrite I8. f_equal. apply map_ext_in. intros j Ij.
    apply (table_hbuf_label c h lines j Hc Hh F (In_lines j Ij)).
  - rewrite I9. apply map_ext_in. intros j Ij.
    apply (table_hbuf_label c h lines j Hc Hh F (In_lines j Ij)).
Qed.

Lemma coherent_empty c h lines ch :
  passwords ch = 0%Z -> challenge ch = [] -> handle_coherent c h lines ch.
Proof.
  intros P C. unfold handle_coherent. rewrite P, C. simpl.
  repeat split; constructor.
Qed.

Lemma coherent_cleanup c h lines ch old w :
  handle_coherent c h lines ch ->
  handle_coherent c h lines (fst (prepare_cleanup ch old w)).
Proof. intros H. exact H. Qed.

Lemma multi_coherent_start hbuf ch :
  passwords ch = 0%Z -> challenge ch = [] ->
  (0 <= otpw_multi cfg)%Z ->
  length (selection ch) = Z.to_nat (otpw_multi cfg) ->
  length (hash ch) = Z.to_nat (otpw_multi cfg) ->
  length hbuf = Z.to_nat (entries ch) * Z.to_nat (challen ch + hlen ch) ->
  multi_coherent cfg hbuf ch hbuf.
Proof.
  intros P C M Ls Lh L. unfold multi_coherent. rewrite P, C. simpl.
  repeat split; auto; try lia; try constructor; intros; contradiction.
Qed.

Lemma prepare_contended_coherent fuel rbg lock0 ch hbuf w ch' w'
  c h e lines :
  (0 <= otpw_multi cfg)%Z ->
  (1 <= c)%Z -> (0 <= h)%Z -> (1 <= e)%Z ->
  length lines = Z.to_nat e ->
  forallb (entry_line (Z.to_nat (c + h))) lines = true ->
  challen ch = c -> hlen ch = h -> entries ch = e ->
  hbuf = table_hbuf c h lines ->
  passwords ch = 0%Z -> challenge ch = [] ->
  length (selection ch) = Z.to_nat (otpw_multi cfg) ->
  length (hash ch) = Z.to_nat (otpw_multi cfg) ->
  length hbuf = Z.to_nat e * Z.to_nat (c + h) ->
  prepare_contended cfg fuel rbg lock0 ch hbuf w = Some (ch', w') ->
  handle_coherent c h lines ch'.
Proof.
  intros Hm Hc Hh He Hl F Ec Eh Ee Eb P C Ls Lh L.
  unfold prepare_contended.
  destruct (sys_readlink 80 w) as [[i buf] w1].
  assert (Same : forall w2, Some (ch, w2) = Some (ch', w') ->
            handle_coherent c h lines ch')
    by (intros w2 Q; injection Q as <- <-; apply coherent_empty; assumption).
  assert (Multi : forall lock w2,
            match multi_challenge cfg (Z.to_nat (otpw_multi cfg)) fuel rbg
                    lock ch hbuf 0 with
            | Some (c, _, _) => Some (c, w2)
            | None => None
            end = Some (ch', w') ->
            handle_coherent c h lines ch').
  { intros lock w2 Q.
    destruct (multi_challenge _ _ _ _ _ _ _ _) as [[[c1 h1] k1]|] eqn:M;
      [|discriminate].
    injection Q as <- <-.
    assert (I : multi_coherent cfg hbuf ch hbuf).
    { apply multi_coherent_start; auto. rewrite Ec, Eh, Ee. exact L. }
    destruct (multi_challenge_coherent lock hbuf _ _ _ _ _ _ _ _ _
                ltac:(rewrite Ec; lia) ltac:(rewrite Eh; lia)
                ltac:(rewrite Ec, Eh; lia) ltac:(rewrite Ee; lia) I M)
      as [R1 [R2 [R3 R4]]].
    rewrite Eb in R1.
    apply (coherent_of_multi c h e lines c1 h1); auto; try lia; congruence. }
  destruct (0 <? i)%Z.
  - destruct (negb _); (destruct (_ || _)%bool; [apply Same | apply Multi]).
  - destruct (negb _); [apply Same|].
    destruct (_ || _)%bool; [apply Same | apply Multi].
Qed.

Lemma otpw_prepare_coherent fuel rbg lock0 ch0 u flags0 w d e c h p lines post
  ch' w' :
  (1 <= otpw_multi cfg)%Z ->
  (0 <= otpw_hlen cfg)%Z ->
  pwfile w = Some d ->
  password_file cfg d e c h p lines post ->
  otpw_prepare cfg fuel rbg lock0 ch0 (Some u) flags0 w = Some (ch', w') ->
  handle_coherent c h lines ch'.
Proof.
  intros Hm Hh Hf Hp.
  rewrite (otpw_prepare_table cfg fuel rbg lock0 ch0 u flags0 w d e c h p
             lines post Hf Hp).
  cbv zeta.
  destruct Hp as [_ [[[He _] [Hc [_ [_ Hh']]]] [Hl F]]].
  assert (H0 : (0 <= h)%Z) by lia.
  assert (Empty : forall c1 old w2,
            passwords c1 = 0%Z -> challenge c1 = [] ->
            Some (prepare_cleanup c1 old w2) = Some (ch', w') ->
            handle_coherent c h lines ch').
  { intros c1 old w2 P C E. injection E as <- <-.
    apply (coherent_cleanup c h lines c1 old w2), coherent_empty; assumption. }
  destruct (unused_count lines <? 1)%Z; [apply Empty; reflexivity|].
  destruct (first_unused 0 lines None) as [j|] eqn:Ej;
    [|apply Empty; reflexivity].
  destruct (first_unused_spec lines 0 j Ej) as [_ [J1 [J2 _]]].
  rewrite Nat.sub_0_r in J1, J2.
  set (th := table_handle cfg ch0 u flags0 e c h p lines).
  set (hbuf := table_hbuf c h lines).
  assert (Single : forall b old w2,
            Some (prepare_cleanup
                    (with_locked b (with_passwords 1 (with_primary hbuf j th)))
                    old w2) = Some (ch', w') ->
            handle_coherent c h lines ch').
  { intros b old w2 E. injection E as <- <-.
    apply (coherent_cleanup c h lines
             (with_locked b (with_passwords 1 (with_primary hbuf j th))) old w2).
    destruct (table_hbuf_label c h lines j ltac:(lia) H0 F J1) as [L1 L2].
    unfold handle_coherent. simpl.
    destruct (Z.to_nat (otpw_multi cfg)) eqn:Q; [lia|]. simpl.
    split; [reflexivity|]. split; [repeat constructor; simpl; tauto|].
    split; [repeat constructor; assumption|].
    split.
    - rewrite app_nil_r. exact L1.
    - f_equal. exact L2. }
  unfold prepare_locking. cbv zeta.
  destruct (negb _); [exact (Single false _ _)|].
  destruct (lock_loop cfg 5 _ _) as [[| |] w2].
  - apply Single.
  - apply Empty; reflexivity.
  - destruct (prepare_contended cfg fuel rbg lock0 _ _ w2)
      as [[ch3 w3]|] eqn:PC; [|discriminate].
    intros E. injection E as <- <-.
    apply (coherent_cleanup c h lines ch3 (Some (euid w, egid w)) w3).
    refine (prepare_contended_coherent fuel rbg lock0 _ hbuf w2 ch3 w3 c h e
              lines ltac:(lia) Hc H0 He Hl F _ _ _ eq_refl _ _ _ _ _ PC);
      try reflexivity.
    + simpl. rewrite store_length, repeat_length. reflexivity.
    + simpl. rewrite store_length, repeat_length. reflexivity.
    + rewrite <- Hl. apply table_hbuf_length. exact F.
Qed.

(** Whatever way otpw_prepare takes on a password file -- one
    challenge with or without the lock, several challenges beside the
    lock of another login, or a failure -- the handle it returns agrees
    with the file: the entries it has selected for the passwords it asks
    for are distinct unused lines of the file, the challenge is their
    labels, in that order and separated by slashes, and the hashes in
    the handle are the hashes that these lines store. *)
Theorem prepare_handle_agrees_with_file (fuel : nat) (rbg : nat -> nat)
  (lock0 : bytes) (ch0 : struct_challenge) (u : passwd) (flags0 : Z)
  (w : world) (d : bytes) (e c h p : Z) (lines : list bytes) (post : bytes)
  (ch' : struct_challenge) (w' : world) :
  (1 <= otpw_multi cfg)%Z ->
  (0 <= otpw_hlen cfg)%Z ->
  pwfile w = Some d ->
  password_file cfg d e c h p lines post ->
  otpw_prepare cfg fuel rbg lock0 ch0 (Some u) flags0 w = Some (ch', w') ->
  let sel := firstn (Z.to_nat (passwords ch')) (selection ch') in
  length sel = Z.to_nat (passwords ch')
  /\ NoDup sel
  /\ Forall (fun j => j < length lines /\ unused (nth j lines []) = true) sel
  /\ challenge ch' = joined (map (fun j => entry_label c (nth j lines [])) sel)
  /\ firstn (Z.to_nat (passwords ch')) (hash ch')
     = map (fun j => entry_hash c h (nth j lines [])) sel.
Proof.
  intros Hm Hh Hf Hp E.
  exact (otpw_prepare_coherent _ _ _ _ _ _ _ _ _ _ _ _ _ _ _ _ Hm Hh Hf Hp E).
Qed.

End Coherence.

Lemma prepare_handle_agrees_with_file_witness :
  exists ch' w',
    demo_prepare 0 (fun k => k) contended_world = Some (ch', w')
    /\ challenge ch' = B "ABC/ABD/ABE"
    /\ let sel := firstn (Z.to_nat (passwords ch')) (selection ch') in
       length sel = Z.to_nat (passwords ch')
       /\ NoDup sel
       /\ Forall (fun j => j < length demo_lines
                           /\ unused (nth j demo_lines []) = true) sel
       /\ challenge ch'
          = joined (map (fun j => entry_label 3 (nth j demo_lines [])) sel)
       /\ firstn (Z.to_nat (passwords ch')) (hash ch')
          = map (fun j => entry_hash 3 12 (nth j demo_lines [])) sel.
Proof.
  eexists; eexists. split; [vm_compute; reflexivity|].
  split; [reflexivity|].
  refine (prepare_handle_agrees_with_file (hdrs := demo_headers)
            default_config 0 (fun k => k) [] blank_challenge demo_user 0
            contended_world demo_file 10 3 12 8 demo_lines [] _ _ _ _
            eq_refl demo_file_ok _).
  - simpl. lia.
  - simpl. lia.
  - vm_compute. reflexivity.
Defined.

(** ** The number of passwords of a multi challenge *)

Section MultiChallengeCount.
Context {hdrs : Headers}.
Variable cfg : config.

(** With room in the challenge for [otpw_multi] labels the loop of the
    multi challenge ends only when it has added them all. *)
Lemma multi_challenge_count n : forall fuel rbg lock ch hbuf k ch' hbuf' k',
  (1 <= challen ch)%Z -> (0 <= hlen ch)%Z -> 0 < Z.to_nat (entries ch) ->
  forallb nonnul hbuf = true ->
  length hbuf = Z.to_nat (entries ch) * Z.to_nat (challen ch + hlen ch) ->
  challenge_shape cfg ch ->
  ((challen ch + 1) * otpw_multi cfg < sizeof_challenge)%Z ->
  (challen ch + 2 < sizeof_challenge < 2 ^ 64)%Z ->
  (passwords ch <= otpw_multi cfg <= passwords ch + Z.of_nat n)%Z ->
  multi_challenge cfg n fuel rbg lock ch hbuf k = Some (ch', hbuf', k') ->
  passwords ch' = otpw_multi cfg.
Proof.
  induction n as [|n IH];
    intros fuel rbg lock ch hbuf k ch' hbuf' k' C H E N L S R1 R2 P M.
  - simpl in M. injection M as <- <- <-. lia.
  - simpl in M.
    destruct ((passwords ch <? otpw_multi cfg)
              && (Z.of_nat (strlen (challenge ch)) <? challenge_room ch))%Z
      eqn:G.
    + apply andb_true_iff in G. destruct G as [G _]. apply Z.ltb_lt in G.
      pose proof (random_scan_lt rbg hbuf lock (Z.to_nat (challen ch + hlen ch))
                    (Z.to_nat (challen ch)) (Z.to_nat (entries ch))
                    (Z.to_nat (entries ch) + (Z.to_nat (entries ch) + 0)) k E) as J.
      destruct (random_scan _ _ _ _ _ _ _ _) as [j k1]. simpl in J.
      destruct (fallback_scan _ _ _ _ _ _ _) as [r|] eqn:F; [|discriminate].
      destruct (fallback_scan_result _ _ _ _ _ E _ _ _ J F) as [Hr _].
      assert (R : r * Z.to_nat (challen ch + hlen ch) < length hbuf).
      { rewrite L. apply Nat.mul_lt_mono_pos_r; [lia | exact Hr]. }
      pose proof (add_password_shape cfg ch hbuf r C G N R S) as S'.
      match type of M with
      | multi_challenge _ _ _ _ _ ?c ?h _ = _ =>
          set (ch1 := c) in *; set (hbuf1 := h) in *
      end.
      change (challenge_shape cfg ch1) in S'.
      assert (N1 : forallb nonnul hbuf1 = true)
        by (apply forallb_store_hyphen; exact N).
      assert (L1 : length hbuf1
                   = Z.to_nat (entries ch1) * Z.to_nat (challen ch1 + hlen ch1))
        by (unfold hbuf1; rewrite store_length; exact L).
      apply (IH fuel rbg lock ch1 hbuf1 k1 ch' hbuf' k' C H E N1 L1 S' R1 R2);
        [|exact M].
      change (passwords ch1) with (passwords ch + 1)%Z. lia.
    + injection M as <- <- <-.
      destruct (Z.eq_dec (passwords ch) (otpw_multi cfg)) as [Y|Y];
        [exact Y|].
      exfalso.
      apply andb_false_iff in G. destruct G as [G|G];
        [apply Z.ltb_ge in G; lia|].
      apply Z.ltb_ge in G. unfold challenge_room in G.
      rewrite Z.mod_small in G by lia.
      pose proof (cstr_length_le (challenge ch)) as Q. unfold strlen in G.
      destruct S as [[S1 S2] | [[S1 S1'] [S2 S3]]].
      * rewrite S2 in G. simpl in G. lia.
      * assert ((passwords ch + 1) * (challen ch + 1)
                <= otpw_multi cfg * (challen ch + 1))%Z
          by (apply Z.mul_le_mono_nonneg_r; lia).
        lia.
Qed.


(** Beside the fresh lock of another login, with enough unused
    passwords and room in the challenge for [otpw_multi] labels,
    otpw_prepare asks for exactly [otpw_multi] passwords and takes no
    lock. *)
Theorem prepare_multi_asks_for_all (fuel : nat) (rbg : nat -> nat)
  (lock0 : bytes) (ch0 : struct_challenge) (u : passwd) (flags0 : Z)
  (w : world) (d : bytes) (e c h p : Z) (lines : list bytes) (post : bytes)
  (t : bytes) (mt : Z) (ch' : struct_challenge) (w' : world) :
  (1 <= otpw_multi cfg)%Z ->
  (0 <= otpw_hlen cfg)%Z ->
  ((c + 1) * otpw_multi cfg < sizeof_challenge)%Z ->
  (c + 2 < sizeof_challenge < 2 ^ 64)%Z ->
  pwfile w = Some d ->
  password_file cfg d e c h p lines post ->
  Z.land flags0 OTPW_NOLOCK = 0%Z ->
  lock w = Symlink t mt -> t <> [] ->
  stale cfg w mt = false ->
  (Z.max (otpw_multi cfg + 1) 10 <= unused_count lines)%Z ->
  otpw_prepare cfg fuel rbg lock0 ch0 (Some u) flags0 w = Some (ch', w') ->
  passwords ch' = otpw_multi cfg
  /\ locked ch' = false
  /\ challenge ch' <> [].
Proof.
  intros Hm Hh R1 R2 Hf Hp Hn Hl Ht Hs Hu.
  rewrite (otpw_prepare_table cfg fuel rbg lock0 ch0 u flags0 w d e c h p
             lines post Hf Hp).
  cbv zeta.
  replace (unused_count lines <? 1)%Z with false
    by (symmetry; apply Z.ltb_ge; lia).
  destruct (first_unused 0 lines None) as [j|] eqn:Ej;
    [|apply first_unused_none in Ej; lia].
  destruct Hp as [_ [[[He _] [Hc [_ [_ Hh']]]] [Hlen F]]].
  assert (H0 : (0 <= h)%Z) by lia.
  unfold prepare_locking. simpl flags. rewrite Hn. simpl negb. cbv iota.
  rewrite (lock_loop_held cfg 4 _ _ mt)
    by (unfold lock_mtime; simpl; rewrite ?Hl; auto).
  unfold prepare_contended, sys_readlink. simpl lock. rewrite Hl.
  replace (0 <? Z.of_nat (length (firstn 80 t)))%Z with true
    by (symmetry; apply Z.ltb_lt; destruct t; [contradiction | simpl; lia]).
  cbv iota.
  set (chm := with_challenge [] _).
  replace ((remaining chm <? otpw_multi cfg + 1) || (remaining chm <? 10))%Z
    with false
    by (symmetry; apply orb_false_iff; split; apply Z.ltb_ge; simpl; lia).
  destruct (multi_challenge cfg _ fuel rbg _ chm _ 0) as [[[c1 h1] k1]|] eqn:M;
    [|discriminate].
  intros E. injection E as <- _.
  assert (N : forallb nonnul (table_hbuf c h lines) = true)
    by (apply table_hbuf_nonnul; exact F).
  assert (L : length (table_hbuf c h lines)
              = Z.to_nat (entries chm) * Z.to_nat (challen chm + hlen chm))
    by (simpl; rewrite <- Hlen; apply table_hbuf_length; exact F).
  assert (S0 : challenge_shape cfg chm) by (left; split; reflexivity).
  pose proof (multi_challenge_count (Z.to_nat (otpw_multi cfg)) _ _ _ chm
                _ _ _ _ _
                ltac:(exact Hc) ltac:(exact H0)
                ltac:(change (entries chm) with e; lia) N L S0
                ltac:(exact R1) ltac:(exact R2)
                ltac:(change (passwords chm) with 0%Z; lia) M) as Cnt.
  destruct (multi_challenge_shape cfg _ _ _ _ chm _ _ _ _ _
              ltac:(exact Hc) ltac:(exact H0)
              ltac:(change (entries chm) with e; lia) N L S0 M)
    as [Sh [Lk _]].
  simpl. split; [exact Cnt|]. split; [exact Lk|].
  destruct Sh as [[S1 S2] | [_ [S2 _]]]; [lia | exact S2].
Qed.

End MultiChallengeCount.

Lemma prepare_multi_asks_for_all_witness :
  exists ch' w',
    demo_prepare 0 (fun k => k) contended_world = Some (ch', w')
    /\ passwords ch' = otpw_multi default_config
    /\ locked ch' = false
    /\ challenge ch' <> [].
Proof.
  eexists; eexists. split; [vm_compute; reflexivity|].
  refine (prepare_multi_asks_for_all (hdrs := demo_headers) default_config
            0 (fun k => k) [] blank_challenge demo_user 0 contended_world
            demo_file 10 3 12 8 demo_lines [] (B "ABC") 99940 _ _
            _ _ _ _ eq_refl demo_file_ok eq_refl eq_refl _ eq_refl _ _).
  - simpl. lia.
  - simpl. lia.
  - simpl. lia.
  - simpl. lia.
  - discriminate.
  - vm_compute. discriminate.
  - vm_compute. reflexivity.
Defined.

(** ** A login with the passwords of the challenge *)

Lemma nth_map_lt {A B} (f : A -> B) l : forall i d d',
  i < length l -> nth i (map f l) d = f (nth i l d').
Proof.
  induction l as [|x l IH]; intros [|i] d d' L; simpl in *; try lia; auto.
  apply IH. lia.
Qed.

Section LoginSelected.
Context {hdrs : Headers}.
Variable cfg : config.

(** On a password file the handle holds the header values of the file
    and the number of unused passwords, whatever way otpw_prepare takes. *)
Lemma prepare_table_fields fuel rbg lock0 ch0 u flags0 w d e c h p lines post
  ch' w' :
  (0 <= otpw_hlen cfg)%Z ->
  pwfile w = Some d ->
  password_file cfg d e c h p lines post ->
  otpw_prepare cfg fuel rbg lock0 ch0 (Some u) flags0 w = Some (ch', w') ->
  entries ch' = e /\ challen ch' = c /\ hlen ch' = h /\ pwlen ch' = p
  /\ remaining ch' = unused_count lines.
Proof.
  intros Hh Hf Hp.
  rewrite (otpw_prepare_table cfg fuel rbg lock0 ch0 u flags0 w d e c h p
             lines post Hf Hp).
  cbv zeta.
  destruct Hp as [_ [[[He _] [Hc [_ [_ Hh']]]] [Hl F]]].
  assert (Fin : forall c1 old w2,
            entries c1 = e -> challen c1 = c -> hlen c1 = h -> pwlen c1 = p ->
            remaining c1 = unused_count lines ->
            Some (prepare_cleanup c1 old w2) = Some (ch', w') ->
            entries ch' = e /\ challen ch' = c /\ hlen ch' = h /\ pwlen ch' = p
            /\ remaining ch' = unused_count lines).
  { intros c1 old w2 E1 E2 E3 E4 E5 E. injection E as <- <-. simpl. auto. }
  destruct (unused_count lines <? 1)%Z; [apply Fin; reflexivity|].
  destruct (first_unused 0 lines None) as [j|]; [|apply Fin; reflexivity].
  unfold prepare_locking. cbv zeta.
  destruct (negb _); [apply Fin; reflexivity|].
  destruct (lock_loop cfg 5 _ _) as [[| |] w2]; try (apply Fin; reflexivity).
  destruct (prepare_contended cfg fuel rbg lock0 _ _ w2)
    as [[ch3 w3]|] eqn:PC; [|discriminate].
  apply prepare_contended_shape in PC.
  - destruct PC as [_ [_ [_ [Q3 [Q4 [Q5 [Q6 Q7]]]]]]].
    apply Fin; assumption.
  - exact Hc.
  - simpl. lia.
  - simpl. lia.
  - apply table_hbuf_nonnul. exact F.
  - simpl. rewrite <- Hl. apply table_hbuf_length. exact F.
  - left. split; reflexivity.
Qed.


(** The lines that otpw_verify overwrites were unused, so the count of
    unused lines goes down by the number of lines overwritten. *)
Lemma unused_count_consumed ch (lines : list bytes) : forall k,
  0 < Z.to_nat (challen ch + hlen ch) ->
  (forall i, i < length lines -> selected ch (k + i) = true ->
             unused (nth i lines []) = true) ->
  unused_count (consumed ch k lines)
  = (unused_count lines - Z.of_nat (hits ch k (length lines)))%Z.
Proof.
  intros k N. revert k. unfold unused_count.
  induction lines as [|l ls IH]; intros k U; [reflexivity|].
  simpl consumed. simpl length. simpl hits. cbn [filter].
  assert (IH' := IH (S k)).
  assert (U' : forall i, i < length ls -> selected ch (S k + i) = true ->
                 unused (nth i ls []) = true).
  { intros i I Q. apply (U (S i)); [simpl; lia|].
    replace (k + S i) with (S k + i) by lia. exact Q. }
  specialize (IH' U').
  destruct (selected ch k) eqn:Q.
  - assert (Ul : unused l = true)
      by (apply (U 0); [simpl; lia | rewrite Nat.add_0_r; exact Q]).
    rewrite Ul.
    replace (unused (hyphen_line ch)) with false
      by (unfold hyphen_line;
          destruct (Z.to_nat (challen ch + hlen ch)); [lia | reflexivity]).
    simpl length. unfold bytes in *. lia.
  - destruct (unused l); simpl length; unfold bytes in *; lia.
Qed.

(** A login from otpw_prepare to otpw_verify, with one password or
    with several: when otpw_prepare has issued a challenge on a
    password file, the response made of the prefix password and, in
    the order of the challenge, the one-time passwords whose hashes the
    selected lines store is verified OTPW_OK; exactly the selected lines
    are overwritten with hyphens, nothing else in the file changes, and
    as many unused passwords less are left as the challenge asked for. *)
Theorem login_consumes_selected (fuel : nat) (rbg : nat -> nat)
  (lock0 : bytes) (ch0 : struct_challenge) (u : passwd) (flags0 : Z)
  (w : world) (d : bytes) (e c h p : Z) (lines : list bytes) (post : bytes)
  (ch' : struct_challenge) (w' : world) (prefix : bytes) (otps : list bytes) :
  (1 <= otpw_multi cfg)%Z ->
  (0 <= otpw_hlen cfg)%Z ->
  pwfile w = Some d -> pwfile_rw w = true ->
  password_file cfg d e c h p lines post ->
  otpw_prepare cfg fuel rbg lock0 ch0 (Some u) flags0 w = Some (ch', w') ->
  challenge ch' <> [] ->
  let sel := firstn (Z.to_nat (passwords ch')) (selection ch') in
  forallb nonnul prefix = true ->
  length otps = length sel ->
  Forall (fun o => length o = Z.to_nat p /\ Forall canonical o) otps ->
  (forall i, i < length sel ->
     entry_hash c h (nth (nth i sel 0) lines [])
     = conv_base64 (md_digest (prefix ++ nth i otps [])) (Z.to_nat h)) ->
  exists r pre,
    otpw_verify cfg ch' (Some (prefix ++ concat otps)) w' = Some r
    /\ verdict r = OTPW_OK
    /\ d = pre ++ concat lines ++ post
    /\ pwfile (world_after r)
       = Some (pre ++ concat (consumed ch' 0 lines) ++ post)
    /\ length (consumed ch' 0 lines) = length lines
    /\ (forall i, i < length lines ->
          nth i (consumed ch' 0 lines) []
          = if existsb (Nat.eqb i) sel
            then repeat HYPHEN (Z.to_nat (c + h)) ++ [NL]
            else nth i lines [])
    /\ unused_count (consumed ch' 0 lines)
       = (unused_count lines - passwords ch')%Z
    /\ remaining (handle_after r) = (unused_count lines - passwords ch')%Z.
Proof.
  intros Hm Hh Hf Hrw Hp Pr Ne sel Np Lo Fo Eh.
  destruct (prepare_table_fields _ _ _ _ _ _ _ _ _ _ _ _ _ _ _ _ Hh Hf Hp Pr)
    as [Fe [Fc [Fh' [Fp Fr]]]].
  pose proof (otpw_prepare_coherent cfg _ _ _ _ _ _ _ _ _ _ _ _ _ _ _ _
                Hm Hh Hf Hp Pr) as [A1 [A2 [A3 [A4 A5]]]].
  fold sel in A1, A2, A3, A4, A5.
  destruct (prepare_returns_result cfg _ _ _ _ _ _ _ _ _ Hm Hh Pr)
    as [[Q _] | [_ [U _]]]; [contradiction|].
  destruct (otpw_prepare_world cfg _ _ _ _ _ _ _ _ _ Pr)
    as [[W1 [W2 _]] _].
  pose proof Hp as [_ [[_ [Hc [_ [[Hp4 _] Hh']]]] [Hlen F]]].
  assert (Nn : 0 < Z.to_nat (c + h)) by lia.
  assert (M : entered_passwords_match ch' (prefix ++ concat otps) = true).
  { unfold entered_passwords_match. rewrite Fp.
    assert (P1 : 0 < Z.to_nat (passwords ch')) by (destruct U; lia).
    assert (Sc := scan_response_canonical (Z.to_nat (passwords ch'))
                    (Z.to_nat p) prefix otps ltac:(lia) P1
                    (eq_trans Lo A1) Fo Np).
    rewrite Sc.
    unfold compare_passwords. apply forallb_forall. intros i Ii.
    apply in_seq in Ii. rewrite Fh'.
    assert (Il : i < length sel) by lia.
    rewrite <- (Eh i Il).
    assert (Hn : nth i (hash ch') []
                 = entry_hash c h (nth (nth i sel 0) lines [])).
    { rewrite <- (firstn_skipn (Z.to_nat (passwords ch')) (hash ch')).
      rewrite A5, app_nth1 by (rewrite length_map; exact Il).
      exact (nth_map_lt (fun j => entry_hash c h (nth j lines [])) sel i [] 0 Il). }
    rewrite Hn. unfold strcmp0, bytes_eqb.
    destruct (list_eq_dec _ _ _); [reflexivity | congruence]. }
  destruct (verify_consumes cfg ch' (prefix ++ concat otps) w' d e c h p lines
              post U M)
    as [pre [r [R1 [R2 [R3 [R4 [R5 _]]]]]]]; try assumption; try congruence.
  assert (Hk : hits ch' 0 (length lines) = length sel).
  { apply hits_selection; [exact A2|].
    eapply Forall_impl; [|exact A3]. intros a [A _]. exact A. }
  exists r, pre.
  split; [exact R2|]. split; [exact R3|]. split; [exact R1|].
  split; [exact R4|]. split; [apply consumed_length|].
  split.
  { intros i Ii. rewrite nth_consumed. simpl Nat.add.
    unfold selected. fold sel.
    apply Nat.ltb_lt in Ii. rewrite Ii. unfold hyphen_line.
    rewrite Fc, Fh'. reflexivity. }
  split.
  { rewrite unused_count_consumed.
    - rewrite Hk, A1. destruct U. lia.
    - rewrite Fc, Fh'. exact Nn.
    - intros i Ii Q. simpl in Q. apply selected_In in Q. fold sel in Q.
      rewrite Forall_forall in A3. apply (A3 i Q). }
  rewrite R5, Fr, Hk, A1. destruct U. lia.
Qed.

End LoginSelected.

Lemma login_consumes_selected_witness :
  exists ch' w',
    demo_prepare 0 (fun k => k) contended_world = Some (ch', w')
    /\ challenge ch' = B "ABC/ABD/ABE"
    /\ exists r pre,
         otpw_verify (hdrs := demo_headers) default_config ch'
           (Some (B "foo" ++ concat [B "aaaaaaaa"; B "aaaaaaab"; B "aaaaaaac"]))
           w' = Some r
         /\ verdict r = OTPW_OK
         /\ demo_file = pre ++ concat demo_lines ++ []
         /\ pwfile (world_after r)
            = Some (pre ++ concat (consumed ch' 0 demo_lines) ++ [])
         /\ length (consumed ch' 0 demo_lines) = length demo_lines
         /\ (forall i, i < length demo_lines ->
               nth i (consumed ch' 0 demo_lines) []
               = if existsb (Nat.eqb i)
                      (firstn (Z.to_nat (passwords ch')) (selection ch'))
                 then repeat HYPHEN (Z.to_nat (3 + 12)) ++ [NL]
                 else nth i demo_lines [])
         /\ unused_count (consumed ch' 0 demo_lines)
            = (unused_count demo_lines - passwords ch')%Z
         /\ remaining (handle_after r)
            = (unused_count demo_lines - passwords ch')%Z.
Proof.
  eexists; eexists. split; [vm_compute; reflexivity|].
  split; [reflexivity|].
  refine (login_consumes_selected (hdrs := demo_headers) default_config
            0 (fun k => k) [] blank_challenge demo_user 0 contended_world
            demo_file 10 3 12 8 demo_lines [] _ _ (B "foo")
            [B "aaaaaaaa"; B "aaaaaaab"; B "aaaaaaac"]
            _ _ eq_refl eq_refl demo_file_ok _ _ _ _ _ _).
  - simpl. lia.
  - simpl. lia.
  - vm_compute. reflexivity.
  - discriminate.
  - reflexivity.
  - reflexivity.
  - repeat constructor.
  - intros i Hi.
    do 3 (destruct i as [|i]; [vm_compute; reflexivity|]).
    exfalso. simpl in Hi. lia.
Defined.

(** ** OTPW_OK is sound *)

Section VerifySoundness.
Context {hdrs : Headers}.
Variable cfg : config.

(** otpw_verify says OTPW_OK only for a response that it has split
    into a prefix password and [passwords] one-time passwords, each of
    which, with the prefix before it, hashes to the hash that the handle
    holds for it; and only on a handle that asks for between 1 and
    [otpw_multi] passwords. *)
Theorem verify_ok_only_if_hashes_match (ch : struct_challenge)
  (pw : option bytes) (w : world)
  (r : otpw_result * struct_challenge * world) :
  otpw_verify cfg ch pw w = Some r ->
  verdict r = OTPW_OK ->
  exists p prefix otps,
    pw = Some p
    /\ (1 <= passwords ch <= otpw_multi cfg)%Z
    /\ scan_response (Z.to_nat (passwords ch)) (Z.to_nat (pwlen ch)) p
       = Some (prefix, otps)
    /\ forall i, i < Z.to_nat (passwords ch) ->
         cstr (conv_base64 (md_digest (prefix ++ nth i otps []))
                           (Z.to_nat (hlen ch)))
         = cstr (nth i (hash ch) []).
Proof.
  intros E V.
  destruct (verify_ok_inv cfg ch pw w r E V) as [p [-> [[U _] M]]].
  unfold entered_passwords_match in M.
  destruct (scan_response _ _ p) as [[prefix otps]|] eqn:Hs; [|discriminate].
  exists p, prefix, otps. split; [reflexivity|]. split; [exact U|].
  split; [exact Hs|].
  intros i I. unfold compare_passwords in M. rewrite forallb_forall in M.
  specialize (M i ltac:(apply in_seq; lia)).
  unfold strcmp0, bytes_eqb in M.
  destruct (list_eq_dec _ _ _) as [Q|]; [exact Q | discriminate].
Qed.

End VerifySoundness.

Lemma verify_ok_only_if_hashes_match_witness :
  exists r,
    demo_verify locked_handle "fooaaaaaaaa" locked_world = Some r
    /\ verdict r = OTPW_OK
    /\ exists p prefix otps,
         Some (B "fooaaaaaaaa") = Some p
         /\ (1 <= passwords locked_handle <= otpw_multi default_config)%Z
         /\ scan_response (Z.to_nat (passwords locked_handle))
              (Z.to_nat (pwlen locked_handle)) p = Some (prefix, otps)
         /\ forall i, i < Z.to_nat (passwords locked_handle) ->
              cstr (conv_base64
                      (md_digest (Headers := demo_headers)
                         (prefix ++ nth i otps []))
                      (Z.to_nat (hlen locked_handle)))
              = cstr (nth i (hash locked_handle) []).
Proof.
  eexists. split; [vm_compute; reflexivity|].
  split; [reflexivity|].
  refine (verify_ok_only_if_hashes_match (hdrs := demo_headers) default_config
            locked_handle (Some (B "fooaaaaaaaa")) locked_world _ _ _).
  - vm_compute. reflexivity.
  - reflexivity.
Defined.
